(** * Kurucz atmosphere dataset: normalisation and tensor shaping

    A shallow embedding of [model.py] (class [KuruczDataset]) and the
    properties of its data pipeline: optical-depth integration, padding of
    depth profiles, min/max statistics, the normalise/denormalise pair and
    the per-sample tensors handed to the network.

    Numbers.  Values read from a model file are Python floats; they are
    modelled as real numbers [R].  Values held in torch tensors are modelled
    as extended reals [xreal] (a real, an infinity or NaN), because
    [torch.log10] and the division of [normalize] leave the finite range on
    finite inputs.  Rounding and signed zeros are not modelled: arithmetic on
    finite values is exact real arithmetic. *)

From Stdlib Require Import Reals Lra ZArith Lia.
From stdpp Require Import base option list strings gmap fin_maps.

(** ** Python exceptions and the error monad *)

Inductive exn : Set :=
| IndexError
| KeyError
| ValueError
| TypeError
| RuntimeError.

Inductive result (A : Type) : Type :=
| Ok (a : A)
| Raise (e : exn).
Arguments Ok {A} a.
Arguments Raise {A} e.

#[global] Instance result_ret : MRet result := λ A a, Ok a.
#[global] Instance result_bind : MBind result := λ A B k r,
  match r with
  | Ok a => k a
  | Raise e => Raise e
  end.

Definition raises {A} (r : result A) : Prop := ∃ e, r = Raise e.

(** [for x in xs: s = body(s, x)], stopping at the first exception. *)
Fixpoint for_each {S X : Type} (body : S → X → result S) (xs : list X) (s : S)
  : result S :=
  match xs with
  | [] => Ok s
  | x :: xs' => s' ← body s x; for_each body xs' s'
  end.

(** ** Python sequences *)

Section sequences.
Context {A : Type}.

(** [l[i]] for a Python int [i]: negative indices count from the end. *)
Definition py_index (l : list A) (i : Z) : result A :=
  let n := Z.of_nat (length l) in
  let j := (if (i <? 0)%Z then n + i else i)%Z in
  if ((0 <=? j) && (j <? n))%Z
  then match l !! Z.to_nat j with
       | Some x => Ok x
       | None => Raise IndexError
       end
  else Raise IndexError.

(** [l[i] = x] on an array of fixed length, [i] a non-negative index. *)
Definition py_setitem (l : list A) (i : nat) (x : A) : result (list A) :=
  if decide (i < length l)%nat then Ok (<[i := x]> l) else Raise IndexError.

(** ** DepthProfileResampler: [KuruczDataset.pad_sequence]

    [target_length] is a number of depth points, a natural number. *)
Definition pad_sequence (values : list A) (target_length : nat)
  : result (list A) :=
  if decide (target_length ≤ length values)%nat
  then Ok (take target_length values)
  else
    let padding_needed := (target_length - length values)%nat in
    lastv ← py_index values (-1);
    Ok (values ++ replicate padding_needed lastv).
End sequences.

(** ** Atmosphere models, as returned by the external model reader *)

Record AtmModel : Type := mkModel {
  m_teff : R;
  m_gravity : R;
  m_feh : option R;
  m_afe : option R;
  m_RHOX : list R;
  m_T : list R;
  m_P : list R;
  m_XNE : list R;
  m_ABROSS : list R;
  m_ACCRAD : list R;
  m_TAU : option (list R)
}.

Definition set_TAU (tau : list R) (m : AtmModel) : AtmModel :=
  mkModel (m_teff m) (m_gravity m) (m_feh m) (m_afe m) (m_RHOX m) (m_T m)
          (m_P m) (m_XNE m) (m_ABROSS m) (m_ACCRAD m) (Some tau).

(** ** TauIntegrator: [KuruczDataset.calculate_tau] *)

(** One iteration of the loop body at index [i]. *)
Definition tau_body (rhox abross : list R) (tau : list R) (i : nat)
  : result (list R) :=
  rhox_i ← py_index rhox (Z.of_nat i);
  rhox_p ← py_index rhox (Z.of_nat i - 1);
  let delta_rhox := (rhox_i - rhox_p)%R in
  abross_i ← py_index abross (Z.of_nat i);
  abross_p ← py_index abross (Z.of_nat i - 1);
  let avg_opacity := ((abross_i + abross_p) / 2)%R in
  let delta_tau := (avg_opacity * delta_rhox)%R in
  tau_p ← py_index tau (Z.of_nat i - 1);
  py_setitem tau i (tau_p + delta_tau)%R.

(** The integration itself: [tau = zeros_like(rhox)], then the loop over
    [range(1, len(rhox))]. *)
Definition tau_of (rhox abross : list R) : result (list R) :=
  let tau := replicate (length rhox) 0%R in
  for_each (tau_body rhox abross) (seq 1 (length rhox - 1)) tau.

Definition calculate_tau (model : AtmModel) : result AtmModel :=
  tau ← tau_of (m_RHOX model) (m_ABROSS model);
  Ok (set_TAU tau model).

(** The recurrence of the trapezoidal rule at index [i], the contract of the
    integrator. *)
Definition trapezoid_at (rhox abross tau : list R) (i : nat) : Prop :=
  nth i tau 0%R =
    (nth (i - 1) tau 0 +
     (nth i abross 0 + nth (i - 1) abross 0) / 2 *
     (nth i rhox 0 - nth (i - 1) rhox 0))%R.

(** ** Tensor elements: extended reals *)

Inductive xreal : Type :=
| Fin (r : R)
| PInf
| NInf
| NaN.

(** Sign of a real, by trichotomy. *)
Definition Rsign (r : R) : comparison :=
  match total_order_T 0 r with
  | inleft (left _) => Gt
  | inleft (right _) => Eq
  | inright _ => Lt
  end.

(** The infinity of the given sign; a zero sign gives NaN. *)
Definition inf_of (s : comparison) : xreal :=
  match s with
  | Gt => PInf
  | Lt => NInf
  | Eq => NaN
  end.

Definition xsign (x : xreal) : option comparison :=
  match x with
  | Fin r => Some (Rsign r)
  | PInf => Some Gt
  | NInf => Some Lt
  | NaN => None
  end.

Definition sign_mul (s t : comparison) : comparison :=
  match s, t with
  | Eq, _ | _, Eq => Eq
  | Gt, Gt | Lt, Lt => Gt
  | Gt, Lt | Lt, Gt => Lt
  end.

Definition xadd (x y : xreal) : xreal :=
  match x, y with
  | NaN, _ | _, NaN => NaN
  | Fin a, Fin b => Fin (a + b)
  | PInf, NInf | NInf, PInf => NaN
  | PInf, _ | _, PInf => PInf
  | NInf, _ | _, NInf => NInf
  end.

Definition xopp (x : xreal) : xreal :=
  match x with
  | Fin a => Fin (- a)
  | PInf => NInf
  | NInf => PInf
  | NaN => NaN
  end.

Definition xsub (x y : xreal) : xreal :=
  match x, y with
  | Fin a, Fin b => Fin (a - b)
  | _, _ => xadd x (xopp y)
  end.

Definition xmul (x y : xreal) : xreal :=
  match x, y with
  | Fin a, Fin b => Fin (a * b)
  | _, _ =>
      match xsign x, xsign y with
      | Some s, Some t => inf_of (sign_mul s t)
      | _, _ => NaN
      end
  end.

(** Division; a finite value over zero is an infinity of the sign of the
    numerator, zero over zero is NaN. *)
Definition xdiv (x y : xreal) : xreal :=
  match x, y with
  | NaN, _ | _, NaN => NaN
  | Fin a, Fin b =>
      if Req_dec_T b 0 then inf_of (Rsign a) else Fin (a / b)
  | Fin _, _ => Fin 0
  | _, Fin b =>
      match xsign x with
      | Some s => inf_of (sign_mul s (if Req_dec_T b 0 then Gt else Rsign b))
      | None => NaN
      end
  | _, _ => NaN
  end.

(** [torch.log10]: minus infinity at zero, NaN below zero. *)
Definition xlog10 (x : xreal) : xreal :=
  match x with
  | Fin a =>
      match Rsign a with
      | Gt => Fin (ln a / ln 10)
      | Eq => NInf
      | Lt => NaN
      end
  | PInf => PInf
  | NInf | NaN => NaN
  end.

(** [torch.pow(10.0, x)]. *)
Definition xpow10 (x : xreal) : xreal :=
  match x with
  | Fin a => Fin (exp (a * ln 10))
  | PInf => PInf
  | NInf => Fin 0
  | NaN => NaN
  end.

(** Minimum and maximum as used by the reductions [min()] and [max()]:
    NaN propagates. *)
Definition xmin (x y : xreal) : xreal :=
  match x, y with
  | NaN, _ | _, NaN => NaN
  | NInf, _ | _, NInf => NInf
  | PInf, z | z, PInf => z
  | Fin a, Fin b => Fin (Rmin a b)
  end.

Definition xmax (x y : xreal) : xreal :=
  match x, y with
  | NaN, _ | _, NaN => NaN
  | PInf, _ | _, PInf => PInf
  | NInf, z | z, NInf => z
  | Fin a, Fin b => Fin (Rmax a b)
  end.

(** The constant [1e-30] of the log transform. *)
Definition eps : R := 1e-30.

(** ** Tensors

    A tensor is a scalar or a sequence of tensors along its first axis, as
    [torch.tensor] builds it from nested Python lists.  The operations below
    are the ones [KuruczDataset] calls; shape errors raise as in torch.  A
    tensor with an empty axis keeps no record of the sizes inside that
    axis. *)

#[local] Unset Elimination Schemes.
Inductive tensor : Type :=
| Sc (x : xreal)
| Tn (ts : list tensor).
#[local] Set Elimination Schemes.

#[global] Instance result_fmap : FMap result := λ A B f r,
  match r with
  | Ok a => Ok (f a)
  | Raise e => Raise e
  end.

(** [t.dim()] *)
Fixpoint tdim (t : tensor) : nat :=
  match t with
  | Sc _ => 0
  | Tn [] => 1
  | Tn (c :: _) => S (tdim c)
  end.

(** [t.shape] *)
Fixpoint tshape (t : tensor) : list nat :=
  match t with
  | Sc _ => []
  | Tn [] => [0%nat]
  | Tn (c :: cs) => S (length cs) :: tshape c
  end.

(** Elementwise application, also the action of a Python scalar operand. *)
Fixpoint tmap (f : xreal → xreal) (t : tensor) : tensor :=
  match t with
  | Sc x => Sc (f x)
  | Tn ts => Tn (map (tmap f) ts)
  end.

(** The elements in row-major order. *)
Fixpoint tflat (t : tensor) : list xreal :=
  match t with
  | Sc x => [x]
  | Tn ts => flat_map tflat ts
  end.

(** [zip] with a function that may raise; the lists must have equal
    lengths. *)
Definition zip_withM {A B C : Type} (f : A → B → result C)
  : list A → list B → result (list C) :=
  fix go l k :=
    match l, k with
    | [], [] => Ok []
    | x :: l', y :: k' => r ← f x y; rs ← go l' k'; Ok (r :: rs)
    | _, _ => Raise RuntimeError
    end.

(** Elementwise combination of two tensors of the same rank; an axis of
    size one is stretched to the size of the other operand. *)
Fixpoint tzip (f : xreal → xreal → xreal) (a b : tensor) {struct a}
  : result tensor :=
  match a, b with
  | Sc x, Sc y => Ok (Sc (f x y))
  | Tn xs, Tn ys =>
      match xs, ys with
      | [x], _ => Tn <$> mapM (tzip f x) ys
      | _, [y] => Tn <$> mapM (λ x, tzip f x y) xs
      | _, _ => Tn <$> zip_withM (tzip f) xs ys
      end
  | _, _ => Raise RuntimeError
  end.

(** Broadcasting along the leading axes of the operand of higher rank. *)
Fixpoint tlift_l (f : xreal → xreal → xreal) (b a : tensor) {struct a}
  : result tensor :=
  if decide (tdim a = tdim b) then tzip f a b
  else match a with
       | Sc _ => Raise RuntimeError
       | Tn xs => Tn <$> mapM (tlift_l f b) xs
       end.

Fixpoint tlift_r (f : xreal → xreal → xreal) (a b : tensor) {struct b}
  : result tensor :=
  if decide (tdim a = tdim b) then tzip f a b
  else match b with
       | Sc _ => Raise RuntimeError
       | Tn ys => Tn <$> mapM (tlift_r f a) ys
       end.

(** [a op b] for two tensors, with broadcasting. *)
Definition tbin (f : xreal → xreal → xreal) (a b : tensor) : result tensor :=
  if decide (tdim b ≤ tdim a)%nat then tlift_l f b a else tlift_r f a b.

(** [t.min()] and [t.max()]: reduction over all elements, a 0-dim tensor. *)
Definition treduce (f : xreal → xreal → xreal) (t : tensor) : result tensor :=
  match tflat t with
  | [] => Raise RuntimeError
  | x :: xs => Ok (Sc (foldl f x xs))
  end.

(** [t.min(dim=0).values] and [t.max(dim=0).values]: reduction along the
    first axis only. *)
Definition treduce0 (f : xreal → xreal → xreal) (t : tensor) : result tensor :=
  match t with
  | Sc x => Ok (Sc x)
  | Tn [] => Raise IndexError
  | Tn (c :: cs) => for_each (tzip f) cs c
  end.

(** [t[i]] for an integer [i]. *)
Definition tindex (t : tensor) (i : Z) : result tensor :=
  match t with
  | Sc _ => Raise IndexError
  | Tn ts => py_index ts i
  end.

(** [torch.tensor(l)] for a list of floats and for a list of such lists. *)
Definition torch_tensor1 (l : list R) : tensor := Tn (map (λ r, Sc (Fin r)) l).

Definition torch_tensor2 (ll : list (list R)) : result tensor :=
  match ll with
  | [] => Ok (Tn [])
  | l :: ll' =>
      if forallb (λ l', Nat.eqb (length l') (length l)) ll'
      then Ok (Tn (map torch_tensor1 ll))
      else Raise ValueError
  end.

(** [t.unsqueeze(0)], [t.unsqueeze(1)] and [t.unsqueeze(-1)]. *)
Definition unsqueeze0 (t : tensor) : tensor := Tn [t].

Definition unsqueeze1 (t : tensor) : result tensor :=
  match t with
  | Sc _ => Raise IndexError
  | Tn ts => Ok (Tn (map (λ c, Tn [c]) ts))
  end.

Fixpoint unsqueeze_last (t : tensor) : tensor :=
  match t with
  | Sc x => Tn [Sc x]
  | Tn ts => Tn (map unsqueeze_last ts)
  end.

(** [t.expand(sizes)]; a size [-1] keeps the axis as it is. *)
Fixpoint expand (sizes : list Z) (t : tensor) {struct sizes} : result tensor :=
  match sizes with
  | [] =>
      match t with
      | Sc _ => Ok t
      | Tn _ => Raise RuntimeError
      end
  | s :: rest =>
      if decide (tdim t < length sizes)%nat then
        if decide (0 ≤ s)%Z
        then c ← expand rest t; Ok (Tn (replicate (Z.to_nat s) c))
        else Raise RuntimeError
      else
        match t with
        | Sc _ => Raise RuntimeError
        | Tn ts =>
            cs ← mapM (expand rest) ts;
            if decide (s = -1 ∨ s = Z.of_nat (length cs))%Z then Ok (Tn cs)
            else match cs with
                 | [c] =>
                     if decide (0 ≤ s)%Z then Ok (Tn (replicate (Z.to_nat s) c))
                     else Raise RuntimeError
                 | _ => Raise RuntimeError
                 end
        end
  end.

(** [torch.cat(ts, dim=0)] *)
Definition tcat0 (ts : list tensor) : result tensor :=
  match ts with
  | [] => Raise RuntimeError
  | t :: _ =>
      if forallb (λ c, bool_decide (tdim c ≠ 0%nat
                                    ∧ tail (tshape c) = tail (tshape t))) ts
      then Ok (Tn (flat_map (λ c, match c with
                                  | Tn cs => cs
                                  | Sc _ => []
                                  end) ts))
      else Raise RuntimeError
  end.

(** [torch.cat([a, b], dim=-1)] *)
Fixpoint tcat_last (a b : tensor) {struct a} : result tensor :=
  match a, b with
  | Tn xs, Tn ys =>
      if decide (tdim a = tdim b) then
        if decide (tdim a = 1%nat) then Ok (Tn (xs ++ ys))
        else Tn <$> zip_withM tcat_last xs ys
      else Raise RuntimeError
  | _, _ => Raise RuntimeError
  end.

(** [torch.stack(ts, dim=1)] *)
Definition tstack1 (ts : list tensor) : result tensor :=
  match ts with
  | [] => Raise RuntimeError
  | t :: _ =>
      if forallb (λ c, bool_decide (tshape c = tshape t)) ts
      then match t with
           | Sc _ => Raise IndexError
           | Tn cs =>
               Ok (Tn (map (λ r, Tn (omap (λ c, match c with
                                                | Tn rows => rows !! r
                                                | Sc _ => None
                                                end) ts))
                           (seq 0 (length cs))))
           end
      else Raise RuntimeError
  end.

(** [t[:, :, i]] for a non-negative column [i] of a 3-dimensional tensor. *)
Definition tselect2 (t : tensor) (i : nat) : result tensor :=
  match tshape t with
  | [_; _; n] =>
      if decide (i < n)%nat then
        match t with
        | Sc _ => Raise IndexError
        | Tn ms =>
            Tn <$> mapM (λ m, match m with
                              | Sc _ => Raise IndexError
                              | Tn rows =>
                                  Tn <$> mapM (λ row, tindex row (Z.of_nat i)) rows
                              end) ms
        end
      else Raise IndexError
  | _ => Raise IndexError
  end.

(** ** Python dictionaries with string keys, in insertion order *)

Fixpoint dict_get {V : Type} (d : list (string * V)) (k : string) : result V :=
  match d with
  | [] => Raise KeyError
  | (k', v) :: d' => if String.eqb k k' then Ok v else dict_get d' k
  end.

Definition map_get {V : Type} (m : gmap string V) (k : string) : result V :=
  match m !! k with
  | Some v => Ok v
  | None => Raise KeyError
  end.

(** [t.shape[0]] *)
Definition shape0 (t : tensor) : result nat :=
  match tshape t with
  | [] => Raise IndexError
  | n :: _ => Ok n
  end.

(** ** NormalizationStatistics: [KuruczDataset.setup_normalization] *)

Record NormParams : Type := mkNormParams {
  np_min : tensor;
  np_max : tensor;
  log_scale : bool
}.

Definition log_params : list string :=
  ["teff"; "RHOX"; "P"; "XNE"; "ABROSS"; "ACCRAD"; "TAU"]%string.

(** [torch.log10(data + 1e-30)] *)
Definition log_transform (data : tensor) : tensor :=
  tmap xlog10 (tmap (λ x, xadd x (Fin eps)) data).

(** The body of the loop of [setup_normalization] for one entry of
    [self.original]. *)
Definition in_log_params (param_name : string) : bool :=
  existsb (String.eqb param_name) log_params.

Definition fit_params (param_name : string) (data : tensor) : result NormParams :=
  let log_scale := in_log_params param_name in
  let transformed_data := if log_scale then log_transform data else data in
  '(param_min, param_max) ←
    (if decide (2 < tdim transformed_data)%nat then
       mn ← treduce0 xmin transformed_data;
       mx ← treduce0 xmax transformed_data;
       Ok (mn, mx)
     else
       mn ← treduce xmin transformed_data;
       mx ← treduce xmax transformed_data;
       Ok (mn, mx));
  Ok (mkNormParams param_min param_max log_scale).

Definition setup_normalization (original : list (string * tensor))
  : result (gmap string NormParams) :=
  for_each (λ norm_params '(param_name, data),
              params ← fit_params param_name data;
              Ok (<[param_name := params]> norm_params))
           original ∅.

(** ** FeatureTransformer: [KuruczDataset.normalize] and [denormalize] *)

Definition normalize (norm_params : gmap string NormParams)
    (param_name : string) (data : tensor) : result tensor :=
  params ← map_get norm_params param_name;
  let transformed_data :=
    if log_scale params then log_transform data else data in
  centred ← tbin xsub transformed_data (np_min params);
  let doubled := tmap (xmul (Fin 2)) centred in
  range ← tbin xsub (np_max params) (np_min params);
  scaled ← tbin xdiv doubled range;
  let normalized := tmap (λ x, xsub x (Fin 1)) scaled in
  Ok normalized.

(** The final [.to(self.device)] leaves the values as they are. *)
Definition denormalize (norm_params : gmap string NormParams)
    (param_name : string) (normalized_data : tensor) : result tensor :=
  params ← map_get norm_params param_name;
  let shifted := tmap (λ x, xadd x (Fin 1)) normalized_data in
  let halved := tmap (λ x, xdiv x (Fin 2)) shifted in
  range ← tbin xsub (np_max params) (np_min params);
  stretched ← tbin xmul halved range;
  transformed_data ← tbin xadd stretched (np_min params);
  let denormalized_data :=
    if log_scale params
    then tmap (λ x, xsub x (Fin eps)) (tmap xpow10 transformed_data)
    else transformed_data in
  Ok denormalized_data.

(** ** DatasetAssembler *)

(** The padded profiles and stellar parameters of one model, as appended to
    the lists of [prepare_data]. *)
Record Row : Type := mkRow {
  r_teff : R;
  r_gravity : R;
  r_feh : R;
  r_afe : R;
  r_rhox : list R;
  r_t : list R;
  r_p : list R;
  r_xne : list R;
  r_abross : list R;
  r_accrad : list R;
  r_tau : list R
}.

Definition prepare_model (max_depth_points : nat) (model : AtmModel)
  : result Row :=
  rhox ← pad_sequence (m_RHOX model) max_depth_points;
  t ← pad_sequence (m_T model) max_depth_points;
  p ← pad_sequence (m_P model) max_depth_points;
  xne ← pad_sequence (m_XNE model) max_depth_points;
  abross ← pad_sequence (m_ABROSS model) max_depth_points;
  accrad ← pad_sequence (m_ACCRAD model) max_depth_points;
  tau_raw ← match m_TAU model with Some l => Ok l | None => Raise KeyError end;
  tau ← pad_sequence tau_raw max_depth_points;
  Ok (mkRow (m_teff model) (m_gravity model)
            (default 0%R (m_feh model)) (default 0%R (m_afe model))
            rhox t p xne abross accrad tau).

(** [torch.tensor(l).unsqueeze(1)] for a list of floats. *)
Definition column_tensor (l : list R) : result tensor :=
  unsqueeze1 (torch_tensor1 l).

Definition prepare_data (models : list AtmModel) (max_depth_points : nat)
  : result (list (string * tensor)) :=
  rows ← mapM (prepare_model max_depth_points) models;
  teff ← column_tensor (r_teff <$> rows);
  gravity ← column_tensor (r_gravity <$> rows);
  feh ← column_tensor (r_feh <$> rows);
  afe ← column_tensor (r_afe <$> rows);
  rhox ← torch_tensor2 (r_rhox <$> rows);
  t ← torch_tensor2 (r_t <$> rows);
  p ← torch_tensor2 (r_p <$> rows);
  xne ← torch_tensor2 (r_xne <$> rows);
  abross ← torch_tensor2 (r_abross <$> rows);
  accrad ← torch_tensor2 (r_accrad <$> rows);
  tau ← torch_tensor2 (r_tau <$> rows);
  Ok [("teff", teff); ("gravity", gravity); ("feh", feh); ("afe", afe);
      ("RHOX", rhox); ("T", t); ("P", p); ("XNE", xne);
      ("ABROSS", abross); ("ACCRAD", accrad); ("TAU", tau)]%string.

Record KuruczDataset : Type := mkDataset {
  max_depth_points : nat;
  models : list AtmModel;
  original : list (string * tensor);
  norm_params : gmap string NormParams;
  teff : tensor;
  gravity : tensor;
  feh : tensor;
  afe : tensor;
  RHOX : tensor;
  T : tensor;
  P : tensor;
  XNE : tensor;
  ABROSS : tensor;
  ACCRAD : tensor;
  TAU : tensor
}.

(** [normalize_all_data], yielding the finished object. *)
Definition normalize_all_data (max_depth_points : nat) (models : list AtmModel)
    (original : list (string * tensor)) (norm_params : gmap string NormParams)
  : result KuruczDataset :=
  let norm name := data ← dict_get original name; normalize norm_params name data in
  teff ← norm "teff"%string;
  gravity ← norm "gravity"%string;
  feh ← norm "feh"%string;
  afe ← norm "afe"%string;
  rhox ← norm "RHOX"%string;
  t ← norm "T"%string;
  p ← norm "P"%string;
  xne ← norm "XNE"%string;
  abross ← norm "ABROSS"%string;
  accrad ← norm "ACCRAD"%string;
  tau ← norm "TAU"%string;
  Ok (mkDataset max_depth_points models original norm_params
                teff gravity feh afe rhox t p xne abross accrad tau).

(** The loading loop of [__init__]: a file that the reader rejects, or whose
    optical depth cannot be computed, is skipped. *)
Definition load_models (readings : list (result AtmModel)) : list AtmModel :=
  omap (λ reading,
          match reading ≫= calculate_tau with
          | Ok model => Some model
          | Raise _ => None
          end) readings.

(** [KuruczDataset.__init__]; [readings] are the outcomes of
    [read_kurucz_model] on the files found. *)
Definition init (readings : list (result AtmModel)) (max_depth_points : nat)
  : result KuruczDataset :=
  let models := load_models readings in
  if decide (length models = 0%nat) then Raise ValueError
  else
    original ← prepare_data models max_depth_points;
    norm_params ← setup_normalization original;
    normalize_all_data max_depth_points models original norm_params.

(** [KuruczDataset.__len__] *)
Definition len (self : KuruczDataset) : result nat :=
  match teff self with
  | Sc _ => Raise TypeError
  | Tn ts => Ok (length ts)
  end.

(** [KuruczDataset.__getitem__] *)
Definition getitem (self : KuruczDataset) (idx : Z) : result (tensor * tensor) :=
  tau_features ← tindex (TAU self) idx;
  teff_i ← tindex (teff self) idx;
  gravity_i ← tindex (gravity self) idx;
  feh_i ← tindex (feh self) idx;
  afe_i ← tindex (afe self) idx;
  stellar_params ← tcat0 [teff_i; gravity_i; feh_i; afe_i];
  batch_size ←
    (if decide (tdim stellar_params = 1%nat) then Ok 1%nat
     else shape0 stellar_params);
  depth_points ← shape0 tau_features;
  expanded_params ←
    (if decide (1 < batch_size)%nat then
       u ← unsqueeze1 stellar_params;
       expand [-1; Z.of_nat depth_points; -1]%Z u
     else expand [Z.of_nat depth_points; -1]%Z (unsqueeze0 stellar_params));
  let tau_reshaped :=
    if decide (tdim tau_features = 1%nat) then unsqueeze_last tau_features
    else tau_features in
  input_features ← tcat_last expanded_params tau_reshaped;
  rhox_i ← tindex (RHOX self) idx;
  t_i ← tindex (T self) idx;
  p_i ← tindex (P self) idx;
  xne_i ← tindex (XNE self) idx;
  abross_i ← tindex (ABROSS self) idx;
  accrad_i ← tindex (ACCRAD self) idx;
  output_features ← tstack1 [rhox_i; t_i; p_i; xne_i; abross_i; accrad_i];
  Ok (input_features, output_features).

(** [KuruczDataset.inverse_transform_outputs] *)
Definition output_columns : list string :=
  ["RHOX"; "T"; "P"; "XNE"; "ABROSS"; "ACCRAD"; "TAU"]%string.

Definition inverse_transform_outputs (self : KuruczDataset) (outputs : tensor)
  : result (gmap string (option tensor)) :=
  match tshape outputs with
  | [batch_size; depth_points; num_features] =>
      let columns := output_columns in
      let result0 : gmap string (option tensor) :=
        list_to_map ((λ param, (param, None)) <$> columns) in
      for_each (λ res '(i, param_name),
                  feature_data ← tselect2 outputs i;
                  denorm ← denormalize (norm_params self) param_name feature_data;
                  Ok (<[param_name := Some denorm]> res))
               (zip (seq 0 (length columns)) columns) result0
  | _ => Raise ValueError
  end.

(** ** The transform on one element

    What [normalize] and [denormalize] do to a single element when the
    stored minimum [mn] and maximum [mx] are 0-dim tensors; the lemmas
    [normalize_scalar] and [denormalize_scalar] relate these to the code. *)

Definition transform_value (lg : bool) (x : xreal) : xreal :=
  if lg then xlog10 (xadd x (Fin eps)) else x.

Definition normalize_value (lg : bool) (mn mx x : xreal) : xreal :=
  xsub (xdiv (xmul (Fin 2) (xsub (transform_value lg x) mn)) (xsub mx mn))
       (Fin 1).

Definition denormalize_value (lg : bool) (mn mx y : xreal) : xreal :=
  let t := xadd (xmul (xdiv (xadd y (Fin 1)) (Fin 2)) (xsub mx mn)) mn in
  if lg then xsub (xpow10 t) (Fin eps) else t.

(** Matrices and vectors of elements as tensors. *)
Definition T1 (v : list xreal) : tensor := Tn (Sc <$> v).
Definition T2 (m : list (list xreal)) : tensor := Tn (T1 <$> m).

(** An [n] by [d] matrix: [n] rows of [d] elements each. *)
Definition matrix (n d : nat) (t : tensor) : Prop :=
  ∃ m, t = T2 m ∧ length m = n ∧ Forall (λ row, length row = d) m.

(** The normalised tensors of a dataset under their feature names, the
    [data] entries that [save_dataset] writes. *)
Definition normalized_features (ds : KuruczDataset) : list (string * tensor) :=
  [("teff", teff ds); ("gravity", gravity ds); ("feh", feh ds);
   ("afe", afe ds); ("RHOX", RHOX ds); ("T", T ds); ("P", P ds);
   ("XNE", XNE ds); ("ABROSS", ABROSS ds); ("ACCRAD", ACCRAD ds);
   ("TAU", TAU ds)]%string.

(** The tensors of a dataset of [n] models and [d] depth points. *)
Definition assembled (n d : nat) (ds : KuruczDataset) : Prop :=
  matrix n 1 (teff ds) ∧ matrix n 1 (gravity ds)
  ∧ matrix n 1 (feh ds) ∧ matrix n 1 (afe ds)
  ∧ matrix n d (RHOX ds) ∧ matrix n d (T ds) ∧ matrix n d (P ds)
  ∧ matrix n d (XNE ds) ∧ matrix n d (ABROSS ds) ∧ matrix n d (ACCRAD ds)
  ∧ matrix n d (TAU ds).

(** A loaded model with an optical depth and no empty profile. *)
Definition complete_model (model : AtmModel) : Prop :=
  m_RHOX model ≠ [] ∧ m_T model ≠ [] ∧ m_P model ≠ [] ∧ m_XNE model ≠ []
  ∧ m_ABROSS model ≠ [] ∧ m_ACCRAD model ≠ []
  ∧ ∃ tau, m_TAU model = Some tau ∧ tau ≠ [].

(** The layout of one sample: the four stellar parameters repeated in every
    depth row next to that row's optical depth, and the output profiles side
    by side. *)
Definition input_layout (a b c d : xreal) (tau : list xreal) : tensor :=
  Tn ((λ x, T1 [a; b; c; d; x]) <$> tau).

Definition output_layout (depth : nat) (columns : list (list xreal)) : tensor :=
  Tn ((λ r, T1 ((λ col, nth r col NaN) <$> columns)) <$> seq 0 depth).

(** ** Sample data *)

(** A three-layer model with equal-length profiles. *)
Definition sample_model : AtmModel :=
  mkModel 5000 4.5 None None
          [0; 1; 2]%R [4000; 5000; 6000]%R [1; 10; 100]%R [1; 2; 3]%R
          [2; 4; 6]%R [0; 0; 0]%R None.

(** A model whose opacity profile is longer than its column-density
    profile. *)
Definition long_abross_model : AtmModel :=
  mkModel 5000 4.5 None None
          [0; 1]%R [4000; 5000]%R [1; 10]%R [1; 2]%R
          [2; 4; 6]%R [0; 0]%R None.

(** A model whose opacity profile is shorter than its column-density
    profile. *)
Definition short_abross_model : AtmModel :=
  mkModel 5000 4.5 None None
          [0; 1; 2]%R [4000; 5000; 6000]%R [1; 10; 100]%R [1; 2; 3]%R
          [2]%R [0; 0; 0]%R None.

(** A two-sample, two-depth-point profile of the linear feature T. *)
Definition sample_T : tensor := T2 [[Fin 1; Fin 5]; [Fin 3; Fin 2]].


(** Two values of a log-scaled feature, the first cancelling the [1e-30] of
    the log transform. *)
Definition sample_cancelling : tensor := T2 [[Fin (- eps)]; [Fin 1000]].

(** Statistics of a log-scaled feature with bounds 3 and 4. *)
Definition sample_norm_params : gmap string NormParams :=
  {[ "teff"%string := mkNormParams (Sc (Fin 3)) (Sc (Fin 4)) true ]}.

(** A network output for one model and one depth point, six channels. *)
Definition sample_outputs : tensor :=
  Tn [Tn [T1 [Fin 0; Fin 0; Fin 0; Fin 0; Fin 0; Fin 0]]].

(** A dataset object carrying statistics only. *)
Definition sample_self : KuruczDataset :=
  mkDataset 80 [] [] sample_norm_params
            (T2 []) (T2 []) (T2 []) (T2 []) (T2 []) (T2 []) (T2 [])
            (T2 []) (T2 []) (T2 []) (T2 []).

(** ** [KuruczDataset.inverse_transform_inputs] *)

(** [t[:, lo:hi]] for constant bounds [0 ≤ lo ≤ hi]; a bound past the end of
    the axis is clipped, as Python slices are. *)
Definition tslice_cols (t : tensor) (lo hi : nat) : result tensor :=
  if decide (tdim t < 2)%nat then Raise IndexError
  else match t with
       | Sc _ => Raise IndexError
       | Tn rows =>
           Tn <$> mapM (λ row, match row with
                               | Sc _ => Raise IndexError
                               | Tn cs => Ok (Tn (take (hi - lo) (drop lo cs)))
                               end) rows
       end.

Definition inverse_transform_inputs (self : KuruczDataset) (inputs : tensor)
  : result (gmap string tensor) :=
  let inputs :=
    if decide (tdim inputs = 1%nat) then unsqueeze0 inputs else inputs in
  teff ← tslice_cols inputs 0 1;
  gravity ← tslice_cols inputs 1 2;
  feh ← tslice_cols inputs 2 3;
  afe ← tslice_cols inputs 3 4;
  teff_denorm ← denormalize (norm_params self) "teff" teff;
  gravity_denorm ← denormalize (norm_params self) "gravity" gravity;
  feh_denorm ← denormalize (norm_params self) "feh" feh;
  afe_denorm ← denormalize (norm_params self) "afe" afe;
  Ok (<["afe"%string := afe_denorm]>
        (<["feh"%string := feh_denorm]>
           (<["gravity"%string := gravity_denorm]>
              {[ "teff"%string := teff_denorm ]}))).

(** ** PersistenceAdapter: [save_dataset] and [load_dataset]

    [torch.save] and [torch.load] are taken to hand back the record they
    were given; the file itself is not modelled.  Moving a tensor to a
    device leaves its values as they are. *)

(** A value of the [data] dictionary: a tensor, or the nested dictionary of
    original tensors. *)
Inductive saved : Type :=
| STensor (t : tensor)
| SDict (d : list (string * tensor)).

Record SaveDict : Type := mkSaveDict {
  sd_norm_params : gmap string NormParams;
  sd_max_depth_points : nat;
  sd_data : list (string * saved)
}.

(** The record that [save_dataset] writes. *)
Definition save_dataset (self : KuruczDataset) : SaveDict :=
  mkSaveDict (norm_params self) (max_depth_points self)
    [("teff", STensor (teff self)); ("gravity", STensor (gravity self));
     ("feh", STensor (feh self)); ("afe", STensor (afe self));
     ("RHOX", STensor (RHOX self)); ("T", STensor (T self));
     ("P", STensor (P self)); ("XNE", STensor (XNE self));
     ("ABROSS", STensor (ABROSS self)); ("ACCRAD", STensor (ACCRAD self));
     ("TAU", STensor (TAU self)); ("original", SDict (original self))]%string.

(** An attribute of a Python object. *)
Inductive attr : Type :=
| ATensor (t : tensor)
| ADict (d : list (string * tensor))
| ANormParams (nps : gmap string NormParams)
| ANat (n : nat)
| AStr (s : string)
| AModels (ms : list AtmModel).

(** [load_dataset], from the record that [torch.load] returns: the object
    starts without attributes ([cls.__new__]) and receives them one by
    one. *)
Definition load_dataset (save_dict : SaveDict) (device : string)
  : gmap string attr :=
  let dataset : gmap string attr :=
    <["device"%string := AStr device]>
      (<["max_depth_points"%string := ANat (sd_max_depth_points save_dict)]>
         {[ "norm_params"%string := ANormParams (sd_norm_params save_dict) ]}) in
  let dataset :=
    foldl (λ obj '(key, value),
             match value with
             | SDict d => <[key := ADict ((λ '(k, v), (k, v)) <$> d)]> obj
             | STensor t => <[key := ATensor t]> obj
             end) dataset (sd_data save_dict) in
  <["models"%string := AModels []]> dataset.

(** The attributes that the methods of [KuruczDataset] read, as a dataset;
    [None] when one of them is missing or holds a value of another kind. *)
Definition dataset_of_attrs (obj : gmap string attr) : option KuruczDataset :=
  let tensor_attr name :=
    match obj !! name with Some (ATensor t) => Some t | _ => None end in
  depth ← match obj !! "max_depth_points"%string with
          | Some (ANat n) => Some n | _ => None end;
  ms ← match obj !! "models"%string with
       | Some (AModels ms) => Some ms | _ => None end;
  orig ← match obj !! "original"%string with
         | Some (ADict d) => Some d | _ => None end;
  nps ← match obj !! "norm_params"%string with
        | Some (ANormParams nps) => Some nps | _ => None end;
  teff ← tensor_attr "teff"%string;
  gravity ← tensor_attr "gravity"%string;
  feh ← tensor_attr "feh"%string;
  afe ← tensor_attr "afe"%string;
  rhox ← tensor_attr "RHOX"%string;
  t ← tensor_attr "T"%string;
  p ← tensor_attr "P"%string;
  xne ← tensor_attr "XNE"%string;
  abross ← tensor_attr "ABROSS"%string;
  accrad ← tensor_attr "ACCRAD"%string;
  tau ← tensor_attr "TAU"%string;
  Some (mkDataset depth ms orig nps
                  teff gravity feh afe rhox t p xne abross accrad tau).

(** ** The fields of a model and their features

    The feature name under which [prepare_data] stores each field of a
    model, with the default of the two optional fields. *)

Definition stellar_fields : list (string * (AtmModel → R)) :=
  [("teff", m_teff); ("gravity", m_gravity);
   ("feh", λ model, default 0%R (m_feh model));
   ("afe", λ model, default 0%R (m_afe model))]%string.

Definition sequence_fields : list (string * (AtmModel → list R)) :=
  [("RHOX", m_RHOX); ("T", m_T); ("P", m_P); ("XNE", m_XNE);
   ("ABROSS", m_ABROSS); ("ACCRAD", m_ACCRAD);
   ("TAU", λ model, default [] (m_TAU model))]%string.

(** All feature names, in the order of the bundle. *)
Definition feature_names : list string :=
  ["teff"; "gravity"; "feh"; "afe"; "RHOX"; "T"; "P"; "XNE"; "ABROSS";
   "ACCRAD"; "TAU"]%string.

(** ** More sample data *)

(** A model with constant opacity 3. *)
Definition constant_opacity_model : AtmModel :=
  mkModel 5000 4.5 None None
          [1; 2; 4]%R [4000; 5000; 6000]%R [1; 10; 100]%R [1; 2; 3]%R
          [3; 3; 3]%R [0; 0; 0]%R None.

(** The sample model with its column densities moved by 10 and its
    opacities doubled. *)
Definition shifted_model : AtmModel :=
  mkModel 5000 4.5 None None
          ((λ r, r + 10)%R <$> [0; 1; 2]%R) [4000; 5000; 6000]%R
          [1; 10; 100]%R [1; 2; 3]%R
          ((λ a, 2 * a)%R <$> [2; 4; 6]%R) [0; 0; 0]%R None.

(** A cooler, metal-poor model with the profiles of the sample model. *)
Definition cool_model : AtmModel :=
  mkModel 4000 4 (Some (-1)%R) (Some 0.4%R)
          [0; 1; 2]%R [4000; 5000; 6000]%R [1; 10; 100]%R [1; 2; 3]%R
          [2; 4; 6]%R [0; 0; 0]%R None.

(** A 3-dimensional tensor from its blocks of rows, and the blocks of a
    (batch, depth, channels) tensor. *)
Definition T3 (c : list (list (list xreal))) : tensor := Tn (T2 <$> c).

Definition blocks (batch depth channels : nat)
    (c : list (list (list xreal))) : Prop :=
  length c = batch
  ∧ Forall (λ blk, length blk = depth
                   ∧ Forall (λ row : list xreal, length row = channels) blk) c.

(** Channel [i] of a (batch, depth, channels) tensor, one row per batch
    entry. *)
Definition channel (i : nat) (c : list (list (list xreal)))
  : list (list xreal) :=
  (λ blk : list (list xreal), (λ row, nth i row NaN) <$> blk) <$> c.

(** A network output for one model and one depth point, seven channels. *)
Definition sample_outputs7 : list (list (list xreal)) :=
  [[[Fin 0; Fin 0; Fin 0; Fin 0; Fin 0; Fin 0; Fin 0]]].

(** * Properties *)

(** ** The error monad and Python sequences *)

Lemma for_each_app {S X} (body : S → X → result S) (xs ys : list X) (s : S) :
  for_each body (xs ++ ys) s = s' ← for_each body xs s; for_each body ys s'.
Proof.
  revert s. induction xs as [|x xs IH]; intros s; simpl; [done|].
  destruct (body s x) as [s'|e]; simpl; [apply IH | done].
Qed.

Lemma py_index_nat {A} (l : list A) (i : nat) (x : A) :
  l !! i = Some x → py_index l (Z.of_nat i) = Ok x.
Proof.
  intros Hx. pose proof (lookup_lt_Some _ _ _ Hx) as Hlt.
  unfold py_index.
  destruct (Z.ltb_spec (Z.of_nat i) 0) as [?|_]; [lia|].
  destruct (Z.leb_spec 0 (Z.of_nat i)) as [_|?]; [|lia].
  destruct (Z.ltb_spec (Z.of_nat i) (Z.of_nat (length l))) as [_|?]; [|lia].
  simpl. by rewrite Nat2Z.id, Hx.
Qed.

Lemma py_index_nat_oob {A} (l : list A) (i : nat) :
  (length l ≤ i)%nat → py_index l (Z.of_nat i) = Raise IndexError.
Proof.
  intros Hge. unfold py_index.
  destruct (Z.ltb_spec (Z.of_nat i) 0) as [?|_]; [lia|].
  destruct (Z.ltb_spec (Z.of_nat i) (Z.of_nat (length l))) as [?|_]; [lia|].
  by rewrite andb_false_r.
Qed.

Lemma py_index_pred {A} (l : list A) (i : nat) :
  (1 ≤ i)%nat → py_index l (Z.of_nat i - 1) = py_index l (Z.of_nat (i - 1)).
Proof. intros Hi. f_equal. lia. Qed.

Lemma py_index_neg {A} (l : list A) (k : nat) (x : A) :
  (k < length l)%nat → l !! (length l - S k)%nat = Some x →
  py_index l (- Z.of_nat (S k)) = Ok x.
Proof.
  intros Hk Hx. unfold py_index.
  destruct (Z.ltb_spec (- Z.of_nat (S k)) 0) as [_|?]; [|lia].
  destruct (Z.leb_spec 0 (Z.of_nat (length l) + - Z.of_nat (S k))) as [_|?]; [|lia].
  destruct (Z.ltb_spec (Z.of_nat (length l) + - Z.of_nat (S k))
                       (Z.of_nat (length l))) as [_|?]; [|lia].
  simpl.
  replace (Z.to_nat (Z.of_nat (length l) + - Z.of_nat (S k)))
    with (length l - S k)%nat by lia.
  by rewrite Hx.
Qed.

Lemma py_index_last {A} (l : list A) (x : A) :
  last l = Some x → py_index l (-1) = Ok x.
Proof.
  intros Hx. rewrite last_lookup in Hx.
  assert (0 < length l)%nat as Hlen.
  { destruct l; simpl in *; [done | lia]. }
  apply (py_index_neg l 0); [done|].
  by replace (length l - 1)%nat with (pred (length l)) by lia.
Qed.

Lemma py_index_nil {A} (i : Z) : py_index (@nil A) i = Raise IndexError.
Proof.
  unfold py_index.
  destruct (_ && _) eqn:E; [|done].
  apply andb_true_iff in E as [E1 E2].
  apply Z.leb_le in E1. apply Z.ltb_lt in E2. simpl in *.
  destruct (Z.ltb_spec i 0); lia.
Qed.

(** ** Padding *)

Lemma pad_sequence_length {A} (values out : list A) (L : nat) :
  pad_sequence values L = Ok out → length out = L.
Proof.
  unfold pad_sequence. case_decide as HL.
  - intros [= <-]. rewrite length_take. lia.
  - destruct (py_index values (-1)) as [x|e]; simpl; [|done].
    intros [= <-]. rewrite length_app, length_replicate. lia.
Qed.

Lemma pad_sequence_truncate {A} (values : list A) (L : nat) :
  (L ≤ length values)%nat → pad_sequence values L = Ok (take L values).
Proof. intros HL. unfold pad_sequence. by rewrite decide_True. Qed.

Lemma pad_sequence_extend {A} (values : list A) (L : nat) (x : A) :
  (length values < L)%nat → last values = Some x →
  pad_sequence values L = Ok (values ++ replicate (L - length values) x).
Proof.
  intros HL Hx. unfold pad_sequence. rewrite decide_False by lia.
  by rewrite (py_index_last _ _ Hx).
Qed.

Lemma pad_sequence_empty {A} (L : nat) :
  L ≠ 0%nat → pad_sequence (@nil A) L = Raise IndexError.
Proof.
  intros HL. unfold pad_sequence. rewrite decide_False by (simpl; lia).
  by rewrite py_index_nil.
Qed.

(** ** Optical depth *)

Section tau.
Variables rhox abross : list R.

Lemma lookup_nth (l : list R) (i : nat) :
  (i < length l)%nat → l !! i = Some (nth i l 0%R).
Proof.
  intros Hi. destruct (lookup_lt_is_Some_2 l i Hi) as [x Hx].
  by rewrite nth_lookup, Hx.
Qed.

Lemma tau_body_ok (tau : list R) (i : nat) :
  (1 ≤ i)%nat → (i < length rhox)%nat → (i < length abross)%nat →
  length tau = length rhox →
  tau_body rhox abross tau i =
    Ok (<[i := (nth (i - 1) tau 0 +
                (nth i abross 0 + nth (i - 1) abross 0) / 2 *
                (nth i rhox 0 - nth (i - 1) rhox 0))%R]> tau).
Proof.
  intros H1 Hr Ha Ht. unfold tau_body.
  assert (i - 1 < length rhox)%nat as Hr' by lia.
  assert (i - 1 < length abross)%nat as Ha' by lia.
  assert (i - 1 < length tau)%nat as Ht' by lia.
  rewrite !py_index_pred by done.
  rewrite (py_index_nat rhox i _ (lookup_nth _ _ Hr)). simpl.
  rewrite (py_index_nat rhox (i - 1) _ (lookup_nth _ _ Hr')). simpl.
  rewrite (py_index_nat abross i _ (lookup_nth _ _ Ha)). simpl.
  rewrite (py_index_nat abross (i - 1) _ (lookup_nth _ _ Ha')). simpl.
  rewrite (py_index_nat tau (i - 1) _ (lookup_nth _ _ Ht')). simpl.
  unfold py_setitem. by rewrite decide_True by lia.
Qed.

Lemma tau_body_short (tau : list R) (i : nat) :
  (1 ≤ i)%nat → (i < length rhox)%nat → (length abross ≤ i)%nat →
  tau_body rhox abross tau i = Raise IndexError.
Proof.
  intros H1 Hr Ha. unfold tau_body.
  assert (i - 1 < length rhox)%nat as Hr' by lia.
  rewrite !py_index_pred by done.
  rewrite (py_index_nat rhox i _ (lookup_nth _ _ Hr)). simpl.
  rewrite (py_index_nat rhox (i - 1) _ (lookup_nth _ _ Hr')). simpl.
  by rewrite (py_index_nat_oob abross i Ha).
Qed.

(** Loop invariant after the iterations [1..k]. *)
Lemma tau_loop_inv (k : nat) :
  (k ≤ length rhox - 1)%nat → (k ≤ length abross - 1)%nat →
  ∃ tau,
    for_each (tau_body rhox abross) (seq 1 k)
             (replicate (length rhox) 0%R) = Ok tau
    ∧ length tau = length rhox
    ∧ nth 0 tau 0%R = 0%R
    ∧ (∀ i, (1 ≤ i ≤ k)%nat → trapezoid_at rhox abross tau i)
    ∧ (∀ i, (k < i)%nat → nth i tau 0%R = 0%R).
Proof.
  induction k as [|k IH]; intros Hr Ha.
  - exists (replicate (length rhox) 0%R). simpl.
    split; [done|]. split; [by rewrite length_replicate|].
    split; [by destruct (length rhox)|].
    split; [intros i ?; lia|].
    intros i _. rewrite nth_lookup.
    destruct (replicate _ _ !! i) as [x|] eqn:Hx; [|done].
    by apply lookup_replicate in Hx as [-> _].
  - destruct IH as (tau & Hrun & Hlen & H0 & Hrec & Hzero); [lia..|].
    rewrite seq_S, for_each_app, Hrun.
    pose proof (tau_body_ok tau (S k)) as Hb.
    remember (nth (S k - 1) tau 0 +
              (nth (S k) abross 0 + nth (S k - 1) abross 0) / 2 *
              (nth (S k) rhox 0 - nth (S k - 1) rhox 0))%R as v eqn:Hv.
    simpl. rewrite Hb by lia. simpl.
    eexists. split; [done|].
    split; [by rewrite length_insert|].
    assert (∀ j, j ≠ S k → nth j (<[S k := v]> tau) 0%R = nth j tau 0%R)
      as Hne.
    { intros j Hj. by rewrite !nth_lookup, list_lookup_insert_ne. }
    split; [by rewrite Hne|].
    split.
    + intros i Hi. unfold trapezoid_at.
      destruct (decide (i = S k)) as [->|Hik].
      * rewrite (Hne (S k - 1)%nat) by lia.
        rewrite (nth_lookup _ (S k)), list_lookup_insert_eq by lia.
        simpl. by rewrite Hv.
      * rewrite !Hne by lia. apply Hrec. lia.
    + intros i Hi. rewrite Hne by lia. apply Hzero. lia.
Qed.

(** The integration succeeds whenever [abross] is at least as long as
    [rhox], and on sequences of length at most one. *)
Lemma tau_of_ok :
  (length rhox ≤ length abross ∨ length rhox ≤ 1)%nat →
  ∃ tau,
    tau_of rhox abross = Ok tau
    ∧ length tau = length rhox
    ∧ nth 0 tau 0%R = 0%R
    ∧ (∀ i, (1 ≤ i < length rhox)%nat → trapezoid_at rhox abross tau i).
Proof.
  intros Hlen.
  destruct (tau_loop_inv (length rhox - 1)) as (tau & Hrun & Hl & H0 & Hrec & _);
    [lia | lia |].
  exists tau. split; [done|]. split; [done|]. split; [done|].
  intros i Hi. apply Hrec. lia.
Qed.

(** It raises [IndexError] when [abross] is shorter than [rhox] and the
    loop runs at least once. *)
Lemma tau_of_short :
  (2 ≤ length rhox)%nat → (length abross < length rhox)%nat →
  tau_of rhox abross = Raise IndexError.
Proof.
  intros Hn Hk. unfold tau_of.
  set (i0 := (Nat.max 1 (length abross))).
  replace (length rhox - 1)%nat with ((i0 - 1) + S (length rhox - 1 - i0))%nat
    by lia.
  rewrite seq_app, for_each_app.
  destruct (tau_loop_inv (i0 - 1)) as (tau & Hrun & Hl & _); [lia | lia |].
  rewrite Hrun. simpl.
  replace (S (i0 - 1))%nat with i0 by lia.
  by rewrite tau_body_short by lia.
Qed.
End tau.

Lemma calculate_tau_ok (model : AtmModel) :
  (length (m_RHOX model) ≤ length (m_ABROSS model)
   ∨ length (m_RHOX model) ≤ 1)%nat →
  ∃ tau,
    calculate_tau model = Ok (set_TAU tau model)
    ∧ length tau = length (m_RHOX model)
    ∧ nth 0 tau 0%R = 0%R
    ∧ (∀ i, (1 ≤ i < length tau)%nat →
         trapezoid_at (m_RHOX model) (m_ABROSS model) tau i).
Proof.
  intros Hlen.
  destruct (tau_of_ok _ _ Hlen) as (tau & Hrun & Hl & H0 & Hrec).
  exists tau. unfold calculate_tau. rewrite Hrun. simpl.
  split; [done|]. split; [done|]. split; [done|].
  intros i Hi. apply Hrec. lia.
Qed.

Lemma calculate_tau_example (model : AtmModel) :
  m_RHOX model = [0; 1; 2]%R → m_ABROSS model = [2; 4; 6]%R →
  calculate_tau model = Ok (set_TAU [0; 3; 8]%R model).
Proof.
  intros Hr Ha.
  destruct (calculate_tau_ok model) as (tau & Hrun & Hl & H0 & Hrec).
  { rewrite Hr, Ha. simpl. lia. }
  rewrite Hrun. do 2 f_equal.
  rewrite Hr, Ha in *. simpl in Hl.
  destruct tau as [|t0 [|t1 [|t2 [|]]]]; simplify_eq/=.
  pose proof (Hrec 1%nat ltac:(lia)) as H1.
  pose proof (Hrec 2%nat ltac:(lia)) as H2.
  unfold trapezoid_at in H1, H2. simpl in H1, H2.
  assert (t1 = 3%R) as -> by lra.
  by assert (t2 = 8%R) as -> by lra.
Qed.

(** C4: on equal-length [rhox] and [abross] of length at least one,
    [calculate_tau] stores a [tau] of the same length with [tau[0] = 0] and
    [tau[i] = tau[i-1] + (abross[i] + abross[i-1]) / 2 * (rhox[i] - rhox[i-1])]
    for every [i ≥ 1]; for [rhox = [0,1,2]] and [abross = [2,4,6]] it stores
    [[0,3,8]]. *)
Theorem calculate_tau_trapezoid :
  (∀ model : AtmModel,
     length (m_RHOX model) = length (m_ABROSS model) →
     (1 ≤ length (m_RHOX model))%nat →
     ∃ tau,
       calculate_tau model = Ok (set_TAU tau model)
       ∧ length tau = length (m_RHOX model)
       ∧ nth 0 tau 0%R = 0%R
       ∧ (∀ i, (1 ≤ i < length tau)%nat →
            trapezoid_at (m_RHOX model) (m_ABROSS model) tau i))
  ∧ (∀ model : AtmModel,
       m_RHOX model = [0; 1; 2]%R → m_ABROSS model = [2; 4; 6]%R →
       calculate_tau model = Ok (set_TAU [0; 3; 8]%R model)).
Proof.
  split.
  - intros model Hlen _. apply calculate_tau_ok. lia.
  - apply calculate_tau_example.
Qed.

(** The recurrence on the three-layer sample model. *)
Lemma calculate_tau_trapezoid_witness :
  ∃ tau,
    calculate_tau sample_model = Ok (set_TAU tau sample_model)
    ∧ length tau = length (m_RHOX sample_model)
    ∧ nth 0 tau 0%R = 0%R
    ∧ (∀ i, (1 ≤ i < length tau)%nat →
         trapezoid_at (m_RHOX sample_model) (m_ABROSS sample_model) tau i).
Proof.
  apply (proj1 calculate_tau_trapezoid sample_model); simpl; [reflexivity | lia].
Defined.

(** C5, as stated, fails: with [rhox] of length two and [abross] of length
    three the lengths differ, yet the integration returns [[0, 3]]. *)
Lemma calculate_tau_mismatch_counterexample :
  length (m_RHOX long_abross_model) ≠ length (m_ABROSS long_abross_model)
  ∧ calculate_tau long_abross_model = Ok (set_TAU [0; 3]%R long_abross_model).
Proof.
  split; [simpl; lia|].
  destruct (calculate_tau_ok long_abross_model) as (tau & Hrun & Hl & H0 & Hrec).
  { simpl. lia. }
  rewrite Hrun. do 2 f_equal. simpl in Hl.
  destruct tau as [|t0 [|t1 [|]]]; simplify_eq/=.
  pose proof (Hrec 1%nat ltac:(lia)) as H1.
  unfold trapezoid_at in H1. simpl in H1.
  by assert (t1 = 3%R) as -> by lra.
Qed.

(** C5, amended: [calculate_tau] raises exactly when [rhox] has at least two
    entries and [abross] is shorter than [rhox], and then it raises
    [IndexError]; in every other case, among them a longer [abross] and
    empty or one-entry profiles, it stores a [tau] as long as [rhox]. *)
Theorem calculate_tau_failure :
  ∀ model : AtmModel,
    (raises (calculate_tau model) ↔
       (2 ≤ length (m_RHOX model))%nat
       ∧ (length (m_ABROSS model) < length (m_RHOX model))%nat)
    ∧ (raises (calculate_tau model) → calculate_tau model = Raise IndexError)
    ∧ (raises (calculate_tau model) →
         length (m_RHOX model) ≠ length (m_ABROSS model))
    ∧ (¬ raises (calculate_tau model) →
         ∃ tau, calculate_tau model = Ok (set_TAU tau model)
                ∧ length tau = length (m_RHOX model)).
Proof.
  intros model.
  destruct (decide ((2 ≤ length (m_RHOX model))%nat
                    ∧ (length (m_ABROSS model) < length (m_RHOX model))%nat))
    as [[Hn Hk]|Hno].
  - assert (calculate_tau model = Raise IndexError) as Hrun.
    { unfold calculate_tau. by rewrite tau_of_short. }
    assert (raises (calculate_tau model)) as Hr by (by exists IndexError).
    split; [done|]. split; [done|]. split; [intros _; lia|]. by intros [].
  - destruct (calculate_tau_ok model) as (tau & Hrun & Hl & _); [lia|].
    assert (¬ raises (calculate_tau model)) as Hr.
    { intros [e He]. by rewrite Hrun in He. }
    split; [by split|]. split; [done|]. split; [done|]. intros _. eauto.
Qed.

(** Three column densities against a single opacity. *)
Lemma calculate_tau_failure_witness :
  (raises (calculate_tau short_abross_model) ↔
     (2 ≤ length (m_RHOX short_abross_model))%nat
     ∧ (length (m_ABROSS short_abross_model)
        < length (m_RHOX short_abross_model))%nat)
  ∧ (raises (calculate_tau short_abross_model) →
       calculate_tau short_abross_model = Raise IndexError)
  ∧ (raises (calculate_tau short_abross_model) →
       length (m_RHOX short_abross_model)
       ≠ length (m_ABROSS short_abross_model))
  ∧ (¬ raises (calculate_tau short_abross_model) →
       ∃ tau, calculate_tau short_abross_model
              = Ok (set_TAU tau short_abross_model)
              ∧ length tau = length (m_RHOX short_abross_model)).
Proof. apply (calculate_tau_failure short_abross_model). Defined.

(** C10: on equal-length inputs with non-decreasing [rhox] and non-negative
    [abross], the stored [tau] starts at 0 and is non-decreasing. *)
Theorem calculate_tau_monotone :
  ∀ model : AtmModel,
    length (m_RHOX model) = length (m_ABROSS model) →
    (∀ i, (S i < length (m_RHOX model))%nat →
          (nth i (m_RHOX model) 0 <= nth (S i) (m_RHOX model) 0)%R) →
    Forall (λ a, (0 <= a)%R) (m_ABROSS model) →
    ∃ tau,
      calculate_tau model = Ok (set_TAU tau model)
      ∧ length tau = length (m_RHOX model)
      ∧ (∀ t0, head tau = Some t0 → t0 = 0%R)
      ∧ (∀ i, (1 ≤ i < length tau)%nat →
              (nth (i - 1) tau 0 <= nth i tau 0)%R).
Proof.
  intros model Hlen Hmono Hpos.
  destruct (calculate_tau_ok model) as (tau & Hrun & Hl & H0 & Hrec); [lia|].
  exists tau. split; [done|]. split; [done|]. split.
  - intros t0 Ht0. destruct tau; simplify_eq/=. done.
  - intros i Hi. rewrite (Hrec i Hi).
    assert (∀ j, (j < length (m_ABROSS model))%nat →
                 (0 <= nth j (m_ABROSS model) 0)%R) as Hnn.
    { intros j Hj. rewrite Forall_lookup in Hpos.
      apply (Hpos j). by apply lookup_nth. }
    pose proof (Hnn i ltac:(lia)) as Ha.
    pose proof (Hnn (i - 1)%nat ltac:(lia)) as Ha'.
    pose proof (Hmono (i - 1)%nat ltac:(lia)) as Hr.
    replace (S (i - 1)) with i in Hr by lia.
    nra.
Qed.

(** Monotonicity on the three-layer sample model. *)
Lemma calculate_tau_monotone_witness :
  ∃ tau,
    calculate_tau sample_model = Ok (set_TAU tau sample_model)
    ∧ length tau = length (m_RHOX sample_model)
    ∧ (∀ t0, head tau = Some t0 → t0 = 0%R)
    ∧ (∀ i, (1 ≤ i < length tau)%nat → (nth (i - 1) tau 0 <= nth i tau 0)%R).
Proof.
  apply (calculate_tau_monotone sample_model).
  - reflexivity.
  - intros [|[|i]]; simpl; intros Hi; [lra | lra | lia].
  - simpl. repeat constructor; lra.
Defined.

(** C7: for a non-empty input and a target length [L ≥ 1], [pad_sequence]
    returns exactly [L] elements: the first [L] elements of the input when
    it has at least [L], otherwise the input followed by copies of its last
    element; [pad_sequence([1,2,3], 5) = [1,2,3,3,3]] and
    [pad_sequence([1,2,3,4,5,6], 4) = [1,2,3,4]]. *)
Theorem pad_sequence_spec :
  (∀ (A : Type) (values : list A) (L : nat),
     values ≠ [] → (1 ≤ L)%nat →
     ∃ out,
       pad_sequence values L = Ok out
       ∧ length out = L
       ∧ ((L ≤ length values)%nat → out = take L values)
       ∧ ((length values < L)%nat →
            ∃ x, last values = Some x
                 ∧ out = values ++ replicate (L - length values) x))
  ∧ pad_sequence [1; 2; 3]%Z 5 = Ok [1; 2; 3; 3; 3]%Z
  ∧ pad_sequence [1; 2; 3; 4; 5; 6]%Z 4 = Ok [1; 2; 3; 4]%Z.
Proof.
  split; [|split; reflexivity].
  intros A values L Hne HL.
  destruct (decide (L ≤ length values)%nat) as [Hle|Hgt].
  - exists (take L values). split; [by apply pad_sequence_truncate|].
    split; [rewrite length_take; lia|]. split; [done|]. intros ?; lia.
  - destruct (last values) as [x|] eqn:Hx.
    2:{ apply last_None in Hx. done. }
    exists (values ++ replicate (L - length values) x).
    split; [apply pad_sequence_extend; [lia | done]|].
    split; [rewrite length_app, length_replicate; lia|].
    split; [intros ?; lia|]. intros _. by exists x.
Qed.

(** Padding [[1, 2, 3]] to five elements. *)
Lemma pad_sequence_spec_witness :
  ∃ out,
    pad_sequence [1; 2; 3]%Z 5 = Ok out
    ∧ length out = 5%nat
    ∧ ((5 ≤ length [1; 2; 3]%Z)%nat → out = take 5 [1; 2; 3]%Z)
    ∧ ((length [1; 2; 3]%Z < 5)%nat →
         ∃ x, last [1; 2; 3]%Z = Some x
              ∧ out = [1; 2; 3]%Z ++ replicate (5 - length [1; 2; 3]%Z) x).
Proof.
  apply (proj1 pad_sequence_spec Z [1; 2; 3]%Z 5%nat); [discriminate | lia].
Defined.

(** C8: resampling an empty sequence to a non-zero target length raises
    ([IndexError]: there is no last element); nothing is returned. *)
Theorem pad_sequence_empty_raises :
  ∀ (A : Type) (L : nat),
    L ≠ 0%nat →
    pad_sequence (@nil A) L = Raise IndexError
    ∧ ¬ ∃ out, pad_sequence (@nil A) L = Ok out.
Proof.
  intros A L HL. rewrite pad_sequence_empty by done.
  split; [done|]. by intros [out ?].
Qed.

(** Padding the empty profile to 80 depth points. *)
Lemma pad_sequence_empty_raises_witness :
  pad_sequence (@nil R) 80 = Raise IndexError
  ∧ ¬ ∃ out, pad_sequence (@nil R) 80 = Ok out.
Proof. apply (pad_sequence_empty_raises R 80%nat). lia. Defined.

(** ** Tensors *)

(** Induction over tensors, with the hypothesis for every component. *)
Lemma tensor_ind (Q : tensor → Prop) :
  (∀ x, Q (Sc x)) → (∀ ts, Forall Q ts → Q (Tn ts)) → ∀ t, Q t.
Proof.
  intros Hsc Htn. fix IH 1. intros [x|ts]; [apply Hsc|].
  apply Htn. induction ts as [|c cs IHcs]; constructor; [apply IH | apply IHcs].
Qed.

Lemma mapM_ok {A B} (f : A → result B) (g : A → B) (l : list A) :
  Forall (λ x, f x = Ok (g x)) l → mapM f l = Ok (g <$> l).
Proof.
  induction 1 as [|x l Hx _ IH]; simpl; [done|].
  by rewrite Hx; simpl; rewrite IH.
Qed.

Lemma mapM_length {A B} (f : A → result B) (l : list A) (k : list B) :
  mapM f l = Ok k → length k = length l.
Proof.
  revert k. induction l as [|x l IH]; intros k; simpl.
  - by intros [= <-].
  - destruct (f x) as [y|]; simpl; [|done].
    destruct (mapM f l) as [ys|]; simpl; [|done].
    intros [= <-]. simpl. f_equal. by apply IH.
Qed.

Lemma mapM_Forall {A B} (f : A → result B) (Q : B → Prop) (l : list A) (k : list B) :
  (∀ x y, f x = Ok y → Q y) → mapM f l = Ok k → Forall Q k.
Proof.
  intros Hf. revert k. induction l as [|x l IH]; intros k; simpl.
  - intros [= <-]. constructor.
  - destruct (f x) as [y|] eqn:Hy; simpl; [|done].
    destruct (mapM f l) as [ys|]; simpl; [|done].
    intros [= <-]. constructor; [by eapply Hf | by apply IH].
Qed.

Lemma tdim_0 (t : tensor) : tdim t = 0%nat → ∃ x, t = Sc x.
Proof. destruct t as [x|[|c cs]]; simpl; [by exists x | done | done]. Qed.

Lemma tbin_scalar (f : xreal → xreal → xreal) (a : tensor) (y : xreal) :
  tbin f a (Sc y) = Ok (tmap (λ x, f x y) a).
Proof.
  unfold tbin. rewrite decide_True by (simpl; lia).
  induction a as [x|ts IH] using tensor_ind; simpl; [done|].
  rewrite decide_False by (destruct ts; simpl; lia).
  rewrite (mapM_ok _ (tmap (λ x, f x y))); [done|].
  eapply Forall_impl; [exact IH|]. intros c Hc.
  destruct c as [x|cs]; simpl in *; [done|].
  by rewrite decide_False in * by (destruct cs; simpl; lia).
Qed.

Lemma tflat_tmap (f : xreal → xreal) (t : tensor) :
  tflat (tmap f t) = f <$> tflat t.
Proof.
  induction t as [x|ts IH] using tensor_ind; simpl; [done|].
  induction IH as [|c cs Hc _ IHcs]; simpl; [done|].
  by rewrite fmap_app, Hc, IHcs.
Qed.

Lemma tshape_tmap (f : xreal → xreal) (t : tensor) :
  tshape (tmap f t) = tshape t.
Proof.
  induction t as [x|ts IH] using tensor_ind; simpl; [done|].
  destruct IH as [|c cs Hc _]; simpl; [done|].
  by rewrite length_map, Hc.
Qed.

Lemma tdim_tmap (f : xreal → xreal) (t : tensor) : tdim (tmap f t) = tdim t.
Proof.
  induction t as [x|ts IH] using tensor_ind; simpl; [done|].
  destruct IH as [|c cs Hc _]; simpl; [done|]. by rewrite Hc.
Qed.

Lemma tmap_tmap (f g : xreal → xreal) (t : tensor) :
  tmap g (tmap f t) = tmap (g ∘ f) t.
Proof.
  induction t as [x|ts IH] using tensor_ind; simpl; [done|].
  f_equal. rewrite <- list_fmap_compose.
  apply Forall_fmap_ext_1. eapply Forall_impl; [exact IH|]. done.
Qed.

Lemma tmap_ext_in (f g : xreal → xreal) (t : tensor) :
  (∀ x, x ∈ tflat t → f x = g x) → tmap f t = tmap g t.
Proof.
  induction t as [x|ts IH] using tensor_ind; simpl; intros Hfg.
  - f_equal. apply Hfg. set_solver.
  - f_equal. apply Forall_fmap_ext_1. rewrite Forall_forall in IH |- *.
    intros c Hc. apply IH; [done|]. intros x Hx. apply Hfg.
    apply list_elem_of_In, in_flat_map. exists c.
    by rewrite <- !list_elem_of_In.
Qed.

Lemma tmap_id_in (f : xreal → xreal) (t : tensor) :
  (∀ x, x ∈ tflat t → f x = x) → tmap f t = t.
Proof.
  intros Hf. rewrite (tmap_ext_in f (λ x, x)) by done. clear Hf.
  induction t as [x|ts IH] using tensor_ind; simpl; [done|].
  f_equal. induction IH as [|c cs Hc _ IHcs]; simpl; [done|].
  by rewrite Hc, IHcs.
Qed.

(** ** Arithmetic on elements *)

Lemma Rsign_pos (a : R) : (0 < a)%R → Rsign a = Gt.
Proof. intros Ha. unfold Rsign. destruct (total_order_T 0 a) as [[?|?]|?]; [done|lra|lra]. Qed.

Lemma Rsign_neg (a : R) : (a < 0)%R → Rsign a = Lt.
Proof. intros Ha. unfold Rsign. destruct (total_order_T 0 a) as [[?|?]|?]; [lra|lra|done]. Qed.

Lemma Rsign_zero : Rsign 0 = Eq.
Proof. unfold Rsign. destruct (total_order_T 0 0) as [[?|?]|?]; [lra|done|lra]. Qed.

Lemma eps_pos : (0 < eps)%R.
Proof. unfold eps. lra. Qed.

Lemma ln_10_pos : (0 < ln 10)%R.
Proof. rewrite <- ln_1. apply ln_increasing; lra. Qed.


Lemma xlog10_neg (a : R) : (a < 0)%R → xlog10 (Fin a) = NaN.
Proof. intros Ha. simpl. by rewrite Rsign_neg. Qed.

Lemma xlog10_Fin_inv (a r : R) : xlog10 (Fin a) = Fin r → (0 < a)%R.
Proof.
  simpl. unfold Rsign. by destruct (total_order_T 0 a) as [[?|?]|?].
Qed.

Lemma pow10_log10 (a : R) : (0 < a)%R → exp (ln a / ln 10 * ln 10) = a.
Proof.
  intros Ha. pose proof ln_10_pos.
  replace (ln a / ln 10 * ln 10)%R with (ln a) by (field; lra).
  by apply exp_ln.
Qed.

Lemma xdiv_fin (a b : R) : b ≠ 0%R → xdiv (Fin a) (Fin b) = Fin (a / b).
Proof. intros Hb. simpl. by destruct (Req_dec_T b 0). Qed.

Lemma transform_value_fin (lg : bool) (v : R) :
  (lg = true → (- eps < v)%R) →
  transform_value lg (Fin v) =
    Fin (if lg then ln (v + eps) / ln 10 else v)%R.
Proof.
  intros Hv. destruct lg; simpl; [|done].
  rewrite Rsign_pos; [done|]. specialize (Hv eq_refl). lra.
Qed.

Lemma normalize_value_fin (lg : bool) (mn mx : R) (v : xreal) (x : R) :
  mn ≠ mx → transform_value lg v = Fin x →
  normalize_value lg (Fin mn) (Fin mx) v = Fin (2 * (x - mn) / (mx - mn) - 1).
Proof.
  intros Hne Hx. unfold normalize_value. rewrite Hx.
  cbn [xsub xmul]. rewrite xdiv_fin by lra. done.
Qed.

Lemma denormalize_normalize_value (lg : bool) (mn mx v : R) :
  mn ≠ mx → (lg = true → (- eps < v)%R) →
  denormalize_value lg (Fin mn) (Fin mx)
    (normalize_value lg (Fin mn) (Fin mx) (Fin v)) = Fin v.
Proof.
  intros Hne Hv.
  rewrite (normalize_value_fin lg mn mx _ _ Hne (transform_value_fin lg v Hv)).
  unfold denormalize_value. cbn [xadd xsub xmul].
  rewrite xdiv_fin by lra. cbn [xadd xsub xmul].
  pose proof ln_10_pos as Hln.
  destruct lg; cbn [xpow10 xsub]; f_equal.
  - replace ((2 * (ln (v + eps) / ln 10 - mn) / (mx - mn) - 1 + 1) / 2 *
             (mx - mn) + mn)%R with (ln (v + eps) / ln 10)%R by (field; lra).
    rewrite pow10_log10; [lra|]. specialize (Hv eq_refl). lra.
  - field. lra.
Qed.

(** ** Reductions *)

Lemma foldl_xmin_NaN (xs : list xreal) : foldl xmin NaN xs = NaN.
Proof. induction xs as [|y ys IH]; simpl; [done|]. by destruct y. Qed.

Lemma foldl_xmax_NaN (xs : list xreal) : foldl xmax NaN xs = NaN.
Proof. induction xs as [|y ys IH]; simpl; [done|]. by destruct y. Qed.

Lemma foldl_xmin_NInf (xs : list xreal) (a : R) : foldl xmin NInf xs ≠ Fin a.
Proof.
  induction xs as [|y ys IH]; simpl; [done|].
  destruct y; simpl; try done. by rewrite foldl_xmin_NaN.
Qed.

Lemma foldl_xmax_PInf (xs : list xreal) (a : R) : foldl xmax PInf xs ≠ Fin a.
Proof.
  induction xs as [|y ys IH]; simpl; [done|].
  destruct y; simpl; try done. by rewrite foldl_xmax_NaN.
Qed.

(** A finite minimum is attained, and bounds every element that is not
    plus infinity. *)
Lemma foldl_xmin_fin (xs : list xreal) (x : xreal) (a : R) :
  foldl xmin x xs = Fin a →
  Fin a ∈ x :: xs
  ∧ ∀ y, y ∈ x :: xs → y = PInf ∨ ∃ r, y = Fin r ∧ (a <= r)%R.
Proof.
  revert x. induction xs as [|z zs IH]; intros x; simpl.
  - intros ->. split; [apply elem_of_cons; by left|].
    intros y Hy. apply list_elem_of_singleton in Hy as ->.
    right. exists a. split; [done | lra].
  - intros Hfold. destruct (IH _ Hfold) as [Hin Hall].
    assert (xmin x z = PInf ∨ ∃ r, xmin x z = Fin r ∧ (a <= r)%R) as Hxz.
    { apply Hall, elem_of_cons. by left. }
    assert (∀ y, y ∈ zs → y = PInf ∨ ∃ r, y = Fin r ∧ (a <= r)%R) as Hzs.
    { intros y Hy. apply Hall, elem_of_cons. by right. }
    split.
    + rewrite !elem_of_cons. apply elem_of_cons in Hin as [Heq|Hin]; [|eauto].
      destruct x as [p| | |], z as [q| | |]; simplify_eq/=; eauto.
      unfold Rmin. destruct (Rle_dec p q); eauto.
    + intros y Hy.
      apply elem_of_cons in Hy as [->|Hy];
        [|apply elem_of_cons in Hy as [->|Hy]; [|by apply Hzs]].
      * destruct x as [p| | |], z as [q| | |]; simplify_eq/=;
          destruct Hxz as [?|(r & ? & ?)]; simplify_eq; eauto.
        right. exists p. split; [done|].
        pose proof (Rmin_l p q). lra.
      * destruct x as [p| | |], z as [q| | |]; simplify_eq/=;
          destruct Hxz as [?|(r & ? & ?)]; simplify_eq; eauto.
        right. exists q. split; [done|].
        pose proof (Rmin_r p q). lra.
Qed.

(** The same for a finite maximum. *)
Lemma foldl_xmax_fin (xs : list xreal) (x : xreal) (a : R) :
  foldl xmax x xs = Fin a →
  Fin a ∈ x :: xs
  ∧ ∀ y, y ∈ x :: xs → y = NInf ∨ ∃ r, y = Fin r ∧ (r <= a)%R.
Proof.
  revert x. induction xs as [|z zs IH]; intros x; simpl.
  - intros ->. split; [apply elem_of_cons; by left|].
    intros y Hy. apply list_elem_of_singleton in Hy as ->.
    right. exists a. split; [done | lra].
  - intros Hfold. destruct (IH _ Hfold) as [Hin Hall].
    assert (xmax x z = NInf ∨ ∃ r, xmax x z = Fin r ∧ (r <= a)%R) as Hxz.
    { apply Hall, elem_of_cons. by left. }
    assert (∀ y, y ∈ zs → y = NInf ∨ ∃ r, y = Fin r ∧ (r <= a)%R) as Hzs.
    { intros y Hy. apply Hall, elem_of_cons. by right. }
    split.
    + rewrite !elem_of_cons. apply elem_of_cons in Hin as [Heq|Hin]; [|eauto].
      destruct x as [p| | |], z as [q| | |]; simplify_eq/=; eauto.
      unfold Rmax. destruct (Rle_dec p q); eauto.
    + intros y Hy.
      apply elem_of_cons in Hy as [->|Hy];
        [|apply elem_of_cons in Hy as [->|Hy]; [|by apply Hzs]].
      * destruct x as [p| | |], z as [q| | |]; simplify_eq/=;
          destruct Hxz as [?|(r & ? & ?)]; simplify_eq; eauto.
        right. exists p. split; [done|].
        pose proof (Rmax_l p q). lra.
      * destruct x as [p| | |], z as [q| | |]; simplify_eq/=;
          destruct Hxz as [?|(r & ? & ?)]; simplify_eq; eauto.
        right. exists q. split; [done|].
        pose proof (Rmax_r p q). lra.
Qed.

(** When both reductions are finite, every element is finite and lies
    between them. *)
Lemma fold_bounds (xs : list xreal) (x : xreal) (a b : R) :
  foldl xmin x xs = Fin a → foldl xmax x xs = Fin b →
  Fin a ∈ x :: xs ∧ Fin b ∈ x :: xs
  ∧ ∀ y, y ∈ x :: xs → ∃ r, y = Fin r ∧ (a <= r <= b)%R.
Proof.
  intros Hmin Hmax.
  destruct (foldl_xmin_fin _ _ _ Hmin) as [Ha Hlo].
  destruct (foldl_xmax_fin _ _ _ Hmax) as [Hb Hhi].
  split; [done|]. split; [done|].
  intros y Hy.
  destruct (Hlo y Hy) as [->|(r & -> & Hr)];
    destruct (Hhi _ Hy) as [?|(r' & ? & Hr')]; simplify_eq.
  exists r'. split; [done | lra].
Qed.

(** ** Statistics and the transform *)

Lemma normalize_scalar (nps : gmap string NormParams) (name : string)
    (p : NormParams) (mn mx : xreal) (t : tensor) :
  nps !! name = Some p → np_min p = Sc mn → np_max p = Sc mx →
  normalize nps name t = Ok (tmap (normalize_value (log_scale p) mn mx) t).
Proof.
  intros Hp Hmn Hmx. unfold normalize, map_get. rewrite Hp. simpl.
  rewrite Hmn, Hmx, !tbin_scalar. simpl.
  rewrite !tbin_scalar. simpl. f_equal.
  unfold normalize_value, transform_value, log_transform.
  destruct (log_scale p); by rewrite !tmap_tmap.
Qed.

Lemma denormalize_scalar (nps : gmap string NormParams) (name : string)
    (p : NormParams) (mn mx : xreal) (t : tensor) :
  nps !! name = Some p → np_min p = Sc mn → np_max p = Sc mx →
  denormalize nps name t = Ok (tmap (denormalize_value (log_scale p) mn mx) t).
Proof.
  intros Hp Hmn Hmx. unfold denormalize, map_get. rewrite Hp. simpl.
  rewrite Hmn, Hmx, !tbin_scalar. simpl.
  rewrite !tbin_scalar. simpl. rewrite !tbin_scalar. simpl. f_equal.
  unfold denormalize_value.
  destruct (log_scale p); by rewrite !tmap_tmap.
Qed.

(** On a tensor of at most two dimensions the statistics are the two
    reductions over all elements. *)
Lemma fit_params_flat (name : string) (data : tensor) (p : NormParams) :
  (tdim data ≤ 2)%nat → fit_params name data = Ok p →
  ∃ x xs,
    tflat data = x :: xs
    ∧ p = mkNormParams
            (Sc (foldl xmin (transform_value (in_log_params name) x)
                       (transform_value (in_log_params name) <$> xs)))
            (Sc (foldl xmax (transform_value (in_log_params name) x)
                       (transform_value (in_log_params name) <$> xs)))
            (in_log_params name).
Proof.
  intros Hdim. unfold fit_params. cbv zeta.
  assert (tdim (if in_log_params name then log_transform data else data)
          = tdim data) as Hd.
  { destruct (in_log_params name); [|done].
    unfold log_transform. by rewrite !tdim_tmap. }
  rewrite decide_False by lia.
  assert (tflat (if in_log_params name then log_transform data else data)
          = transform_value (in_log_params name) <$> tflat data) as Hf.
  { unfold transform_value, log_transform.
    destruct (in_log_params name).
    - by rewrite !tflat_tmap, <- list_fmap_compose.
    - by rewrite list_fmap_id. }
  unfold treduce. rewrite Hf.
  destruct (tflat data) as [|x xs]; simpl; [done|].
  intros [= <-]. by exists x, xs.
Qed.

Lemma fmap_Tn_Ok (r : result (list tensor)) (e : tensor) :
  Tn <$> r = Ok e → ∃ es, e = Tn es.
Proof. destruct r as [es|]; simpl; [|done]. intros [= <-]. by exists es. Qed.

Lemma tzip_Tn (f : xreal → xreal → xreal) (ts : list tensor) (b e : tensor) :
  tzip f (Tn ts) b = Ok e → ∃ es, e = Tn es.
Proof.
  destruct b as [y|us]; simpl; [done|].
  destruct ts as [|t [|t' ts']]; [destruct us as [|u [|u' us']]|..];
    try apply fmap_Tn_Ok.
  destruct us as [|u [|u' us']]; apply fmap_Tn_Ok.
Qed.

Lemma for_each_tzip_Tn (f : xreal → xreal → xreal) (cs ts : list tensor)
    (m : tensor) :
  for_each (tzip f) cs (Tn ts) = Ok m → ∃ es, m = Tn es.
Proof.
  revert ts. induction cs as [|d ds IH]; intros ts; cbn [for_each].
  - intros [= <-]. by exists ts.
  - destruct (tzip f (Tn ts) d) as [e|] eqn:He; [|done].
    apply tzip_Tn in He as [es ->]. apply IH.
Qed.

(** Scalar statistics arise only from tensors of at most two dimensions. *)
Lemma fit_params_scalar_dim (name : string) (data : tensor) (p : NormParams)
    (mn : xreal) :
  fit_params name data = Ok p → np_min p = Sc mn → (tdim data ≤ 2)%nat.
Proof.
  unfold fit_params. cbv zeta.
  set (td := if in_log_params name then log_transform data else data).
  assert (tdim td = tdim data) as Hd.
  { unfold td. destruct (in_log_params name); [|done].
    unfold log_transform. by rewrite !tdim_tmap. }
  case_decide as Hdim; [|lia].
  destruct td as [x|[|[y|ts] cs]] eqn:Htd; simpl in Hdim; [lia..|].
  intros Hfit Hmn. exfalso.
  unfold treduce0 in Hfit.
  destruct (for_each (tzip xmin) cs (Tn ts)) as [m|] eqn:Hm;
    simpl in Hfit; [|done].
  destruct (for_each (tzip xmax) cs (Tn ts)) as [m'|]; simpl in Hfit; [|done].
  simplify_eq/=. by apply for_each_tzip_Tn in Hm as [es Hes].
Qed.

(** Every entry of the bundle is fitted, and stored under its name. *)
Lemma setup_normalization_lookup (original : list (string * tensor))
    (nps : gmap string NormParams) (name : string) (data : tensor) :
  setup_normalization original = Ok nps → NoDup (original.*1) →
  (name, data) ∈ original →
  ∃ p, fit_params name data = Ok p ∧ nps !! name = Some p.
Proof.
  unfold setup_normalization. generalize (∅ : gmap string NormParams).
  induction original as [|[k d] rest IH]; intros acc Hrun Hnd Hin.
  { by apply elem_of_nil in Hin. }
  cbn [for_each] in Hrun.
  destruct (fit_params k d) as [q|] eqn:Hq; [|done]. simpl in Hrun.
  apply NoDup_cons in Hnd as [Hk Hnd].
  apply elem_of_cons in Hin as [[= -> ->]|Hin]; [|by eapply IH].
  exists q. split; [done|].
  clear IH Hq Hnd. revert acc Hrun.
  induction rest as [|[k' d'] rest IH]; intros acc Hrun.
  - simpl in Hrun. simplify_eq. by rewrite lookup_insert_eq.
  - cbn [for_each] in Hrun.
    destruct (fit_params k' d') as [q'|]; [|done]. simpl in Hrun.
    simpl in Hk. apply not_elem_of_cons in Hk as [Hkk' Hk].
    rewrite insert_insert_ne in Hrun by done. by eapply IH.
Qed.

Lemma scaled_bounds (mn mx x : R) :
  mn ≠ mx → (mn <= x <= mx)%R →
  (-1 <= 2 * (x - mn) / (mx - mn) - 1 <= 1)%R
  ∧ (x = mn → 2 * (x - mn) / (mx - mn) - 1 = -1)%R
  ∧ (x = mx → 2 * (x - mn) / (mx - mn) - 1 = 1)%R.
Proof.
  intros Hne Hx.
  assert (0 < mx - mn)%R as Hd by lra.
  pose proof (Rinv_0_lt_compat _ Hd) as Hi.
  assert ((mx - mn) * / (mx - mn) = 1)%R as Hinv by (field; lra).
  unfold Rdiv. set (i := (/ (mx - mn))%R) in *.
  split; [split; nra|].
  split; intros ->; [|nra].
  replace (mn - mn)%R with 0%R by lra. lra.
Qed.

Lemma sample_T_reductions :
  setup_normalization [("T"%string, sample_T)]
  = Ok {[ "T"%string := mkNormParams (Sc (Fin 1)) (Sc (Fin 5)) false ]}
  ∧ treduce0 xmin sample_T = Ok (T1 [Fin 1; Fin 2])
  ∧ treduce0 xmax sample_T = Ok (T1 [Fin 3; Fin 5]).
Proof.
  assert (Rmin 1 5 = 1 ∧ Rmin 1 3 = 1 ∧ Rmin 1 2 = 1 ∧ Rmin 5 2 = 2)%R
    as (Ha & Hb & Hc & Hd).
  { unfold Rmin. repeat destruct (Rle_dec _ _); lra. }
  assert (Rmax 1 5 = 5 ∧ Rmax 5 3 = 5 ∧ Rmax 5 2 = 5 ∧ Rmax 1 3 = 3)%R
    as (Ha' & Hb' & Hc' & Hd').
  { unfold Rmax. repeat destruct (Rle_dec _ _); lra. }
  split.
  - unfold setup_normalization, fit_params, treduce. simpl.
    by rewrite Ha, Hb, Hc, Ha', Hb', Hc', insert_empty.
  - unfold treduce0. simpl. by rewrite Hb, Hd, Hd', Hc'.
Qed.

(** C1, as stated, fails: a sequence feature of shape (2, 2) receives the
    0-dim bounds 1 and 5 taken over all four entries, where reduction over
    the sample dimension only would give the vectors [1, 2] and [3, 5]. *)
Lemma setup_normalization_per_depth_counterexample :
  tshape sample_T = [2; 2]%nat
  ∧ setup_normalization [("T"%string, sample_T)]
    = Ok {[ "T"%string := mkNormParams (Sc (Fin 1)) (Sc (Fin 5)) false ]}
  ∧ tshape (Sc (Fin 1)) = []
  ∧ tshape (Sc (Fin 5)) = []
  ∧ treduce0 xmin sample_T = Ok (T1 [Fin 1; Fin 2])
  ∧ treduce0 xmax sample_T = Ok (T1 [Fin 3; Fin 5]).
Proof.
  destruct sample_T_reductions as (Hfit & Hmin & Hmax).
  by repeat split.
Qed.

(** C1, amended: for a feature of the bundle stored as a tensor of at most
    two dimensions, as the (N, 1) and (N, depth_points) tensors are, the
    statistics are one 0-dim minimum and one 0-dim maximum over all entries
    of the transformed tensor, sample and depth dimensions together: when
    finite, each is attained by an entry and they bound every entry.  Only a
    tensor of more than two dimensions is reduced along its first axis
    alone. *)
Theorem setup_normalization_global_bounds :
  ∀ (original : list (string * tensor)) (nps : gmap string NormParams)
    (name : string) (data : tensor),
    setup_normalization original = Ok nps →
    NoDup (original.*1) →
    (name, data) ∈ original →
    ((tdim data ≤ 2)%nat →
       ∃ mn mx,
         nps !! name = Some (mkNormParams (Sc mn) (Sc mx) (in_log_params name))
         ∧ tshape (Sc mn) = [] ∧ tshape (Sc mx) = []
         ∧ ∀ a b, mn = Fin a → mx = Fin b →
             Fin a ∈ transform_value (in_log_params name) <$> tflat data
             ∧ Fin b ∈ transform_value (in_log_params name) <$> tflat data
             ∧ ∀ y, y ∈ transform_value (in_log_params name) <$> tflat data →
                    ∃ r, y = Fin r ∧ (a <= r <= b)%R)
    ∧ ((2 < tdim data)%nat →
         ∃ p, nps !! name = Some p
              ∧ treduce0 xmin (tmap (transform_value (in_log_params name)) data)
                = Ok (np_min p)
              ∧ treduce0 xmax (tmap (transform_value (in_log_params name)) data)
                = Ok (np_max p)).
Proof.
  intros original nps name data Hrun Hnd Hin.
  destruct (setup_normalization_lookup _ _ _ _ Hrun Hnd Hin) as (p & Hfit & Hp).
  split; intros Hdim.
  - destruct (fit_params_flat _ _ _ Hdim Hfit) as (x & xs & Hflat & ->).
    eexists _, _. split; [done|]. split; [done|]. split; [done|].
    intros a b Ha Hb. rewrite Hflat, fmap_cons.
    by apply fold_bounds.
  - exists p. split; [done|].
    unfold fit_params in Hfit. cbv zeta in Hfit.
    assert ((if in_log_params name then log_transform data else data)
            = tmap (transform_value (in_log_params name)) data) as Htr.
    { unfold transform_value, log_transform.
      destruct (in_log_params name).
      - by rewrite tmap_tmap.
      - symmetry. by apply tmap_id_in. }
    rewrite Htr in Hfit.
    rewrite decide_True in Hfit by (by rewrite tdim_tmap).
    destruct (treduce0 xmin _) as [mn|]; simpl in Hfit; [|done].
    destruct (treduce0 xmax _) as [mx|]; simpl in Hfit; [|done].
    by simplify_eq/=.
Qed.

(** The bounds of the (2, 2) sample feature are the 0-dim 1 and 5. *)
Lemma setup_normalization_global_bounds_witness :
  ∃ mn mx,
    ({[ "T"%string := mkNormParams (Sc (Fin 1)) (Sc (Fin 5)) false ]}
       : gmap string NormParams) !! "T"%string
    = Some (mkNormParams (Sc mn) (Sc mx) (in_log_params "T"))
    ∧ tshape (Sc mn) = [] ∧ tshape (Sc mx) = []
    ∧ ∀ a b, mn = Fin a → mx = Fin b →
        Fin a ∈ transform_value (in_log_params "T") <$> tflat sample_T
        ∧ Fin b ∈ transform_value (in_log_params "T") <$> tflat sample_T
        ∧ ∀ y, y ∈ transform_value (in_log_params "T") <$> tflat sample_T →
               ∃ r, y = Fin r ∧ (a <= r <= b)%R.
Proof.
  apply (proj1 (setup_normalization_global_bounds
                  [("T"%string, sample_T)] _ "T"%string sample_T
                  (proj1 sample_T_reductions)
                  ltac:(simpl; repeat constructor; apply not_elem_of_nil)
                  ltac:(apply list_elem_of_singleton; reflexivity))).
  simpl. lia.
Defined.




(** C9, as stated, fails when a fitted bound is infinite: for a log-scaled
    feature fitted on the values [-1e-30] and 1000 the minimum is minus
    infinity and the maximum is finite, so max ≠ min, yet [normalize] maps
    the fitted value 1000 to NaN. *)
Lemma normalize_infinite_bound_counterexample :
  ∃ nps p b,
    setup_normalization [("teff"%string, sample_cancelling)] = Ok nps
    ∧ nps !! "teff"%string = Some p
    ∧ np_min p = Sc NInf ∧ np_max p = Sc (Fin b)
    ∧ np_max p ≠ np_min p
    ∧ Fin 1000 ∈ tflat sample_cancelling
    ∧ normalize nps "teff" (Sc (Fin 1000)) = Ok (Sc NaN).
Proof.
  pose proof eps_pos as He.
  set (b := (ln (1000 + eps) / ln 10)%R).
  set (p := mkNormParams (Sc NInf) (Sc (Fin b)) true).
  exists {[ "teff"%string := p ]}, p, b.
  split.
  { unfold setup_normalization, fit_params, treduce. simpl.
    replace (- eps + eps)%R with 0%R by lra.
    rewrite Rsign_zero, Rsign_pos by lra. simpl. fold b.
    by rewrite insert_empty. }
  assert (({[ "teff"%string := p ]} : gmap string NormParams) !! "teff"%string
          = Some p) as Hp by apply lookup_singleton_eq.
  split; [done|]. split; [done|]. split; [done|]. split; [done|].
  split.
  - simpl. rewrite !elem_of_cons. tauto.
  - rewrite (normalize_scalar _ _ p NInf (Fin b)) by done.
    unfold normalize_value. simpl.
    rewrite Rsign_pos by lra. simpl. by rewrite Rsign_pos by lra.
Qed.

(** C9, amended: for a feature whose fitted bounds are finite with
    max ≠ min, [normalize] maps every value used to fit the statistics into
    [-1, 1]; a value attaining the fitted minimum maps to -1 and one
    attaining the fitted maximum to +1, and both are attained. *)
Theorem normalize_fitted_range :
  ∀ (original : list (string * tensor)) (nps : gmap string NormParams)
    (name : string) (data : tensor) (p : NormParams) (mn mx : R),
    setup_normalization original = Ok nps →
    NoDup (original.*1) →
    (name, data) ∈ original →
    nps !! name = Some p →
    np_min p = Sc (Fin mn) → np_max p = Sc (Fin mx) → mn ≠ mx →
    (∀ v, v ∈ tflat data →
       ∃ x y,
         transform_value (log_scale p) v = Fin x
         ∧ normalize nps name (Sc v) = Ok (Sc (Fin y))
         ∧ (-1 <= y <= 1)%R
         ∧ (x = mn → y = (-1)%R)
         ∧ (x = mx → y = 1%R))
    ∧ (∃ out,
         normalize nps name data = Ok out
         ∧ tshape out = tshape data
         ∧ Forall (λ y, ∃ r, y = Fin r ∧ (-1 <= r <= 1)%R) (tflat out)
         ∧ Fin (-1) ∈ tflat out
         ∧ Fin 1 ∈ tflat out).
Proof.
  intros original nps name data p mn mx Hrun Hnd Hin Hp Hmn Hmx Hne.
  destruct (setup_normalization_lookup _ _ _ _ Hrun Hnd Hin) as (p' & Hfit & Hp').
  assert (p' = p) as -> by congruence.
  pose proof (fit_params_scalar_dim _ _ _ _ Hfit Hmn) as Hdim.
  destruct (fit_params_flat _ _ _ Hdim Hfit) as (x0 & xs & Hflat & Hpeq).
  assert (log_scale p = in_log_params name) as Hlg by (by rewrite Hpeq).
  assert (foldl xmin (transform_value (log_scale p) x0)
                (transform_value (log_scale p) <$> xs) = Fin mn) as Hmin.
  { rewrite Hpeq in Hmn. simpl in Hmn. rewrite Hlg. congruence. }
  assert (foldl xmax (transform_value (log_scale p) x0)
                (transform_value (log_scale p) <$> xs) = Fin mx) as Hmax.
  { rewrite Hpeq in Hmx. simpl in Hmx. rewrite Hlg. congruence. }
  destruct (fold_bounds _ _ _ _ Hmin Hmax) as (Hamn & Hamx & Hall).
  rewrite <- fmap_cons, <- Hflat in Hamn, Hamx, Hall.
  assert (∀ v, v ∈ tflat data →
            ∃ x, transform_value (log_scale p) v = Fin x
                 ∧ normalize_value (log_scale p) (Fin mn) (Fin mx) v
                   = Fin (2 * (x - mn) / (mx - mn) - 1)
                 ∧ (mn <= x <= mx)%R) as Hval.
  { intros v Hv.
    destruct (Hall (transform_value (log_scale p) v)) as (x & Hx & Hbx).
    { by apply list_elem_of_fmap_2. }
    exists x. split; [done|]. split; [|done].
    by apply normalize_value_fin. }
  split.
  - intros v Hv. destruct (Hval v Hv) as (x & Hx & Hn & Hbx).
    destruct (scaled_bounds mn mx x Hne Hbx) as (Hb & Hlo & Hhi).
    exists x, (2 * (x - mn) / (mx - mn) - 1)%R.
    split; [done|]. split; [|done].
    rewrite (normalize_scalar _ _ p (Fin mn) (Fin mx)) by done.
    simpl. by rewrite Hn.
  - eexists. split; [by apply (normalize_scalar _ _ p (Fin mn) (Fin mx))|].
    split; [by apply tshape_tmap|].
    rewrite tflat_tmap. split; [|split].
    + apply Forall_fmap, Forall_forall. intros v Hv. simpl.
      destruct (Hval v Hv) as (x & Hx & Hn & Hbx).
      destruct (scaled_bounds mn mx x Hne Hbx) as (Hb & _).
      rewrite Hn. eauto.
    + apply list_elem_of_fmap in Hamn as (v & Hv & Hvin).
      apply list_elem_of_fmap. exists v. split; [|done].
      destruct (Hval v Hvin) as (x & Hx & Hn & Hbx).
      assert (x = mn) as -> by congruence.
      rewrite Hn. f_equal.
      by destruct (scaled_bounds mn mx mn Hne Hbx) as (_ & -> & _).
    + apply list_elem_of_fmap in Hamx as (v & Hv & Hvin).
      apply list_elem_of_fmap. exists v. split; [|done].
      destruct (Hval v Hvin) as (x & Hx & Hn & Hbx).
      assert (x = mx) as -> by congruence.
      rewrite Hn. f_equal.
      by destruct (scaled_bounds mn mx mx Hne Hbx) as (_ & _ & ->).
Qed.

(** The (2, 2) sample feature, fitted with bounds 1 and 5. *)
Lemma normalize_fitted_range_witness :
  (∀ v, v ∈ tflat sample_T →
     ∃ x y,
       transform_value false v = Fin x
       ∧ normalize {[ "T"%string := mkNormParams (Sc (Fin 1)) (Sc (Fin 5)) false ]}
                   "T" (Sc v) = Ok (Sc (Fin y))
       ∧ (-1 <= y <= 1)%R
       ∧ (x = 1%R → y = (-1)%R)
       ∧ (x = 5%R → y = 1%R))
  ∧ (∃ out,
       normalize {[ "T"%string := mkNormParams (Sc (Fin 1)) (Sc (Fin 5)) false ]}
                 "T" sample_T = Ok out
       ∧ tshape out = tshape sample_T
       ∧ Forall (λ y, ∃ r, y = Fin r ∧ (-1 <= r <= 1)%R) (tflat out)
       ∧ Fin (-1) ∈ tflat out
       ∧ Fin 1 ∈ tflat out).
Proof.
  apply (normalize_fitted_range
           [("T"%string, sample_T)] _ "T"%string sample_T
           (mkNormParams (Sc (Fin 1)) (Sc (Fin 5)) false) 1 5).
  - exact (proj1 sample_T_reductions).
  - simpl. repeat constructor. apply not_elem_of_nil.
  - apply list_elem_of_singleton. reflexivity.
  - apply lookup_singleton_eq.
  - reflexivity.
  - reflexivity.
  - lra.
Defined.

(** ** Assembling the dataset *)

Lemma tdim_T1 (v : list xreal) : tdim (T1 v) = 1%nat.
Proof. by destruct v. Qed.

Lemma tdim_T2 (m : list (list xreal)) : m ≠ [] → tdim (T2 m) = 2%nat.
Proof. destruct m as [|row m]; [done|]. intros _. simpl. by destruct row. Qed.

Lemma tshape_T1 (v : list xreal) : v ≠ [] → tshape (T1 v) = [length v].
Proof.
  destruct v as [|x v]; [done|]. intros _. simpl. by rewrite length_fmap.
Qed.

Lemma tmap_T1 (f : xreal → xreal) (v : list xreal) :
  tmap f (T1 v) = T1 (f <$> v).
Proof. unfold T1. simpl. f_equal. by rewrite <- !list_fmap_compose. Qed.

Lemma tmap_T2 (f : xreal → xreal) (m : list (list xreal)) :
  tmap f (T2 m) = T2 ((λ row : list xreal, f <$> row) <$> m).
Proof.
  unfold T2. simpl. f_equal. rewrite <- !list_fmap_compose.
  apply list_fmap_ext. intros _ row _. apply tmap_T1.
Qed.

Lemma tflat_T1 (v : list xreal) : tflat (T1 v) = v.
Proof.
  induction v as [|x v IH]; [done|]. unfold T1 in *. cbn in *. by f_equal.
Qed.

Lemma tflat_T2 (m : list (list xreal)) : tflat (T2 m) = concat m.
Proof.
  unfold T2. cbn [tflat].
  induction m as [|row m IH]; [done|].
  rewrite fmap_cons. cbn [flat_map concat]. by rewrite IH, tflat_T1.
Qed.

Lemma matrix_tmap (f : xreal → xreal) (n d : nat) (t : tensor) :
  matrix n d t → matrix n d (tmap f t).
Proof.
  intros (m & -> & Hn & Hd). exists ((λ row : list xreal, f <$> row) <$> m).
  split; [apply tmap_T2|]. split; [by rewrite length_fmap|].
  apply Forall_fmap. eapply Forall_impl; [exact Hd|].
  intros row Hrow. simpl. by rewrite length_fmap.
Qed.

Lemma torch_tensor1_T1 (l : list R) : torch_tensor1 l = T1 (Fin <$> l).
Proof. unfold torch_tensor1, T1. f_equal. by rewrite <- list_fmap_compose. Qed.

Lemma torch_tensor2_matrix (ll : list (list R)) (d : nat) :
  Forall (λ l, length l = d) ll →
  ∃ t, torch_tensor2 ll = Ok t ∧ matrix (length ll) d t.
Proof.
  intros Hd. exists (T2 ((λ l : list R, Fin <$> l) <$> ll)). split.
  - destruct ll as [|l ll']; [done|]. unfold torch_tensor2.
    apply Forall_cons in Hd as [Hl Hd].
    assert (forallb (λ l', length l' =? length l) ll' = true) as ->.
    { apply forallb_forall. intros l' Hl'. apply Nat.eqb_eq.
      rewrite Forall_forall in Hd. rewrite Hl.
      apply Hd. by apply list_elem_of_In. }
    f_equal. unfold T2. f_equal.
    change (map torch_tensor1 (l :: ll')) with (torch_tensor1 <$> l :: ll').
    rewrite <- list_fmap_compose. apply list_fmap_ext.
    intros _ x _. apply torch_tensor1_T1.
  - exists ((λ l : list R, Fin <$> l) <$> ll). split; [done|].
    split; [by rewrite length_fmap|].
    apply Forall_fmap. eapply Forall_impl; [exact Hd|].
    intros row Hrow. simpl. by rewrite length_fmap.
Qed.

Lemma column_tensor_matrix (l : list R) :
  ∃ t, column_tensor l = Ok t ∧ matrix (length l) 1 t.
Proof.
  exists (T2 ((λ r, [Fin r]) <$> l)). split.
  - unfold column_tensor, torch_tensor1, unsqueeze1, T2. do 2 f_equal.
    change (map (λ c, Tn [c]) (map (λ r, Sc (Fin r)) l))
      with ((λ c, Tn [c]) <$> ((λ r, Sc (Fin r)) <$> l)).
    by rewrite <- !list_fmap_compose.
  - exists ((λ r, [Fin r]) <$> l). split; [done|].
    split; [by rewrite length_fmap|].
    apply Forall_fmap, Forall_forall. done.
Qed.

Lemma prepare_model_lengths (d : nat) (model : AtmModel) (row : Row) :
  prepare_model d model = Ok row →
  length (r_rhox row) = d ∧ length (r_t row) = d ∧ length (r_p row) = d
  ∧ length (r_xne row) = d ∧ length (r_abross row) = d
  ∧ length (r_accrad row) = d ∧ length (r_tau row) = d.
Proof.
  unfold prepare_model.
  destruct (pad_sequence (m_RHOX model) d) as [rhox|] eqn:H1; simpl; [|done].
  destruct (pad_sequence (m_T model) d) as [t|] eqn:H2; simpl; [|done].
  destruct (pad_sequence (m_P model) d) as [p|] eqn:H3; simpl; [|done].
  destruct (pad_sequence (m_XNE model) d) as [xne|] eqn:H4; simpl; [|done].
  destruct (pad_sequence (m_ABROSS model) d) as [ab|] eqn:H5; simpl; [|done].
  destruct (pad_sequence (m_ACCRAD model) d) as [ac|] eqn:H6; simpl; [|done].
  destruct (m_TAU model) as [tau_raw|]; simpl; [|done].
  destruct (pad_sequence tau_raw d) as [tau|] eqn:H7; simpl; [|done].
  intros [= <-]. simpl.
  repeat split; by eapply pad_sequence_length.
Qed.

Lemma prepare_data_inv (models : list AtmModel) (d : nat)
    (original : list (string * tensor)) :
  prepare_data models d = Ok original →
  ∃ teff gravity feh afe rhox t p xne abross accrad tau,
    original =
      [("teff", teff); ("gravity", gravity); ("feh", feh); ("afe", afe);
       ("RHOX", rhox); ("T", t); ("P", p); ("XNE", xne);
       ("ABROSS", abross); ("ACCRAD", accrad); ("TAU", tau)]%string
    ∧ matrix (length models) 1 teff ∧ matrix (length models) 1 gravity
    ∧ matrix (length models) 1 feh ∧ matrix (length models) 1 afe
    ∧ matrix (length models) d rhox ∧ matrix (length models) d t
    ∧ matrix (length models) d p ∧ matrix (length models) d xne
    ∧ matrix (length models) d abross ∧ matrix (length models) d accrad
    ∧ matrix (length models) d tau.
Proof.
  unfold prepare_data.
  destruct (mapM (prepare_model d) models) as [rows|] eqn:Hrows; [|done].
  pose proof (mapM_length _ _ _ Hrows) as Hlen.
  pose proof (mapM_Forall _ _ _ _ (prepare_model_lengths d) Hrows) as Hall.
  cbn [mbind result_bind].
  assert (∀ (sel : Row → list R),
            (∀ row, (length (r_rhox row) = d ∧ length (r_t row) = d
                     ∧ length (r_p row) = d ∧ length (r_xne row) = d
                     ∧ length (r_abross row) = d ∧ length (r_accrad row) = d
                     ∧ length (r_tau row) = d) → length (sel row) = d) →
            ∃ t, torch_tensor2 (sel <$> rows) = Ok t
                 ∧ matrix (length models) d t) as Hseq.
  { intros sel Hsel.
    destruct (torch_tensor2_matrix (sel <$> rows) d) as (t & Ht & Hm).
    - apply Forall_fmap. eapply Forall_impl; [exact Hall|]. exact Hsel.
    - exists t. split; [done|]. by rewrite length_fmap, Hlen in Hm. }
  assert (∀ (sel : Row → R),
            ∃ t, column_tensor (sel <$> rows) = Ok t
                 ∧ matrix (length models) 1 t) as Hcol.
  { intros sel.
    destruct (column_tensor_matrix (sel <$> rows)) as (t & Ht & Hm).
    exists t. split; [done|]. by rewrite length_fmap, Hlen in Hm. }
  destruct (Hcol r_teff) as (t1 & -> & ?).
  destruct (Hcol r_gravity) as (t2 & -> & ?).
  destruct (Hcol r_feh) as (t3 & -> & ?).
  destruct (Hcol r_afe) as (t4 & -> & ?).
  destruct (Hseq r_rhox) as (t5 & -> & ?); [tauto|].
  destruct (Hseq r_t) as (t6 & -> & ?); [tauto|].
  destruct (Hseq r_p) as (t7 & -> & ?); [tauto|].
  destruct (Hseq r_xne) as (t8 & -> & ?); [tauto|].
  destruct (Hseq r_abross) as (t9 & -> & ?); [tauto|].
  destruct (Hseq r_accrad) as (t10 & -> & ?); [tauto|].
  destruct (Hseq r_tau) as (t11 & -> & ?); [tauto|].
  cbn [mbind result_bind]. intros [= <-].
  exists t1, t2, t3, t4, t5, t6, t7, t8, t9, t10, t11. by repeat split.
Qed.

Lemma pad_sequence_total {A} (values : list A) (L : nat) :
  values ≠ [] → ∃ out, pad_sequence values L = Ok out.
Proof.
  intros Hne. destruct (decide (L ≤ length values)%nat) as [Hle|Hgt].
  - eexists. by apply pad_sequence_truncate.
  - destruct (last values) as [x|] eqn:Hx.
    + eexists. apply pad_sequence_extend; [lia | done].
    + by apply last_None in Hx.
Qed.

Lemma prepare_model_ok (d : nat) (model : AtmModel) :
  complete_model model → ∃ row, prepare_model d model = Ok row.
Proof.
  intros (H1 & H2 & H3 & H4 & H5 & H6 & tau & Htau & H7).
  unfold prepare_model.
  destruct (pad_sequence_total _ d H1) as [? ->].
  destruct (pad_sequence_total _ d H2) as [? ->].
  destruct (pad_sequence_total _ d H3) as [? ->].
  destruct (pad_sequence_total _ d H4) as [? ->].
  destruct (pad_sequence_total _ d H5) as [? ->].
  destruct (pad_sequence_total _ d H6) as [? ->].
  rewrite Htau. cbn [mbind result_bind].
  destruct (pad_sequence_total _ d H7) as [? ->].
  cbn [mbind result_bind]. by eexists.
Qed.

Lemma mapM_total {A B} (f : A → result B) (l : list A) :
  Forall (λ x, ∃ y, f x = Ok y) l → ∃ k, mapM f l = Ok k.
Proof.
  induction 1 as [|x l [y Hy] _ [k IH]]; [by exists []|].
  exists (y :: k). simpl. by rewrite Hy; simpl; rewrite IH.
Qed.

Lemma prepare_data_ok (models : list AtmModel) (d : nat) :
  Forall complete_model models → ∃ original, prepare_data models d = Ok original.
Proof.
  intros Hall.
  destruct (mapM_total (prepare_model d) models) as [rows Hrows].
  { eapply Forall_impl; [exact Hall|]. apply prepare_model_ok. }
  pose proof (mapM_Forall _ _ _ _ (prepare_model_lengths d) Hrows) as Hlens.
  unfold prepare_data. rewrite Hrows. cbn [mbind result_bind].
  assert (∀ sel : Row → R, ∃ t, column_tensor (sel <$> rows) = Ok t) as Hcol.
  { intros sel. destruct (column_tensor_matrix (sel <$> rows)) as (t & Ht & _).
    by exists t. }
  assert (∀ sel : Row → list R,
            Forall (λ row, length (sel row) = d) rows →
            ∃ t, torch_tensor2 (sel <$> rows) = Ok t) as Hseq.
  { intros sel Hsel.
    destruct (torch_tensor2_matrix (sel <$> rows) d) as (t & Ht & _);
      [by apply Forall_fmap | by exists t]. }
  destruct (Hcol r_teff) as [? ->]. destruct (Hcol r_gravity) as [? ->].
  destruct (Hcol r_feh) as [? ->]. destruct (Hcol r_afe) as [? ->].
  cbn [mbind result_bind].
  destruct (Hseq r_rhox) as [? ->];
    [eapply Forall_impl; [exact Hlens|]; simpl; tauto|].
  destruct (Hseq r_t) as [? ->];
    [eapply Forall_impl; [exact Hlens|]; simpl; tauto|].
  destruct (Hseq r_p) as [? ->];
    [eapply Forall_impl; [exact Hlens|]; simpl; tauto|].
  destruct (Hseq r_xne) as [? ->];
    [eapply Forall_impl; [exact Hlens|]; simpl; tauto|].
  destruct (Hseq r_abross) as [? ->];
    [eapply Forall_impl; [exact Hlens|]; simpl; tauto|].
  destruct (Hseq r_accrad) as [? ->];
    [eapply Forall_impl; [exact Hlens|]; simpl; tauto|].
  destruct (Hseq r_tau) as [? ->];
    [eapply Forall_impl; [exact Hlens|]; simpl; tauto|].
  cbn [mbind result_bind]. by eexists.
Qed.

Lemma fit_params_ok (name : string) (t : tensor) (n d : nat) :
  matrix n d t → (1 ≤ n)%nat → (1 ≤ d)%nat → ∃ p, fit_params name t = Ok p.
Proof.
  intros (m & -> & Hn & Hd) Hn1 Hd1.
  destruct m as [|[|x row] m]; simpl in Hn; [lia|..].
  { apply Forall_cons in Hd as [Hrow _]. simpl in Hrow. lia. }
  assert (tdim (T2 ((x :: row) :: m)) = 2%nat) as Hdim by (by apply tdim_T2).
  unfold fit_params. cbv zeta.
  set (td := if in_log_params name then log_transform _ else _).
  assert (tdim td = 2%nat) as Htd.
  { unfold td. destruct (in_log_params name); [|done].
    unfold log_transform. by rewrite !tdim_tmap. }
  assert (∃ y ys, tflat td = y :: ys) as (y & ys & Hflat).
  { unfold td, log_transform. destruct (in_log_params name);
      rewrite ?tflat_tmap, tflat_T2; simpl; eauto. }
  rewrite decide_False by lia. unfold treduce. rewrite Hflat.
  cbn [mbind result_bind]. by eexists.
Qed.

(** A fitted matrix is non-empty, its statistics are 0-dim, and normalising
    it acts elementwise. *)
Lemma normalize_entry (original : list (string * tensor))
    (nps : gmap string NormParams) (name : string) (t : tensor) (n d : nat) :
  setup_normalization original = Ok nps → NoDup (original.*1) →
  (name, t) ∈ original → matrix n d t → (1 ≤ n)%nat →
  (1 ≤ d)%nat
  ∧ (∃ mn mx lg, nps !! name = Some (mkNormParams (Sc mn) (Sc mx) lg))
  ∧ ∃ g, normalize nps name t = Ok (tmap g t).
Proof.
  intros Hrun Hnd Hin (m & -> & Hn & Hd) Hn1.
  destruct (setup_normalization_lookup _ _ _ _ Hrun Hnd Hin) as (p & Hfit & Hp).
  assert (m ≠ []) as Hm by (destruct m; simpl in *; [lia | done]).
  destruct (fit_params_flat _ _ _ ltac:(rewrite (tdim_T2 _ Hm); lia) Hfit)
    as (x & xs & Hflat & Hpeq).
  split; [|split].
  - rewrite tflat_T2 in Hflat.
    destruct d as [|d]; [|lia]. exfalso.
    assert (concat m = []) as Hnil; [|by rewrite Hnil in Hflat].
    clear -Hd. induction Hd as [|row m Hrow _ IH]; [done|].
    simpl. rewrite IH. by destruct row.
  - rewrite Hp, Hpeq. eauto.
  - eexists. eapply normalize_scalar; [done|by rewrite Hpeq..].
Qed.

(** What [normalize_all_data] stores. *)
Lemma normalize_all_data_inv (depth : nat) (models : list AtmModel)
    (orig : list (string * tensor)) (nps : gmap string NormParams)
    (ds : KuruczDataset) :
  normalize_all_data depth models orig nps = Ok ds →
  max_depth_points ds = depth
  ∧ original ds = orig
  ∧ norm_params ds = nps
  ∧ ∀ name field, (name, field) ∈ normalized_features ds →
      (data ← dict_get orig name; normalize nps name data) = Ok field.
Proof.
  unfold normalize_all_data. cbv zeta.
  repeat match goal with
         | |- mbind _ ?r = Ok _ → _ =>
             destruct r as [?|?] eqn:?; cbn [mbind result_bind]; [|done]
         end.
  intros [= <-]. cbn.
  split; [done|]. split; [done|]. split; [done|].
  intros name field Hin.
  repeat (apply elem_of_cons in Hin as [[= -> ->]|Hin]; [done|]).
  by apply elem_of_nil in Hin.
Qed.

(** The bundle of eleven matrices that [prepare_data] builds. *)
Section bundle.
Variables (n d depth : nat) (models : list AtmModel).
Variables t1 t2 t3 t4 t5 t6 t7 t8 t9 t10 t11 : tensor.
Variable nps : gmap string NormParams.

Let original : list (string * tensor) :=
  [("teff", t1); ("gravity", t2); ("feh", t3); ("afe", t4);
   ("RHOX", t5); ("T", t6); ("P", t7); ("XNE", t8);
   ("ABROSS", t9); ("ACCRAD", t10); ("TAU", t11)]%string.

Hypothesis Hn : (1 ≤ n)%nat.
Hypothesis M1 : matrix n 1 t1.
Hypothesis M2 : matrix n 1 t2.
Hypothesis M3 : matrix n 1 t3.
Hypothesis M4 : matrix n 1 t4.
Hypothesis M5 : matrix n d t5.
Hypothesis M6 : matrix n d t6.
Hypothesis M7 : matrix n d t7.
Hypothesis M8 : matrix n d t8.
Hypothesis M9 : matrix n d t9.
Hypothesis M10 : matrix n d t10.
Hypothesis M11 : matrix n d t11.

Lemma bundle_NoDup : NoDup (original.*1).
Proof.
  apply NoDup_ListNoDup. simpl.
  repeat (constructor; [simpl; intuition discriminate|]). constructor.
Qed.

Lemma bundle_setup_ok :
  (1 ≤ d)%nat → ∃ nps', setup_normalization original = Ok nps'.
Proof.
  intros Hd. unfold setup_normalization, original. cbn [for_each].
  repeat match goal with
         | |- context [fit_params ?name ?t] =>
             let H := fresh in
             assert (∃ p, fit_params name t = Ok p) as [? H]
               by (eapply fit_params_ok; [eassumption | done | done]);
             rewrite H; clear H; cbn [mbind result_bind]
         end.
  by eexists.
Qed.

Local Ltac normalize_field Hsetup name t w :=
  let g := fresh "g" in
  let E := fresh "E" in
  destruct (normalize_entry original nps name t n w Hsetup bundle_NoDup)
    as (_ & _ & g & E);
  [apply list_elem_of_In; simpl; tauto | assumption | assumption |];
  change (dict_get original name) with (Ok t);
  cbn [mbind result_bind]; rewrite E; cbn [mbind result_bind].

Lemma bundle_normalize :
  setup_normalization original = Ok nps →
  (1 ≤ d)%nat
  ∧ (∀ name, name ∈ original.*1 →
       ∃ mn mx lg, nps !! name = Some (mkNormParams (Sc mn) (Sc mx) lg))
  ∧ ∃ ds, normalize_all_data depth models original nps = Ok ds
          ∧ assembled n d ds.
Proof.
  intros Hsetup. split; [|split].
  - destruct (normalize_entry original nps "TAU" t11 n d Hsetup bundle_NoDup)
      as (Hd & _);
      [apply list_elem_of_In; simpl; tauto | assumption | assumption | done].
  - intros name Hname.
    apply list_elem_of_fmap in Hname as ([name' t] & -> & Hin).
    assert (∃ w, matrix n w t) as [w Hm].
    { unfold original in Hin.
      repeat (apply elem_of_cons in Hin as [[= -> ->]|Hin]; [by eexists|]).
      by apply elem_of_nil in Hin. }
    by destruct (normalize_entry original nps name' t n w Hsetup bundle_NoDup
                   Hin Hm Hn) as (_ & Hstats & _).
  - unfold normalize_all_data.
    normalize_field Hsetup "teff"%string t1 1%nat.
    normalize_field Hsetup "gravity"%string t2 1%nat.
    normalize_field Hsetup "feh"%string t3 1%nat.
    normalize_field Hsetup "afe"%string t4 1%nat.
    normalize_field Hsetup "RHOX"%string t5 d.
    normalize_field Hsetup "T"%string t6 d.
    normalize_field Hsetup "P"%string t7 d.
    normalize_field Hsetup "XNE"%string t8 d.
    normalize_field Hsetup "ABROSS"%string t9 d.
    normalize_field Hsetup "ACCRAD"%string t10 d.
    normalize_field Hsetup "TAU"%string t11 d.
    eexists. split; [done|].
    unfold assembled. cbn. repeat split; by apply matrix_tmap.
Qed.
End bundle.

(** What holds of every dataset that [__init__] returns. *)
Lemma init_assembled (readings : list (result AtmModel)) (d : nat)
    (ds : KuruczDataset) :
  init readings d = Ok ds →
  (1 ≤ length (load_models readings))%nat
  ∧ (1 ≤ d)%nat
  ∧ max_depth_points ds = d
  ∧ assembled (length (load_models readings)) d ds
  ∧ (∀ name, name ∈ output_columns →
       ∃ mn mx lg,
         norm_params ds !! name = Some (mkNormParams (Sc mn) (Sc mx) lg))
  ∧ (∀ name field, (name, field) ∈ normalized_features ds →
       (data ← dict_get (original ds) name;
        normalize (norm_params ds) name data) = Ok field).
Proof.
  unfold init. set (models := load_models readings).
  case_decide as Hn; [done|].
  assert (1 ≤ length models)%nat as Hn1 by lia.
  destruct (prepare_data models d) as [orig|] eqn:Hprep; [|done].
  destruct (prepare_data_inv _ _ _ Hprep)
    as (t1 & t2 & t3 & t4 & t5 & t6 & t7 & t8 & t9 & t10 & t11 & ->
        & M1 & M2 & M3 & M4 & M5 & M6 & M7 & M8 & M9 & M10 & M11).
  cbn [mbind result_bind].
  match goal with
  | |- context [setup_normalization ?l] => set (orig := l)
  end.
  destruct (setup_normalization orig) as [nps|] eqn:Hsetup;
    cbn [mbind result_bind]; [|done].
  destruct (bundle_normalize _ d d models _ _ _ _ _ _ _ _ _ _ _ nps
              Hn1 M1 M2 M3 M4 M5 M6 M7 M8 M9 M10 M11 Hsetup)
    as (Hd & Hstats & ds' & Hds' & Hasm).
  fold orig in Hds', Hstats. rewrite Hds'. intros [= <-].
  destruct (normalize_all_data_inv _ _ _ _ _ Hds') as (Hmax & Horig & Hnps & Hnorm).
  split; [done|]. split; [done|]. split; [done|]. split; [done|].
  rewrite Horig, Hnps. split; [|done].
  intros name Hname. apply Hstats.
  unfold output_columns in Hname. unfold orig. simpl.
  rewrite !elem_of_cons in Hname. rewrite !elem_of_cons. tauto.
Qed.

(** Construction succeeds when at least one model loads and every loaded
    model is complete. *)
Lemma init_ok (readings : list (result AtmModel)) (d : nat) :
  (1 ≤ d)%nat → load_models readings ≠ [] →
  Forall complete_model (load_models readings) →
  ∃ ds, init readings d = Ok ds.
Proof.
  intros Hd Hne Hall. unfold init.
  set (models := load_models readings) in *.
  assert (1 ≤ length models)%nat as Hn1.
  { destruct models; simpl; [done | lia]. }
  rewrite decide_False by lia.
  destruct (prepare_data_ok models d Hall) as [orig Hprep].
  rewrite Hprep. cbn [mbind result_bind].
  destruct (prepare_data_inv _ _ _ Hprep)
    as (t1 & t2 & t3 & t4 & t5 & t6 & t7 & t8 & t9 & t10 & t11 & ->
        & M1 & M2 & M3 & M4 & M5 & M6 & M7 & M8 & M9 & M10 & M11).
  destruct (bundle_setup_ok _ d _ _ _ _ _ _ _ _ _ _ _
              Hn1 M1 M2 M3 M4 M5 M6 M7 M8 M9 M10 M11 Hd) as [nps Hsetup].
  rewrite Hsetup. cbn [mbind result_bind].
  destruct (bundle_normalize _ d d models _ _ _ _ _ _ _ _ _ _ _ nps
              Hn1 M1 M2 M3 M4 M5 M6 M7 M8 M9 M10 M11 Hsetup)
    as (_ & _ & ds & Hds & _).
  by exists ds.
Qed.

(** ** Samples *)

Lemma py_index_valid {A} (l : list A) (i : Z) :
  (- Z.of_nat (length l) ≤ i < Z.of_nat (length l))%Z →
  ∃ x, py_index l i = Ok x ∧ x ∈ l.
Proof.
  intros Hi. unfold py_index.
  set (j := (if (i <? 0)%Z then Z.of_nat (length l) + i else i)%Z).
  assert (0 ≤ j < Z.of_nat (length l))%Z as Hj.
  { unfold j. destruct (Z.ltb_spec i 0); lia. }
  destruct (Z.leb_spec 0 j) as [_|?]; [|lia].
  destruct (Z.ltb_spec j (Z.of_nat (length l))) as [_|?]; [|lia].
  simpl.
  destruct (lookup_lt_is_Some_2 l (Z.to_nat j)) as [x Hx]; [lia|].
  rewrite Hx. exists x. split; [done|]. by eapply list_elem_of_lookup_2.
Qed.

Lemma py_index_fmap {A B} (f : A → B) (l : list A) (i : Z) :
  py_index (f <$> l) i = f <$> py_index l i.
Proof.
  unfold py_index. rewrite length_fmap, list_lookup_fmap.
  destruct (_ && _); [|done]. by destruct (l !! _).
Qed.

Lemma tindex_matrix (n d : nat) (t : tensor) (idx : Z) :
  matrix n d t → (- Z.of_nat n ≤ idx < Z.of_nat n)%Z →
  ∃ row, tindex t idx = Ok (T1 row) ∧ length row = d.
Proof.
  intros (m & -> & Hn & Hd) Hidx. unfold T2. cbn [tindex].
  rewrite py_index_fmap.
  destruct (py_index_valid m idx) as (row & -> & Hrow); [lia|].
  exists row. split; [done|].
  rewrite Forall_forall in Hd. by apply Hd.
Qed.

Lemma tcat0_stellar (a b c d : xreal) :
  tcat0 [T1 [a]; T1 [b]; T1 [c]; T1 [d]] = Ok (T1 [a; b; c; d]).
Proof. reflexivity. Qed.

Lemma expand_cons (s : Z) (rest : list Z) (ts : list tensor) :
  ¬ (tdim (Tn ts) < length (s :: rest))%nat →
  expand (s :: rest) (Tn ts) =
    cs ← mapM (expand rest) ts;
    if decide (s = -1 ∨ s = Z.of_nat (length cs))%Z then Ok (Tn cs)
    else match cs with
         | [c] =>
             if decide (0 ≤ s)%Z then Ok (Tn (replicate (Z.to_nat s) c))
             else Raise RuntimeError
         | _ => Raise RuntimeError
         end.
Proof. intros Hd. cbn [expand]. by rewrite decide_False. Qed.

Lemma expand_rows (v : list xreal) (d : nat) :
  (1 ≤ d)%nat →
  expand [Z.of_nat d; -1]%Z (unsqueeze0 (T1 v)) = Ok (Tn (replicate d (T1 v))).
Proof.
  intros Hd. unfold unsqueeze0.
  assert (expand [-1]%Z (T1 v) = Ok (T1 v)) as Hrow.
  { unfold T1. rewrite expand_cons by (fold (T1 v); rewrite tdim_T1; simpl; lia).
    rewrite (mapM_ok _ (λ c, c)).
    - cbn [mbind result_bind]. rewrite decide_True by (by left).
      by rewrite list_fmap_id.
    - apply Forall_fmap, Forall_forall. done. }
  assert (tdim (Tn [T1 v]) = 2%nat) as Hdim.
  { change (tdim (Tn [T1 v])) with (S (tdim (T1 v))). by rewrite tdim_T1. }
  rewrite expand_cons by (rewrite Hdim; simpl; lia).
  cbn [mapM]. rewrite Hrow. cbn [mbind result_bind mret result_ret length].
  destruct (decide (d = 1%nat)) as [->|Hne].
  - by rewrite decide_True by (by right).
  - rewrite decide_False by lia. rewrite decide_True by lia.
    by rewrite Nat2Z.id.
Qed.

Lemma unsqueeze_last_T1 (v : list xreal) :
  unsqueeze_last (T1 v) = Tn ((λ x, T1 [x]) <$> v).
Proof.
  unfold T1. cbn [unsqueeze_last]. f_equal.
  change (map unsqueeze_last (Sc <$> v)) with (unsqueeze_last <$> (Sc <$> v)).
  by rewrite <- list_fmap_compose.
Qed.

Lemma tcat_last_rows (a b c d : xreal) (tau : list xreal) :
  tau ≠ [] →
  tcat_last (Tn (replicate (length tau) (T1 [a; b; c; d])))
            (Tn ((λ x, T1 [x]) <$> tau))
  = Ok (input_layout a b c d tau).
Proof.
  intros Hne. destruct tau as [|x0 tau0] eqn:Htau; [done|].
  rewrite <- Htau. clear Hne.
  assert (tdim (Tn (replicate (length tau) (T1 [a; b; c; d]))) = 2%nat) as Ha
    by (by rewrite Htau).
  assert (tdim (Tn ((λ x, T1 [x]) <$> tau)) = 2%nat) as Hb by (by rewrite Htau).
  cbn [tcat_last]. rewrite Ha, Hb.
  rewrite decide_True by done. rewrite decide_False by lia.
  unfold input_layout.
  assert (zip_withM tcat_last (replicate (length tau) (T1 [a; b; c; d]))
                    ((λ x, T1 [x]) <$> tau)
          = Ok ((λ x, T1 [a; b; c; d; x]) <$> tau)) as ->; [|done].
  clear. induction tau as [|x tau IH]; [done|].
  cbn [length replicate fmap list_fmap zip_withM] in *.
  change (tcat_last (T1 [a; b; c; d]) (T1 [x])) with (Ok (T1 [a; b; c; d; x])).
  cbn [mbind result_bind]. fold (@zip_withM tensor tensor tensor).
  rewrite IH. done.
Qed.

Lemma tstack1_columns (cols : list (list xreal)) (d : nat) :
  cols ≠ [] → (1 ≤ d)%nat → Forall (λ col, length col = d) cols →
  tstack1 (T1 <$> cols) = Ok (output_layout d cols).
Proof.
  intros Hne Hd Hall.
  assert (∀ col, col ∈ cols → tshape (T1 col) = [d]) as Hshape.
  { intros col Hcol. rewrite Forall_forall in Hall.
    rewrite tshape_T1, (Hall col Hcol); [done|].
    intros ->. specialize (Hall [] Hcol). simpl in Hall. lia. }
  destruct cols as [|c0 rest] eqn:Hcols; [done|]. rewrite <- Hcols in *.
  assert (T1 <$> cols = T1 c0 :: (T1 <$> rest)) as Hts by (by rewrite Hcols).
  unfold tstack1. rewrite Hts at 1.
  assert (forallb (λ c, bool_decide (tshape c = tshape (T1 c0))) (T1 <$> cols)
          = true) as ->.
  { apply forallb_forall. intros t Ht.
    apply list_elem_of_In, list_elem_of_fmap in Ht as (col & -> & Hcol).
    apply bool_decide_eq_true. rewrite (Hshape col Hcol), (Hshape c0); [done|].
    rewrite Hcols. by left. }
  unfold T1 at 1. f_equal. unfold output_layout. f_equal.
  rewrite length_fmap.
  assert (length c0 = d) as ->.
  { rewrite Forall_forall in Hall. apply Hall. rewrite Hcols. by left. }
  apply list_fmap_ext. intros i r Hr.
  apply lookup_seq in Hr as [-> Hr]. change (0 + i)%nat with i.
  unfold T1 at 2. f_equal.
  clear -Hall Hr. induction Hall as [|col cols Hcol _ IH]; [done|].
  rewrite !fmap_cons. cbn [omap list_omap]. unfold T1 at 1.
  rewrite list_lookup_fmap.
  destruct (lookup_lt_is_Some_2 col i) as [x Hx]; [lia|].
  rewrite Hx. cbn [fmap option_fmap option_map].
  rewrite nth_lookup, Hx. cbn [default]. f_equal. exact IH.
Qed.

Lemma tshape_input_layout (a b c e : xreal) (tau : list xreal) :
  tau ≠ [] → tshape (input_layout a b c e tau) = [length tau; 5]%nat.
Proof.
  destruct tau as [|x tau]; [done|]. intros _.
  unfold input_layout. simpl. by rewrite length_fmap.
Qed.

Lemma tshape_output_layout (d : nat) (cols : list (list xreal)) :
  (1 ≤ d)%nat → cols ≠ [] →
  tshape (output_layout d cols) = [d; length cols]%nat.
Proof.
  intros Hd Hne. destruct d as [|d]; [lia|].
  unfold output_layout. cbn [seq fmap list_fmap tshape].
  rewrite length_fmap, length_seq. f_equal.
  rewrite tshape_T1; [by rewrite length_fmap|].
  by destruct cols.
Qed.

Lemma getitem_assembled (ds : KuruczDataset) (n d : nat) (idx : Z) :
  assembled n d ds → (1 ≤ d)%nat →
  (- Z.of_nat n ≤ idx < Z.of_nat n)%Z →
  ∃ (a b c e : xreal) (tau rhox t p xne abross accrad : list xreal),
    tindex (teff ds) idx = Ok (T1 [a])
    ∧ tindex (gravity ds) idx = Ok (T1 [b])
    ∧ tindex (feh ds) idx = Ok (T1 [c])
    ∧ tindex (afe ds) idx = Ok (T1 [e])
    ∧ tindex (TAU ds) idx = Ok (T1 tau)
    ∧ tindex (RHOX ds) idx = Ok (T1 rhox)
    ∧ tindex (T ds) idx = Ok (T1 t)
    ∧ tindex (P ds) idx = Ok (T1 p)
    ∧ tindex (XNE ds) idx = Ok (T1 xne)
    ∧ tindex (ABROSS ds) idx = Ok (T1 abross)
    ∧ tindex (ACCRAD ds) idx = Ok (T1 accrad)
    ∧ Forall (λ col, length col = d) [tau; rhox; t; p; xne; abross; accrad]
    ∧ getitem ds idx =
        Ok (input_layout a b c e tau,
            output_layout d [rhox; t; p; xne; abross; accrad]).
Proof.
  intros (M1 & M2 & M3 & M4 & M5 & M6 & M7 & M8 & M9 & M10 & M11) Hd Hidx.
  destruct (tindex_matrix _ _ _ _ M1 Hidx) as ([|a [|]] & E1 & L1); try done.
  destruct (tindex_matrix _ _ _ _ M2 Hidx) as ([|b [|]] & E2 & L2); try done.
  destruct (tindex_matrix _ _ _ _ M3 Hidx) as ([|c [|]] & E3 & L3); try done.
  destruct (tindex_matrix _ _ _ _ M4 Hidx) as ([|e [|]] & E4 & L4); try done.
  destruct (tindex_matrix _ _ _ _ M5 Hidx) as (rhox & E5 & L5).
  destruct (tindex_matrix _ _ _ _ M6 Hidx) as (t & E6 & L6).
  destruct (tindex_matrix _ _ _ _ M7 Hidx) as (p & E7 & L7).
  destruct (tindex_matrix _ _ _ _ M8 Hidx) as (xne & E8 & L8).
  destruct (tindex_matrix _ _ _ _ M9 Hidx) as (abross & E9 & L9).
  destruct (tindex_matrix _ _ _ _ M10 Hidx) as (accrad & E10 & L10).
  destruct (tindex_matrix _ _ _ _ M11 Hidx) as (tau & E11 & L11).
  exists a, b, c, e, tau, rhox, t, p, xne, abross, accrad.
  do 11 (split; [done|]).
  split; [by repeat constructor|].
  assert (tau ≠ []) as Htau by (intros ->; simpl in L11; lia).
  unfold getitem.
  rewrite E1, E2, E3, E4, E5, E6, E7, E8, E9, E10, E11.
  cbn [mbind result_bind]. rewrite tcat0_stellar. cbn [mbind result_bind].
  rewrite (tdim_T1 [a; b; c; e]), (tdim_T1 tau).
  rewrite !decide_True by done. cbn [mbind result_bind].
  unfold shape0. rewrite (tshape_T1 tau Htau), L11. cbn [mbind result_bind].
  rewrite decide_False by lia.
  rewrite expand_rows by done. cbn [mbind result_bind].
  rewrite unsqueeze_last_T1. rewrite <- L11 at 1.
  rewrite tcat_last_rows by done. cbn [mbind result_bind].
  change [T1 rhox; T1 t; T1 p; T1 xne; T1 abross; T1 accrad]
    with (T1 <$> [rhox; t; p; xne; abross; accrad]).
  rewrite (tstack1_columns _ d); [done | done | done | by repeat constructor].
Qed.

(** C6: for a constructed dataset, whose tensors are the normalised
    features, and a valid index, [__getitem__] returns input features of
    shape (max_depth_points, 5), every row holding the sample's normalised
    teff, gravity, feh and afe followed by that row's normalised tau, and
    output features of shape (max_depth_points, 6) with the columns RHOX, T,
    P, XNE, ABROSS, ACCRAD. *)
Theorem getitem_sample_layout :
  ∀ (readings : list (result AtmModel)) (depth : nat) (ds : KuruczDataset)
    (n : nat) (idx : Z),
    init readings depth = Ok ds →
    len ds = Ok n →
    (- Z.of_nat n ≤ idx < Z.of_nat n)%Z →
    ∃ (a b c e : xreal) (tau rhox t p xne abross accrad : list xreal)
      (input_features output_features : tensor),
      max_depth_points ds = depth
      ∧ (∀ name field, (name, field) ∈ normalized_features ds →
           (data ← dict_get (original ds) name;
            normalize (norm_params ds) name data) = Ok field)
      ∧ tindex (teff ds) idx = Ok (T1 [a])
      ∧ tindex (gravity ds) idx = Ok (T1 [b])
      ∧ tindex (feh ds) idx = Ok (T1 [c])
      ∧ tindex (afe ds) idx = Ok (T1 [e])
      ∧ tindex (TAU ds) idx = Ok (T1 tau)
      ∧ tindex (RHOX ds) idx = Ok (T1 rhox)
      ∧ tindex (T ds) idx = Ok (T1 t)
      ∧ tindex (P ds) idx = Ok (T1 p)
      ∧ tindex (XNE ds) idx = Ok (T1 xne)
      ∧ tindex (ABROSS ds) idx = Ok (T1 abross)
      ∧ tindex (ACCRAD ds) idx = Ok (T1 accrad)
      ∧ getitem ds idx = Ok (input_features, output_features)
      ∧ tshape input_features = [max_depth_points ds; 5]%nat
      ∧ tshape output_features = [max_depth_points ds; 6]%nat
      ∧ input_features = input_layout a b c e tau
      ∧ output_features =
          output_layout (max_depth_points ds) [rhox; t; p; xne; abross; accrad].
Proof.
  intros readings depth ds n idx Hinit Hlen Hidx.
  destruct (init_assembled _ _ _ Hinit) as (Hn & Hd & Hmax & Hasm & _ & Hnorm).
  assert (n = length (load_models readings)) as ->.
  { destruct Hasm as ((m & Hm & Hlm & _) & _).
    unfold len in Hlen. rewrite Hm in Hlen. unfold T2 in Hlen.
    rewrite length_fmap in Hlen. by simplify_eq. }
  destruct (getitem_assembled _ _ _ idx Hasm Hd Hidx)
    as (a & b & c & e & tau & rhox & t & p & xne & abross & accrad
        & E1 & E2 & E3 & E4 & E5 & E6 & E7 & E8 & E9 & E10 & E11 & Hall & Hget).
  exists a, b, c, e, tau, rhox, t, p, xne, abross, accrad.
  eexists _, _. rewrite Hmax.
  do 13 (split; [done|]). split; [exact Hget|].
  assert (length tau = depth) as Htau by (by apply Forall_cons in Hall as [? _]).
  split; [|split; [|done]].
  - rewrite tshape_input_layout; [by rewrite Htau|].
    intros ->. simpl in Htau. lia.
  - by rewrite tshape_output_layout.
Qed.

(** The dataset built from the sample model alone. *)
Lemma sample_dataset :
  ∃ ds, init [Ok sample_model] 3 = Ok ds ∧ len ds = Ok 1%nat.
Proof.
  assert (load_models [Ok sample_model]
          = [set_TAU [0; 3; 8]%R sample_model]) as Hload.
  { unfold load_models. cbn [omap list_omap mbind result_bind].
    by rewrite (calculate_tau_example sample_model). }
  destruct (init_ok [Ok sample_model] 3) as [ds Hds].
  - lia.
  - by rewrite Hload.
  - rewrite Hload. repeat constructor; simpl; try done.
    by exists [0; 3; 8]%R.
  - exists ds. split; [done|].
    destruct (init_assembled _ _ _ Hds) as (_ & _ & _ & ((m & Hm & Hlm & _) & _) & _).
    unfold len. rewrite Hm. unfold T2. rewrite length_fmap, Hlm.
    by rewrite Hload.
Qed.

(** The first sample of the dataset built from the sample model. *)
Lemma getitem_sample_layout_witness :
  ∃ ds,
    init [Ok sample_model] 3 = Ok ds
    ∧ ∃ (a b c e : xreal) (tau rhox t p xne abross accrad : list xreal)
        (input_features output_features : tensor),
        max_depth_points ds = 3%nat
        ∧ (∀ name field, (name, field) ∈ normalized_features ds →
             (data ← dict_get (original ds) name;
              normalize (norm_params ds) name data) = Ok field)
        ∧ tindex (teff ds) 0 = Ok (T1 [a])
        ∧ tindex (gravity ds) 0 = Ok (T1 [b])
        ∧ tindex (feh ds) 0 = Ok (T1 [c])
        ∧ tindex (afe ds) 0 = Ok (T1 [e])
        ∧ tindex (TAU ds) 0 = Ok (T1 tau)
        ∧ tindex (RHOX ds) 0 = Ok (T1 rhox)
        ∧ tindex (T ds) 0 = Ok (T1 t)
        ∧ tindex (P ds) 0 = Ok (T1 p)
        ∧ tindex (XNE ds) 0 = Ok (T1 xne)
        ∧ tindex (ABROSS ds) 0 = Ok (T1 abross)
        ∧ tindex (ACCRAD ds) 0 = Ok (T1 accrad)
        ∧ getitem ds 0 = Ok (input_features, output_features)
        ∧ tshape input_features = [max_depth_points ds; 5]%nat
        ∧ tshape output_features = [max_depth_points ds; 6]%nat
        ∧ input_features = input_layout a b c e tau
        ∧ output_features =
            output_layout (max_depth_points ds)
                          [rhox; t; p; xne; abross; accrad].
Proof.
  destruct sample_dataset as (ds & Hinit & Hlen).
  exists ds. split; [exact Hinit|].
  apply (getitem_sample_layout [Ok sample_model] 3 ds 1 0 Hinit Hlen). lia.
Defined.

(** ** Denormalising network outputs *)

Lemma mapM_exn {A B} (f : A → result B) (l : list A) (e0 e : exn) :
  (∀ x e', f x = Raise e' → e' = e0) → mapM f l = Raise e → e = e0.
Proof.
  intros Hf. induction l as [|x l IH]; simpl; [done|].
  destruct (f x) as [y|e'] eqn:Hx; simpl.
  - destruct (mapM f l) as [ys|e'']; simpl; [done|].
    intros [= <-]. by apply IH.
  - intros [= <-]. by eapply Hf.
Qed.

Lemma py_index_exn {A} (l : list A) (i : Z) (e : exn) :
  py_index l i = Raise e → e = IndexError.
Proof.
  unfold py_index. destruct (_ && _); [|by intros [= <-]].
  destruct (l !! _); [done | by intros [= <-]].
Qed.

Lemma tselect2_exn (t : tensor) (i : nat) (e : exn) :
  tselect2 t i = Raise e → e = IndexError.
Proof.
  unfold tselect2.
  destruct (tshape t) as [|? [|? [|n [|]]]]; try by intros [= <-].
  case_decide; [|by intros [= <-]].
  destruct t as [x|ms]; [by intros [= <-]|].
  destruct (mapM _ ms) as [r|e'] eqn:Hm; simpl; [done|].
  intros [= <-]. eapply mapM_exn; [|exact Hm].
  intros [x|rows] e''; [by intros [= <-]|].
  destruct (mapM _ rows) as [r|e3] eqn:Hr; simpl; [done|].
  intros [= <-]. eapply mapM_exn; [|exact Hr].
  intros row e4. destruct row as [x|cs]; simpl; [by intros [= <-]|].
  apply py_index_exn.
Qed.

Lemma tselect2_out_of_range (t : tensor) (b d n i : nat) :
  tshape t = [b; d; n] → (n ≤ i)%nat → tselect2 t i = Raise IndexError.
Proof.
  intros Ht Hi. unfold tselect2. rewrite Ht. by rewrite decide_False by lia.
Qed.

Lemma for_each_last_raises {S X} (body : S → X → result S) (xs : list X)
    (x : X) (s : S) :
  (∀ s', raises (body s' x)) → raises (for_each body (xs ++ [x]) s).
Proof.
  intros Hx. rewrite for_each_app.
  destruct (for_each body xs s) as [s'|e]; simpl; [|by exists e].
  destruct (Hx s') as [e ->]. by exists e.
Qed.

Lemma for_each_one_exn {S X} (body : S → X → result S) (xs : list X)
    (s : S) (e0 e : exn) :
  (∀ s' x e', x ∈ xs → body s' x = Raise e' → e' = e0) →
  for_each body xs s = Raise e → e = e0.
Proof.
  revert s. induction xs as [|x xs IH]; intros s Hb; simpl; [done|].
  destruct (body s x) as [s'|e'] eqn:Hx; simpl.
  - apply IH. intros s'' y e'' Hy. apply Hb. by right.
  - intros [= <-]. eapply Hb; [|exact Hx]. by left.
Qed.

(** C3: on a tensor of shape (batch, depth, 6), [inverse_transform_outputs]
    raises instead of returning the mapping: its column list has seven
    names, and the seventh slice [outputs[:, :, 6]] is out of range.  With
    0-dim statistics for the output columns, as in every constructed
    dataset, the six channels are denormalised and the exception is the
    [IndexError] of the seventh. *)
Theorem inverse_transform_outputs_six_channels :
  ∀ (self : KuruczDataset) (outputs : tensor) (batch depth : nat),
    tshape outputs = [batch; depth; 6]%nat →
    raises (inverse_transform_outputs self outputs)
    ∧ ((∀ name, name ∈ output_columns →
          ∃ mn mx lg,
            norm_params self !! name = Some (mkNormParams (Sc mn) (Sc mx) lg)) →
       inverse_transform_outputs self outputs = Raise IndexError)
    ∧ (∀ readings d, init readings d = Ok self →
         inverse_transform_outputs self outputs = Raise IndexError).
Proof.
  intros self outputs batch depth Hshape.
  unfold inverse_transform_outputs. rewrite Hshape. cbv zeta.
  set (body := λ (res : gmap string (option tensor)) '(i, param_name),
         feature_data ← tselect2 outputs i;
         denorm ← denormalize (norm_params self) param_name feature_data;
         Ok (<[param_name := Some denorm]> res)).
  set (res0 := list_to_map _).
  change (zip (seq 0 (length output_columns)) output_columns)
    with ([(0, "RHOX"); (1, "T"); (2, "P"); (3, "XNE"); (4, "ABROSS");
           (5, "ACCRAD")]%nat%string ++ [(6%nat, "TAU"%string)]).
  assert (∀ res, body res (6%nat, "TAU"%string) = Raise IndexError) as Hlast.
  { intros res. unfold body.
    by rewrite (tselect2_out_of_range _ _ _ _ _ Hshape). }
  assert (raises (for_each body
            ([(0, "RHOX"); (1, "T"); (2, "P"); (3, "XNE"); (4, "ABROSS");
              (5, "ACCRAD")]%nat%string ++ [(6%nat, "TAU"%string)]) res0))
    as Hraises.
  { apply for_each_last_raises. intros res. exists IndexError. apply Hlast. }
  split; [exact Hraises|].
  assert ((∀ name, name ∈ output_columns →
             ∃ mn mx lg,
               norm_params self !! name = Some (mkNormParams (Sc mn) (Sc mx) lg)) →
          for_each body
            ([(0, "RHOX"); (1, "T"); (2, "P"); (3, "XNE"); (4, "ABROSS");
              (5, "ACCRAD")]%nat%string ++ [(6%nat, "TAU"%string)]) res0
          = Raise IndexError) as Hindex.
  { intros Hstats. destruct Hraises as [e He]. rewrite He. f_equal.
    eapply for_each_one_exn; [|exact He].
    intros res [i name] e' Hin. unfold body.
    destruct (tselect2 outputs i) as [fd|e''] eqn:Hsel; simpl.
    - destruct (Hstats name) as (mn & mx & lg & Hp).
      { apply elem_of_app in Hin as [Hin|Hin].
        - unfold output_columns.
          repeat (apply elem_of_cons in Hin as [[= _ ->]|Hin];
                  [rewrite !elem_of_cons; tauto|]).
          by apply elem_of_nil in Hin.
        - apply list_elem_of_singleton in Hin as [= _ ->].
          unfold output_columns. rewrite !elem_of_cons. tauto. }
      by rewrite (denormalize_scalar _ _ _ mn mx _ Hp).
    - intros [= <-]. by eapply tselect2_exn. }
  split; [exact Hindex|].
  intros readings d Hinit. apply Hindex.
  by destruct (init_assembled _ _ _ Hinit) as (_ & _ & _ & _ & Hstats & _).
Qed.

(** A (1, 1, 6) output tensor. *)
Lemma inverse_transform_outputs_six_channels_witness :
  raises (inverse_transform_outputs sample_self sample_outputs)
  ∧ ((∀ name, name ∈ output_columns →
        ∃ mn mx lg,
          norm_params sample_self !! name
          = Some (mkNormParams (Sc mn) (Sc mx) lg)) →
     inverse_transform_outputs sample_self sample_outputs = Raise IndexError)
  ∧ (∀ readings d, init readings d = Ok sample_self →
       inverse_transform_outputs sample_self sample_outputs = Raise IndexError).
Proof.
  apply (inverse_transform_outputs_six_channels sample_self sample_outputs 1 1).
  reflexivity.
Defined.

(** * Further properties *)

(** ** Padding *)

(** X1: [pad_sequence] raises exactly on an empty input with a non-zero
    target length, and then raises [IndexError]; in particular a target
    length of zero yields a result for every input, the empty one too. *)
Theorem pad_sequence_raises_iff :
  ∀ (A : Type) (values : list A) (L : nat),
    (raises (pad_sequence values L) ↔ values = [] ∧ L ≠ 0%nat)
    ∧ (raises (pad_sequence values L) → pad_sequence values L = Raise IndexError)
    ∧ (¬ raises (pad_sequence values L) →
         ∃ out, pad_sequence values L = Ok out ∧ length out = L).
Proof.
  intros A values L.
  destruct (decide (L = 0%nat)) as [->|HL].
  - assert (pad_sequence values 0 = Ok []) as Hrun.
    { rewrite pad_sequence_truncate by lia. by rewrite take_0. }
    rewrite Hrun. split; [|split].
    + split; [by intros [e ?] | by intros [_ ?]].
    + by intros [e ?].
    + intros _. by exists [].
  - destruct values as [|x values].
    + rewrite pad_sequence_empty by done. split; [|split].
      * split; [done | intros _; by exists IndexError].
      * done.
      * intros Hn. exfalso. apply Hn. by exists IndexError.
    + destruct (pad_sequence_total (x :: values) L) as [out Hout]; [done|].
      rewrite Hout. split; [|split].
      * split; [by intros [e ?] | by intros [? _]].
      * by intros [e ?].
      * intros _. exists out. split; [done|]. by eapply pad_sequence_length.
Qed.

(** X2: a padded profile is a fixed point of padding to the same length,
    and it holds no value that the input does not hold. *)
Theorem pad_sequence_idempotent :
  ∀ (A : Type) (values out : list A) (L : nat),
    pad_sequence values L = Ok out →
    pad_sequence out L = Ok out ∧ ∀ x, x ∈ out → x ∈ values.
Proof.
  intros A values out L Hout.
  pose proof (pad_sequence_length _ _ _ Hout) as Hlen.
  split.
  - rewrite pad_sequence_truncate by lia. by rewrite <- Hlen, firstn_all.
  - revert Hout. unfold pad_sequence. case_decide as HL.
    + intros [= <-] x Hx. by apply (subseteq_take L values).
    + destruct (py_index values (-1)) as [lastv|] eqn:Hlast; simpl; [|done].
      intros [= <-] x Hx. apply elem_of_app in Hx as [Hx|Hx]; [done|].
      apply elem_of_replicate in Hx as [-> _].
      destruct values as [|v values]; [by rewrite py_index_nil in Hlast|].
      destruct (py_index_valid (v :: values) (-1)) as (y & Hy & Hin).
      { simpl. lia. }
      congruence.
Qed.

(** Padding the three-layer profile to five depth points. *)
Lemma pad_sequence_idempotent_witness :
  pad_sequence [1; 2; 3; 3; 3]%Z 5 = Ok [1; 2; 3; 3; 3]%Z
  ∧ ∀ x, x ∈ [1; 2; 3; 3; 3]%Z → x ∈ [1; 2; 3]%Z.
Proof.
  apply (pad_sequence_idempotent Z [1; 2; 3]%Z [1; 2; 3; 3; 3]%Z 5).
  reflexivity.
Defined.

(** ** Optical depth *)

Lemma nth_fmap_in (f : R → R) (l : list R) (i : nat) :
  (i < length l)%nat → nth i (f <$> l) 0%R = f (nth i l 0%R).
Proof.
  intros Hi. rewrite !nth_lookup, list_lookup_fmap.
  destruct (lookup_lt_is_Some_2 l i Hi) as [x ->]. done.
Qed.

(** X3: for a constant opacity [k] the integration is exact: the stored
    optical depth at every layer is [k] times the column density
    accumulated since the first layer. *)
Theorem calculate_tau_constant_opacity :
  ∀ (model : AtmModel) (k : R),
    (length (m_RHOX model) ≤ length (m_ABROSS model))%nat →
    (∀ i, (i < length (m_RHOX model))%nat → nth i (m_ABROSS model) 0%R = k) →
    ∃ tau,
      calculate_tau model = Ok (set_TAU tau model)
      ∧ ∀ i, (i < length (m_RHOX model))%nat →
          nth i tau 0%R
          = (k * (nth i (m_RHOX model) 0 - nth 0 (m_RHOX model) 0))%R.
Proof.
  intros model k Hlen Hconst.
  destruct (calculate_tau_ok model) as (tau & Hrun & Hl & H0 & Hrec); [lia|].
  exists tau. split; [done|].
  induction i as [|i IH]; intros Hi.
  - rewrite H0. lra.
  - rewrite (Hrec (S i)) by lia. unfold trapezoid_at.
    replace (S i - 1)%nat with i by lia.
    rewrite IH by lia. rewrite !Hconst by lia. lra.
Qed.

(** Column densities 1, 2, 4 under opacity 3. *)
Lemma calculate_tau_constant_opacity_witness :
  ∃ tau,
    calculate_tau constant_opacity_model
    = Ok (set_TAU tau constant_opacity_model)
    ∧ ∀ i, (i < length (m_RHOX constant_opacity_model))%nat →
        nth i tau 0%R
        = (3 * (nth i (m_RHOX constant_opacity_model) 0
                - nth 0 (m_RHOX constant_opacity_model) 0))%R.
Proof.
  apply (calculate_tau_constant_opacity constant_opacity_model 3).
  - simpl. lia.
  - intros [|[|[|i]]]; simpl; intros Hi; [reflexivity.. | lia].
Defined.

(** X4: the optical depth depends on the column densities through their
    differences only and is linear in the opacity: moving every [rhox] by
    [c] and multiplying every [abross] by [s] multiplies every [tau] by
    [s]. *)
Theorem calculate_tau_shift_scale :
  ∀ (model model' : AtmModel) (c s : R),
    (length (m_RHOX model) ≤ length (m_ABROSS model))%nat →
    m_RHOX model' = (λ r, r + c)%R <$> m_RHOX model →
    m_ABROSS model' = (λ a, s * a)%R <$> m_ABROSS model →
    ∃ tau,
      calculate_tau model = Ok (set_TAU tau model)
      ∧ calculate_tau model' = Ok (set_TAU ((λ t, s * t)%R <$> tau) model').
Proof.
  intros model model' c s Hlen Hr Ha.
  destruct (calculate_tau_ok model) as (tau & Hrun & Hl & H0 & Hrec); [lia|].
  destruct (calculate_tau_ok model') as (tau' & Hrun' & Hl' & H0' & Hrec').
  { rewrite Hr, Ha, !length_fmap. lia. }
  exists tau. split; [done|]. rewrite Hrun'. do 2 f_equal.
  rewrite Hr, length_fmap in Hl'.
  assert (∀ i, (i < length tau)%nat →
               nth i tau' 0%R = (s * nth i tau 0)%R) as Hnth.
  { induction i as [|i IH]; intros Hi.
    - rewrite H0, H0'. lra.
    - rewrite (Hrec' (S i)), (Hrec (S i)) by lia. unfold trapezoid_at.
      replace (S i - 1)%nat with i by lia.
      rewrite IH by lia. rewrite Hr, Ha.
      rewrite !nth_fmap_in by lia. lra. }
  apply (nth_ext _ _ 0%R (s * 0)%R); [rewrite length_fmap; lia|].
  intros i Hi. rewrite Hnth by lia.
  change (nth i ((λ t, s * t)%R <$> tau) (s * 0)%R)
    with (nth i (map (λ t, s * t)%R tau) ((λ t, s * t)%R 0%R)).
  by rewrite map_nth.
Qed.

(** The sample model against its moved and doubled copy. *)
Lemma calculate_tau_shift_scale_witness :
  ∃ tau,
    calculate_tau sample_model = Ok (set_TAU tau sample_model)
    ∧ calculate_tau shifted_model
      = Ok (set_TAU ((λ t, 2 * t)%R <$> tau) shifted_model).
Proof.
  apply (calculate_tau_shift_scale sample_model shifted_model 10 2).
  - simpl. lia.
  - reflexivity.
  - reflexivity.
Defined.

(** ** Outcomes of the construction *)

(** Every loaded model is a reading with its optical depth added. *)
Lemma load_models_elem (readings : list (result AtmModel)) (m' : AtmModel) :
  m' ∈ load_models readings →
  ∃ m tau, Ok m ∈ readings ∧ m' = set_TAU tau m
           ∧ length tau = length (m_RHOX m).
Proof.
  unfold load_models. intros Hin.
  apply list_elem_of_omap in Hin as (r & Hr & Hm').
  destruct r as [m|e]; cbn [mbind result_bind] in Hm'; [|done].
  destruct (calculate_tau m) as [m''|] eqn:Hrun; [|done]. simplify_eq.
  unfold calculate_tau in Hrun.
  destruct (tau_of (m_RHOX m) (m_ABROSS m)) as [tau|] eqn:Htau;
    cbn [mbind result_bind] in Hrun; [|done].
  simplify_eq. exists m, tau. split; [done|]. split; [done|].
  destruct (decide (2 ≤ length (m_RHOX m)
                    ∧ length (m_ABROSS m) < length (m_RHOX m))%nat)
    as [[? ?]|Hno].
  - by rewrite tau_of_short in Htau.
  - destruct (tau_of_ok (m_RHOX m) (m_ABROSS m)) as (tau' & Htau' & Hl & _);
      [lia|]. congruence.
Qed.

Lemma load_models_length (readings : list (result AtmModel)) :
  (length (load_models readings) ≤ length readings)%nat.
Proof.
  unfold load_models. induction readings as [|r rs IH]; [done|].
  cbn [omap list_omap].
  destruct (match r ≫= calculate_tau with Ok m => Some m | Raise _ => None end);
    cbn [length]; fold (@omap list _) in *; lia.
Qed.

Lemma complete_model_dec (model : AtmModel) :
  complete_model model ∨ ¬ complete_model model.
Proof.
  unfold complete_model.
  destruct (m_RHOX model); [right; tauto|].
  destruct (m_T model); [right; tauto|].
  destruct (m_P model); [right; tauto|].
  destruct (m_XNE model); [right; tauto|].
  destruct (m_ABROSS model); [right; tauto|].
  destruct (m_ACCRAD model); [right; tauto|].
  destruct (m_TAU model) as [[|t tau]|].
  - right. intros (_ & _ & _ & _ & _ & _ & tau & [= <-] & ?). done.
  - left. repeat split; try done. by eexists.
  - right. by intros (_ & _ & _ & _ & _ & _ & tau & ? & _).
Qed.

Lemma pad_sequence_exn {A} (values : list A) (L : nat) (e : exn) :
  pad_sequence values L = Raise e → e = IndexError.
Proof.
  unfold pad_sequence. case_decide; [done|].
  destruct (py_index values (-1)) as [x|e'] eqn:Hx; simpl; [done|].
  intros [= <-]. by eapply py_index_exn.
Qed.

Lemma prepare_model_exn (d : nat) (model : AtmModel) (e : exn) :
  is_Some (m_TAU model) → prepare_model d model = Raise e → e = IndexError.
Proof.
  intros [tau Htau]. unfold prepare_model. rewrite Htau.
  repeat match goal with
         | |- mbind _ (pad_sequence ?v ?n) = Raise _ → _ =>
             let H := fresh in
             destruct (pad_sequence v n) eqn:H; cbn [mbind result_bind];
             [|intros [= <-]; by eapply pad_sequence_exn]
         end.
  done.
Qed.

Lemma prepare_model_incomplete (d : nat) (model : AtmModel) (tau : list R) :
  (1 ≤ d)%nat → m_TAU model = Some tau → ¬ complete_model model →
  raises (prepare_model d model).
Proof.
  intros Hd Htau Hinc. unfold prepare_model. rewrite Htau.
  assert (∀ v : list R, v = [] → pad_sequence v d = Raise IndexError) as Hpad.
  { intros v ->. apply pad_sequence_empty. lia. }
  repeat match goal with
         | |- raises (mbind _ (pad_sequence ?v ?n)) =>
             let H := fresh in
             destruct (pad_sequence v n) eqn:H; cbn [mbind result_bind];
             [|by eexists]
         end.
  exfalso. apply Hinc. unfold complete_model.
  repeat split;
    try (intros Hnil; rewrite Hpad in * by done; discriminate).
  exists tau. split; [done|].
  intros Hnil. rewrite Hpad in * by done. discriminate.
Qed.

Lemma mapM_raises {A B} (f : A → result B) (l : list A) (x : A) :
  x ∈ l → raises (f x) → raises (mapM f l).
Proof.
  intros Hin [e He]. induction l as [|y l IH]; [by apply elem_of_nil in Hin|].
  simpl. apply elem_of_cons in Hin as [->|Hin].
  - rewrite He. by exists e.
  - destruct (f y) as [z|e']; simpl; [|by exists e'].
    destruct (IH Hin) as [e'' ->]. by exists e''.
Qed.

Lemma mapM_exn_in {A B} (f : A → result B) (l : list A) (e0 e : exn) :
  (∀ x e', x ∈ l → f x = Raise e' → e' = e0) → mapM f l = Raise e → e = e0.
Proof.
  induction l as [|x l IH]; intros Hf; simpl; [done|].
  destruct (f x) as [y|e'] eqn:Hx; simpl.
  - destruct (mapM f l) as [ys|e''] eqn:Hl; simpl; [done|].
    intros [= <-]. apply IH; [|done].
    intros z e' Hz. apply Hf. by right.
  - intros [= <-]. eapply Hf; [|exact Hx]. by left.
Qed.

Lemma prepare_data_rows (models : list AtmModel) (d : nat) (rows : list Row) :
  mapM (prepare_model d) models = Ok rows →
  ∃ original, prepare_data models d = Ok original.
Proof.
  intros Hrows.
  pose proof (mapM_Forall _ _ _ _ (prepare_model_lengths d) Hrows) as Hlens.
  unfold prepare_data. rewrite Hrows. cbn [mbind result_bind].
  repeat match goal with
         | |- context [column_tensor ?l] =>
             let H := fresh in
             destruct (column_tensor_matrix l) as (? & H & _);
             rewrite H; clear H; cbn [mbind result_bind]
         end.
  repeat match goal with
         | |- context [torch_tensor2 (?sel <$> rows)] =>
             let H := fresh in
             destruct (torch_tensor2_matrix (sel <$> rows) d) as (? & H & _);
             [apply Forall_fmap; eapply Forall_impl; [exact Hlens|];
              simpl; tauto|];
             rewrite H; clear H; cbn [mbind result_bind]
         end.
  by eexists.
Qed.

Lemma load_models_TAU (readings : list (result AtmModel)) (m : AtmModel) :
  m ∈ load_models readings →
  ∃ tau, m_TAU m = Some tau ∧ length tau = length (m_RHOX m).
Proof.
  intros Hm. destruct (load_models_elem _ _ Hm) as (m0 & tau & _ & -> & Hl).
  by exists tau.
Qed.

Lemma fit_params_empty (name : string) (t : tensor) (n : nat) :
  matrix n 0 t → (1 ≤ n)%nat → fit_params name t = Raise RuntimeError.
Proof.
  intros (m & -> & Hn & Hd) Hn1.
  assert (m ≠ []) as Hm by (destruct m; simpl in *; [lia | done]).
  assert (concat m = []) as Hnil.
  { clear -Hd. induction Hd as [|row m Hrow _ IH]; [done|].
    simpl. rewrite IH. by destruct row. }
  unfold fit_params. cbv zeta.
  set (td := if in_log_params name then log_transform _ else _).
  assert (tdim td = 2%nat) as Htd.
  { unfold td. destruct (in_log_params name);
      [unfold log_transform; rewrite !tdim_tmap|]; by apply tdim_T2. }
  assert (tflat td = []) as Hflat.
  { unfold td, log_transform. destruct (in_log_params name);
      rewrite ?tflat_tmap, tflat_T2, Hnil; done. }
  rewrite decide_False by lia. unfold treduce. by rewrite Hflat.
Qed.

Lemma init_no_models (readings : list (result AtmModel)) (d : nat) :
  load_models readings = [] → init readings d = Raise ValueError.
Proof. intros Hnil. unfold init. by rewrite Hnil. Qed.

Lemma init_zero_depth (readings : list (result AtmModel)) :
  load_models readings ≠ [] → init readings 0 = Raise RuntimeError.
Proof.
  intros Hne. unfold init. set (models := load_models readings) in *.
  assert (1 ≤ length models)%nat as Hn1.
  { destruct models; simpl; [done | lia]. }
  rewrite decide_False by lia.
  destruct (mapM_total (prepare_model 0) models) as [rows Hrows].
  { apply Forall_forall. intros m Hm.
    destruct (load_models_TAU _ _ Hm) as (tau & Htau & _).
    unfold prepare_model. rewrite Htau.
    rewrite !pad_sequence_truncate by lia. cbn [mbind result_bind].
    by eexists. }
  destruct (prepare_data_rows _ _ _ Hrows) as [orig Hprep].
  rewrite Hprep. cbn [mbind result_bind].
  destruct (prepare_data_inv _ _ _ Hprep)
    as (t1 & t2 & t3 & t4 & t5 & t6 & t7 & t8 & t9 & t10 & t11 & ->
        & M1 & M2 & M3 & M4 & M5 & _).
  unfold setup_normalization. cbn [for_each].
  destruct (fit_params_ok "teff" _ _ _ M1) as [? ->]; [done..|].
  cbn [mbind result_bind].
  destruct (fit_params_ok "gravity" _ _ _ M2) as [? ->]; [done..|].
  cbn [mbind result_bind].
  destruct (fit_params_ok "feh" _ _ _ M3) as [? ->]; [done..|].
  cbn [mbind result_bind].
  destruct (fit_params_ok "afe" _ _ _ M4) as [? ->]; [done..|].
  cbn [mbind result_bind].
  by rewrite (fit_params_empty "RHOX" _ _ M5 Hn1).
Qed.

Lemma init_incomplete (readings : list (result AtmModel)) (d : nat) :
  (1 ≤ d)%nat → ¬ Forall complete_model (load_models readings) →
  init readings d = Raise IndexError.
Proof.
  intros Hd Hinc. unfold init. set (models := load_models readings) in *.
  assert (models ≠ []) as Hne by (intros Hnil; apply Hinc; by rewrite Hnil).
  assert (1 ≤ length models)%nat as Hn1.
  { destruct models; simpl; [done | lia]. }
  rewrite decide_False by lia.
  assert (∃ m, m ∈ models ∧ ¬ complete_model m) as (m & Hm & Hmi).
  { clear -Hinc. induction models as [|m ms IH]; [by destruct Hinc|].
    destruct (complete_model_dec m) as [Hc|Hc].
    - destruct IH as (m' & Hm' & Hi).
      + intros Hall. apply Hinc. by constructor.
      + exists m'. split; [by right | done].
    - exists m. split; [by left | done]. }
  assert (raises (mapM (prepare_model d) models)) as [e He].
  { apply (mapM_raises _ _ m Hm).
    destruct (load_models_TAU _ _ Hm) as (tau & Htau & _).
    by eapply prepare_model_incomplete. }
  assert (e = IndexError) as ->.
  { eapply mapM_exn_in; [|exact He].
    intros x e' Hx. apply prepare_model_exn.
    destruct (load_models_TAU _ _ Hx) as (tau & -> & _). by eexists. }
  unfold prepare_data. by rewrite He.
Qed.

Lemma Forall_complete_model_dec (models : list AtmModel) :
  Forall complete_model models ∨ ¬ Forall complete_model models.
Proof.
  induction models as [|m ms [IH|IH]].
  - left. constructor.
  - destruct (complete_model_dec m) as [Hc|Hc].
    + left. by constructor.
    + right. intros Hall. by apply Forall_cons in Hall as [? _].
  - right. intros Hall. by apply Forall_cons in Hall as [_ ?].
Qed.

(** X5: the construction raises [ValueError] exactly when no model loads,
    that is when every reading failed or has an opacity profile too short
    for the integration; this holds for every depth-point count. *)
Theorem init_value_error_iff :
  ∀ (readings : list (result AtmModel)) (d : nat),
    (init readings d = Raise ValueError ↔ load_models readings = [])
    ∧ (load_models readings = [] ↔
         Forall (λ r, raises (r ≫= calculate_tau)) readings).
Proof.
  intros readings d. split.
  - split; [|apply init_no_models].
    intros Hinit. destruct (load_models readings) as [|m ms] eqn:Hload; [done|].
    exfalso.
    assert (load_models readings ≠ []) as Hne by (by rewrite Hload).
    destruct d as [|d].
    + by rewrite init_zero_depth in Hinit.
    + destruct (Forall_complete_model_dec (load_models readings))
        as [Hall|Hinc].
      * destruct (init_ok readings (S d)) as [ds Hds]; [lia | done | done |].
        congruence.
      * rewrite init_incomplete in Hinit by (done || lia). done.
  - unfold load_models.
    induction readings as [|r rs IH]; [split; [constructor | done]|].
    cbn [omap list_omap].
    destruct (r ≫= calculate_tau) as [m|e] eqn:Hr.
    + split; [done|]. intros Hall. apply Forall_cons in Hall as [[e He] _].
      cbv beta in He. congruence.
    + fold (@omap list _). rewrite IH. split.
      * intros Hall. constructor; [by exists e | done].
      * intros Hall. by apply Forall_cons in Hall as [_ Hall].
Qed.

(** X6: with a depth-point count of zero the construction never returns a
    dataset: it raises [RuntimeError], from the minimum of an empty tensor,
    as soon as one model loads. *)
Theorem init_zero_depth_fails :
  ∀ readings : list (result AtmModel),
    (load_models readings ≠ [] → init readings 0 = Raise RuntimeError)
    ∧ ¬ ∃ ds, init readings 0 = Ok ds.
Proof.
  intros readings.
  split; [apply init_zero_depth|].
  intros [ds Hds].
  destruct (load_models readings) as [|m ms] eqn:Hload.
  - by rewrite init_no_models in Hds.
  - rewrite init_zero_depth in Hds by (by rewrite Hload). done.
Qed.

(** X7: with at least one depth point and at least one loaded model, the
    construction returns a dataset exactly when no loaded model has an empty
    profile; a loaded model with an empty profile is fatal, the
    construction then raises [IndexError]. *)
Theorem init_succeeds_iff :
  ∀ (readings : list (result AtmModel)) (d : nat),
    (1 ≤ d)%nat → load_models readings ≠ [] →
    ((∃ ds, init readings d = Ok ds) ↔
       Forall complete_model (load_models readings))
    ∧ (¬ Forall complete_model (load_models readings) →
         init readings d = Raise IndexError).
Proof.
  intros readings d Hd Hne.
  split; [|by apply init_incomplete].
  split; [|by apply init_ok].
  intros [ds Hds].
  destruct (Forall_complete_model_dec (load_models readings))
    as [Hall|Hinc]; [done|].
  by rewrite init_incomplete in Hds.
Qed.

Lemma sample_load :
  load_models [Ok sample_model] = [set_TAU [0; 3; 8]%R sample_model].
Proof.
  unfold load_models. cbn [omap list_omap mbind result_bind].
  by rewrite (calculate_tau_example sample_model).
Qed.

(** The sample model at three depth points. *)
Lemma init_succeeds_iff_witness :
  ((∃ ds, init [Ok sample_model] 3 = Ok ds) ↔
     Forall complete_model (load_models [Ok sample_model]))
  ∧ (¬ Forall complete_model (load_models [Ok sample_model]) →
       init [Ok sample_model] 3 = Raise IndexError).
Proof.
  apply (init_succeeds_iff [Ok sample_model] 3); [lia|].
  rewrite sample_load. discriminate.
Defined.

Lemma load_models_skip (l1 l2 : list (result AtmModel)) (r : result AtmModel) :
  raises (r ≫= calculate_tau) →
  load_models (l1 ++ r :: l2) = load_models (l1 ++ l2).
Proof.
  intros [e He]. unfold load_models.
  rewrite !omap_app. f_equal. cbn [omap list_omap]. by rewrite He.
Qed.

(** X8: a reading that failed, or a model with at least two column densities
    and fewer opacities, is skipped: the construction behaves as if that
    file were not there. *)
Theorem init_skips_failures :
  ∀ (l1 l2 : list (result AtmModel)) (r : result AtmModel) (d : nat),
    ((∃ e, r = Raise e)
     ∨ (∃ m, r = Ok m
             ∧ (2 ≤ length (m_RHOX m))%nat
             ∧ (length (m_ABROSS m) < length (m_RHOX m))%nat)) →
    load_models (l1 ++ r :: l2) = load_models (l1 ++ l2)
    ∧ init (l1 ++ r :: l2) d = init (l1 ++ l2) d.
Proof.
  intros l1 l2 r d Hr.
  assert (load_models (l1 ++ r :: l2) = load_models (l1 ++ l2)) as Hload.
  { apply load_models_skip. destruct Hr as [[e ->]|(m & -> & Hn & Hk)].
    - by exists e.
    - exists IndexError. cbn [mbind result_bind]. unfold calculate_tau.
      by rewrite tau_of_short. }
  split; [done|]. unfold init. by rewrite Hload.
Qed.

(** The sample model followed by a model whose opacities are too few. *)
Lemma init_skips_failures_witness :
  load_models ([Ok sample_model] ++ Ok short_abross_model :: [])
  = load_models ([Ok sample_model] ++ [])
  ∧ init ([Ok sample_model] ++ Ok short_abross_model :: []) 3
    = init ([Ok sample_model] ++ []) 3.
Proof.
  apply (init_skips_failures [Ok sample_model] [] (Ok short_abross_model) 3).
  right. exists short_abross_model.
  split; [reflexivity|]. simpl. lia.
Defined.

(** X9: the length of a constructed dataset is the number of models that
    loaded, at least one and at most the number of files read. *)
Theorem len_counts_loaded :
  ∀ (readings : list (result AtmModel)) (d : nat) (ds : KuruczDataset),
    init readings d = Ok ds →
    len ds = Ok (length (load_models readings))
    ∧ (1 ≤ length (load_models readings) ≤ length readings)%nat.
Proof.
  intros readings d ds Hinit.
  destruct (init_assembled _ _ _ Hinit)
    as (Hn & _ & _ & ((m & Hm & Hlm & _) & _) & _).
  split.
  - unfold len. rewrite Hm. unfold T2. by rewrite length_fmap, Hlm.
  - split; [done|]. apply load_models_length.
Qed.

(** The dataset built from the sample model alone. *)
Lemma len_counts_loaded_witness :
  ∃ ds,
    init [Ok sample_model] 3 = Ok ds
    ∧ len ds = Ok (length (load_models [Ok sample_model]))
    ∧ (1 ≤ length (load_models [Ok sample_model])
       ≤ length [Ok sample_model])%nat.
Proof.
  destruct sample_dataset as (ds & Hinit & _).
  exists ds. split; [exact Hinit|].
  apply (len_counts_loaded [Ok sample_model] 3 ds Hinit).
Defined.

(** ** The contents of the bundle *)

Lemma mapM_Forall2 {A B} (f : A → result B) (l : list A) (k : list B) :
  mapM f l = Ok k → Forall2 (λ x y, f x = Ok y) l k.
Proof.
  revert k. induction l as [|x l IH]; intros k; simpl.
  - intros [= <-]. constructor.
  - destruct (f x) as [y|] eqn:Hy; simpl; [|done].
    destruct (mapM f l) as [ys|]; simpl; [|done].
    intros [= <-]. constructor; [done | by apply IH].
Qed.

Lemma column_tensor_eq (l : list R) :
  column_tensor l = Ok (T2 ((λ r, [Fin r]) <$> l)).
Proof.
  unfold column_tensor, torch_tensor1, unsqueeze1, T2. do 2 f_equal.
  change (map (λ c, Tn [c]) (map (λ r, Sc (Fin r)) l))
    with ((λ c, Tn [c]) <$> ((λ r, Sc (Fin r)) <$> l)).
  by rewrite <- !list_fmap_compose.
Qed.

Lemma torch_tensor2_eq (ll : list (list R)) (d : nat) :
  Forall (λ l, length l = d) ll →
  torch_tensor2 ll = Ok (T2 ((λ l : list R, Fin <$> l) <$> ll)).
Proof.
  intros Hd. destruct ll as [|l ll']; [done|]. unfold torch_tensor2.
  apply Forall_cons in Hd as [Hl Hd].
  assert (forallb (λ l', length l' =? length l) ll' = true) as ->.
  { apply forallb_forall. intros l' Hl'. apply Nat.eqb_eq.
    rewrite Forall_forall in Hd. rewrite Hl.
    apply Hd. by apply list_elem_of_In. }
  f_equal. unfold T2. f_equal.
  change (map torch_tensor1 (l :: ll')) with (torch_tensor1 <$> l :: ll').
  rewrite <- list_fmap_compose. apply list_fmap_ext.
  intros _ x _. apply torch_tensor1_T1.
Qed.

Lemma prepare_model_inv (d : nat) (model : AtmModel) (row : Row) :
  prepare_model d model = Ok row →
  (∀ name sel, (name, sel) ∈ stellar_fields →
     ∃ rsel, (name, rsel) ∈
               [("teff", r_teff); ("gravity", r_gravity); ("feh", r_feh);
                ("afe", r_afe)]%string
             ∧ rsel row = sel model)
  ∧ (∀ name sel, (name, sel) ∈ sequence_fields →
       ∃ rsel, (name, rsel) ∈
                 [("RHOX", r_rhox); ("T", r_t); ("P", r_p); ("XNE", r_xne);
                  ("ABROSS", r_abross); ("ACCRAD", r_accrad);
                  ("TAU", r_tau)]%string
               ∧ pad_sequence (sel model) d = Ok (rsel row)).
Proof.
  unfold prepare_model.
  destruct (pad_sequence (m_RHOX model) d) as [rhox|] eqn:H1; simpl; [|done].
  destruct (pad_sequence (m_T model) d) as [t|] eqn:H2; simpl; [|done].
  destruct (pad_sequence (m_P model) d) as [p|] eqn:H3; simpl; [|done].
  destruct (pad_sequence (m_XNE model) d) as [xne|] eqn:H4; simpl; [|done].
  destruct (pad_sequence (m_ABROSS model) d) as [ab|] eqn:H5; simpl; [|done].
  destruct (pad_sequence (m_ACCRAD model) d) as [ac|] eqn:H6; simpl; [|done].
  destruct (m_TAU model) as [tau_raw|] eqn:Htau; simpl; [|done].
  destruct (pad_sequence tau_raw d) as [tau|] eqn:H7; simpl; [|done].
  intros [= <-]. split; intros name sel Hin.
  - unfold stellar_fields in Hin.
    repeat (apply elem_of_cons in Hin as [[= -> ->]|Hin];
            [eexists; split; [rewrite !elem_of_cons; eauto 10 | done]|]).
    by apply elem_of_nil in Hin.
  - unfold sequence_fields in Hin.
    repeat (apply elem_of_cons in Hin as [[= -> ->]|Hin];
            [eexists; split; [rewrite !elem_of_cons; eauto 10 |];
             simpl; rewrite ?Htau; done|]).
    by apply elem_of_nil in Hin.
Qed.

Lemma prepare_data_content (models : list AtmModel) (d : nat)
    (orig : list (string * tensor)) :
  prepare_data models d = Ok orig →
  ∃ rows,
    Forall2 (λ model row, prepare_model d model = Ok row) models rows
    ∧ orig.*1 = feature_names
    ∧ (∀ name rsel,
         (name, rsel) ∈ [("teff", r_teff); ("gravity", r_gravity);
                         ("feh", r_feh); ("afe", r_afe)]%string →
         dict_get orig name = Ok (T2 ((λ row, [Fin (rsel row)]) <$> rows)))
    ∧ (∀ name rsel,
         (name, rsel) ∈ [("RHOX", r_rhox); ("T", r_t); ("P", r_p);
                         ("XNE", r_xne); ("ABROSS", r_abross);
                         ("ACCRAD", r_accrad); ("TAU", r_tau)]%string →
         dict_get orig name
         = Ok (T2 ((λ row, Fin <$> rsel row) <$> rows))).
Proof.
  unfold prepare_data.
  destruct (mapM (prepare_model d) models) as [rows|] eqn:Hrows; [|done].
  pose proof (mapM_Forall _ _ _ _ (prepare_model_lengths d) Hrows) as Hall.
  cbn [mbind result_bind]. rewrite !column_tensor_eq. cbn [mbind result_bind].
  rewrite (torch_tensor2_eq (r_rhox <$> rows) d),
    (torch_tensor2_eq (r_t <$> rows) d), (torch_tensor2_eq (r_p <$> rows) d),
    (torch_tensor2_eq (r_xne <$> rows) d),
    (torch_tensor2_eq (r_abross <$> rows) d),
    (torch_tensor2_eq (r_accrad <$> rows) d),
    (torch_tensor2_eq (r_tau <$> rows) d);
    try (apply Forall_fmap; eapply Forall_impl; [exact Hall|]; simpl; tauto).
  cbn [mbind result_bind]. intros [= <-].
  exists rows. split; [by apply mapM_Forall2|]. split; [done|].
  split; intros name rsel Hin.
  - repeat (apply elem_of_cons in Hin as [[= -> ->]|Hin];
            [cbn; by rewrite <- list_fmap_compose|]).
    by apply elem_of_nil in Hin.
  - repeat (apply elem_of_cons in Hin as [[= -> ->]|Hin];
            [cbn; by rewrite <- list_fmap_compose|]).
    by apply elem_of_nil in Hin.
Qed.

(** The stages of a successful construction. *)
Lemma init_inv (readings : list (result AtmModel)) (d : nat)
    (ds : KuruczDataset) :
  init readings d = Ok ds →
  prepare_data (load_models readings) d = Ok (original ds)
  ∧ setup_normalization (original ds) = Ok (norm_params ds)
  ∧ normalize_all_data d (load_models readings) (original ds) (norm_params ds)
    = Ok ds.
Proof.
  unfold init. case_decide; [done|].
  destruct (prepare_data _ d) as [orig|] eqn:Hprep;
    cbn [mbind result_bind]; [|done].
  destruct (setup_normalization orig) as [nps|] eqn:Hsetup;
    cbn [mbind result_bind]; [|done].
  intros Hds.
  destruct (normalize_all_data_inv _ _ _ _ _ Hds) as (_ & -> & -> & _).
  done.
Qed.

(** The stellar columns of the bundle. *)
Lemma prepare_data_stellar (models : list AtmModel) (d : nat)
    (orig : list (string * tensor)) :
  prepare_data models d = Ok orig →
  ∀ name sel, (name, sel) ∈ stellar_fields →
    dict_get orig name = Ok (T2 ((λ model, [Fin (sel model)]) <$> models)).
Proof.
  intros Hprep name sel Hin.
  destruct (prepare_data_content _ _ _ Hprep) as (rows & Hrows & _ & Hcol & _).
  assert (∃ rsel,
            (name, rsel) ∈ [("teff", r_teff); ("gravity", r_gravity);
                            ("feh", r_feh); ("afe", r_afe)]%string
            ∧ Forall2 (λ model row, rsel row = sel model) models rows)
    as (rsel & Hrsel & Hsel).
  { unfold stellar_fields in Hin.
    repeat (apply elem_of_cons in Hin as [[= -> ->]|Hin];
            [eexists; split; [rewrite !elem_of_cons; eauto 10|];
             eapply Forall2_impl; [exact Hrows|];
             intros model row Hrow; cbv beta;
             unfold prepare_model in Hrow;
             repeat match type of Hrow with
                    | mbind _ ?r = Ok _ =>
                        destruct r; cbn [mbind result_bind] in Hrow; [|done]
                    end;
             by simplify_eq|]).
    by apply elem_of_nil in Hin. }
  rewrite (Hcol name rsel Hrsel). do 2 f_equal.
  clear -Hsel. induction Hsel as [|model row ms rs Hmr _ IH]; [done|].
  cbn. by rewrite Hmr, IH.
Qed.

(** X10: the bundle of a constructed dataset stores each stellar parameter
    as one column with a row per loaded model, in loading order; a missing
    [feh] or [afe] is stored as 0. *)
Theorem original_stellar_columns :
  ∀ (readings : list (result AtmModel)) (d : nat) (ds : KuruczDataset),
    init readings d = Ok ds →
    ∀ name sel, (name, sel) ∈ stellar_fields →
      dict_get (original ds) name
      = Ok (T2 ((λ model, [Fin (sel model)]) <$> load_models readings)).
Proof.
  intros readings d ds Hinit name sel Hin.
  destruct (init_inv _ _ _ Hinit) as (Hprep & _).
  by apply (prepare_data_stellar _ _ _ Hprep).
Qed.

(** The metallicity column of the dataset built from the sample model, whose
    [feh] is missing. *)
Lemma original_stellar_columns_witness :
  ∃ ds,
    init [Ok sample_model] 3 = Ok ds
    ∧ dict_get (original ds) "feh"
      = Ok (T2 ((λ model, [Fin (default 0%R (m_feh model))])
                  <$> load_models [Ok sample_model])).
Proof.
  destruct sample_dataset as (ds & Hinit & _).
  exists ds. split; [exact Hinit|].
  apply (original_stellar_columns [Ok sample_model] 3 ds Hinit "feh"%string
           (λ model, default 0%R (m_feh model))).
  unfold stellar_fields. rewrite !elem_of_cons. tauto.
Defined.

Lemma tindex_T2 (m : list (list xreal)) (i : nat) (row : list xreal) :
  m !! i = Some row → tindex (T2 m) (Z.of_nat i) = Ok (T1 row).
Proof.
  intros Hrow. unfold T2. cbn [tindex].
  apply py_index_nat. by rewrite list_lookup_fmap, Hrow.
Qed.

(** X11: the bundle of a constructed dataset stores each profile, the
    optical depth included, as a matrix whose row for a loaded model is
    that model's profile padded or cut to the depth-point count. *)
Theorem original_profile_rows :
  ∀ (readings : list (result AtmModel)) (d : nat) (ds : KuruczDataset),
    init readings d = Ok ds →
    ∀ name sel, (name, sel) ∈ sequence_fields →
      ∃ t,
        dict_get (original ds) name = Ok t
        ∧ matrix (length (load_models readings)) d t
        ∧ ∀ i model, load_models readings !! i = Some model →
            ∃ padded,
              pad_sequence (sel model) d = Ok padded
              ∧ tindex t (Z.of_nat i) = Ok (T1 (Fin <$> padded)).
Proof.
  intros readings d ds Hinit name sel Hin.
  destruct (init_inv _ _ _ Hinit) as (Hprep & _).
  destruct (prepare_data_content _ _ _ Hprep) as (rows & Hrows & _ & _ & Hseq).
  assert (∃ rsel,
            (name, rsel) ∈ [("RHOX", r_rhox); ("T", r_t); ("P", r_p);
                            ("XNE", r_xne); ("ABROSS", r_abross);
                            ("ACCRAD", r_accrad); ("TAU", r_tau)]%string
            ∧ Forall2 (λ model row, pad_sequence (sel model) d = Ok (rsel row))
                      (load_models readings) rows) as (rsel & Hrsel & Hsel).
  { assert (∀ rsel0,
              (∀ rsel', (name, rsel') ∈
                          [("RHOX", r_rhox); ("T", r_t); ("P", r_p);
                           ("XNE", r_xne); ("ABROSS", r_abross);
                           ("ACCRAD", r_accrad); ("TAU", r_tau)]%string →
                        rsel' = rsel0) →
              Forall2 (λ model row,
                         pad_sequence (sel model) d = Ok (rsel0 row))
                      (load_models readings) rows) as Hall.
    { intros rsel0 Huniq. eapply Forall2_impl; [exact Hrows|].
      intros model row Hrow. cbv beta.
      destruct (prepare_model_inv _ _ _ Hrow) as (_ & Hsq).
      destruct (Hsq name sel Hin) as (rsel' & Hrsel' & Hpad).
      by rewrite <- (Huniq _ Hrsel'). }
    unfold sequence_fields in Hin.
    rewrite !elem_of_cons in Hin. rewrite elem_of_nil in Hin.
    destruct Hin as [Hin|[Hin|[Hin|[Hin|[Hin|[Hin|[Hin|[]]]]]]]];
      injection Hin as -> _;
      (eexists; split; [rewrite !elem_of_cons; eauto 10|]);
      apply Hall; intros rsel' Hrsel';
      rewrite !elem_of_cons in Hrsel'; rewrite elem_of_nil in Hrsel';
      destruct Hrsel' as [H|[H|[H|[H|[H|[H|[H|[]]]]]]]];
      by inversion H. }
  eexists. split; [by apply Hseq|]. split.
  - eexists. split; [done|]. rewrite length_fmap.
    split; [symmetry; by eapply Forall2_length|].
    apply Forall_fmap, Forall_forall. intros row Hrow. unfold compose.
    rewrite length_fmap.
    apply list_elem_of_lookup in Hrow as [i Hi].
    destruct (Forall2_lookup_r _ _ _ _ _ Hsel Hi) as (model & _ & Hpad).
    by eapply pad_sequence_length.
  - intros i model Hmodel.
    destruct (Forall2_lookup_l _ _ _ _ _ Hsel Hmodel) as (row & Hrow & Hpad).
    exists (rsel row). split; [done|].
    apply tindex_T2. by rewrite list_lookup_fmap, Hrow.
Qed.

(** The optical-depth row of the dataset built from the sample model. *)
Lemma original_profile_rows_witness :
  ∃ ds,
    init [Ok sample_model] 3 = Ok ds
    ∧ ∃ t,
        dict_get (original ds) "TAU" = Ok t
        ∧ matrix (length (load_models [Ok sample_model])) 3 t
        ∧ ∀ i model, load_models [Ok sample_model] !! i = Some model →
            ∃ padded,
              pad_sequence (default [] (m_TAU model)) 3 = Ok padded
              ∧ tindex t (Z.of_nat i) = Ok (T1 (Fin <$> padded)).
Proof.
  destruct sample_dataset as (ds & Hinit & _).
  exists ds. split; [exact Hinit|].
  apply (original_profile_rows [Ok sample_model] 3 ds Hinit "TAU"%string
           (λ model, default [] (m_TAU model))).
  unfold sequence_fields. rewrite !elem_of_cons. tauto.
Defined.

(** ** The transform, further *)






Lemma transform_value_increasing (lg : bool) (v w : R) :
  (lg = true → (- eps < v)%R) → (v < w)%R →
  ∃ x x', transform_value lg (Fin v) = Fin x
          ∧ transform_value lg (Fin w) = Fin x' ∧ (x < x')%R.
Proof.
  intros Hv Hvw.
  rewrite (transform_value_fin lg v Hv).
  rewrite (transform_value_fin lg w) by (intros Hlg; specialize (Hv Hlg); lra).
  eexists _, _. split; [done|]. split; [done|].
  destruct lg; [|done]. specialize (Hv eq_refl).
  pose proof ln_10_pos as Hln.
  assert (ln (v + eps) < ln (w + eps))%R as Hlt by (apply ln_increasing; lra).
  assert (0 < / ln 10)%R as Hinv by (by apply Rinv_0_lt_compat).
  unfold Rdiv. nra.
Qed.





(** ** A feature with a single value *)

Lemma dict_get_elem {V} (d : list (string * V)) (k : string) (v : V) :
  dict_get d k = Ok v → (k, v) ∈ d.
Proof.
  induction d as [|[k' v'] d IH]; simpl; [done|].
  destruct (String.eqb_spec k k') as [->|Hne].
  - intros [= ->]. apply elem_of_cons. by left.
  - intros Hget. apply elem_of_cons. right. by apply IH.
Qed.

Lemma tdim_matrix (n d : nat) (t : tensor) : matrix n d t → (tdim t ≤ 2)%nat.
Proof.
  intros (m & -> & _). unfold T2, T1.
  destruct m as [|[|x row] m]; simpl; lia.
Qed.

(** Every normalised tensor of a constructed dataset is the entry of the
    bundle under its name, a matrix, normalised with the statistics fitted
    on that entry. *)
Lemma init_feature (readings : list (result AtmModel)) (d : nat)
    (ds : KuruczDataset) (name : string) (field : tensor) :
  init readings d = Ok ds →
  (name, field) ∈ normalized_features ds →
  ∃ data p n' d',
    dict_get (original ds) name = Ok data
    ∧ matrix n' d' data
    ∧ fit_params name data = Ok p
    ∧ norm_params ds !! name = Some p
    ∧ normalize (norm_params ds) name data = Ok field.
Proof.
  intros Hinit Hin.
  destruct (init_inv _ _ _ Hinit) as (Hprep & Hsetup & Hnorm).
  destruct (normalize_all_data_inv _ _ _ _ _ Hnorm) as (_ & _ & _ & Hfields).
  specialize (Hfields name field Hin).
  destruct (dict_get (original ds) name) as [data|] eqn:Hget;
    cbn [mbind result_bind] in Hfields; [|done].
  pose proof (dict_get_elem _ _ _ Hget) as Hdata.
  destruct (prepare_data_inv _ _ _ Hprep)
    as (t1 & t2 & t3 & t4 & t5 & t6 & t7 & t8 & t9 & t10 & t11 & Horig
        & M1 & M2 & M3 & M4 & M5 & M6 & M7 & M8 & M9 & M10 & M11).
  assert (NoDup (original ds).*1) as Hnd.
  { rewrite Horig. apply NoDup_ListNoDup. simpl.
    repeat (constructor; [simpl; intuition discriminate|]). constructor. }
  destruct (setup_normalization_lookup _ _ _ _ Hsetup Hnd Hdata)
    as (p & Hfit & Hp).
  assert (∃ n' d', matrix n' d' data) as (n' & d' & Hm).
  { rewrite Horig in Hdata.
    repeat (apply elem_of_cons in Hdata as [[= _ ->]|Hdata]; [eauto|]).
    by apply elem_of_nil in Hdata. }
  by exists data, p, n', d'.
Qed.

Lemma foldl_xmin_const (x : xreal) (xs : list xreal) :
  (∀ y, y ∈ xs → y = x) → foldl xmin x xs = x.
Proof.
  induction xs as [|y ys IH]; intros Hall; simpl; [done|].
  rewrite (Hall y) by (apply elem_of_cons; by left).
  assert (xmin x x = x) as ->.
  { destruct x; simpl; try done. f_equal. apply Rmin_left. lra. }
  apply IH. intros z Hz. apply Hall, elem_of_cons. by right.
Qed.

Lemma foldl_xmax_const (x : xreal) (xs : list xreal) :
  (∀ y, y ∈ xs → y = x) → foldl xmax x xs = x.
Proof.
  induction xs as [|y ys IH]; intros Hall; simpl; [done|].
  rewrite (Hall y) by (apply elem_of_cons; by left).
  assert (xmax x x = x) as ->.
  { destruct x; simpl; try done. f_equal. apply Rmax_left. lra. }
  apply IH. intros z Hz. apply Hall, elem_of_cons. by right.
Qed.

(** With the minimum and the maximum both equal to the transform of a
    value, that value is normalised to NaN: zero over zero, or a difference
    of equal infinities. *)
Lemma normalize_value_degenerate (lg : bool) (v : xreal) :
  normalize_value lg (transform_value lg v) (transform_value lg v) v = NaN.
Proof.
  unfold normalize_value.
  destruct (transform_value lg v) as [a| | |]; try reflexivity.
  cbn [xsub xmul xdiv].
  destruct (Req_dec_T (a - a) 0) as [_|Hne]; [|exfalso; apply Hne; lra].
  replace (2 * (a - a))%R with 0%R by lra.
  by rewrite Rsign_zero.
Qed.

(** A feature fitted on a tensor all of whose entries are one value is
    normalised to NaN in every entry. *)
Lemma constant_feature_nan (name : string) (data field : tensor)
    (p : NormParams) (nps : gmap string NormParams) (x0 : xreal) :
  (tdim data ≤ 2)%nat →
  fit_params name data = Ok p → nps !! name = Some p →
  normalize nps name data = Ok field →
  (∀ x, x ∈ tflat data → x = x0) →
  ∀ y, y ∈ tflat field → y = NaN.
Proof.
  intros Hdim Hfit Hp Hnorm Hconst y Hy.
  destruct (fit_params_flat _ _ _ Hdim Hfit) as (x & xs & Hflat & ->).
  rewrite (normalize_scalar _ _ _ _ _ _ Hp eq_refl eq_refl) in Hnorm.
  injection Hnorm as <-. cbn [log_scale] in Hy.
  rewrite tflat_tmap in Hy. apply list_elem_of_fmap in Hy as (v & -> & Hv).
  assert (∀ z, z ∈ x :: xs → z = x) as Hall.
  { intros z Hz. rewrite <- Hflat in Hz.
    rewrite (Hconst z Hz). symmetry. apply Hconst.
    rewrite Hflat. apply elem_of_cons. by left. }
  rewrite foldl_xmin_const, foldl_xmax_const.
  - rewrite <- (Hall v) by (by rewrite <- Hflat).
    apply normalize_value_degenerate.
  - intros z Hz. apply list_elem_of_fmap in Hz as (w & -> & Hw).
    f_equal. apply Hall, elem_of_cons. by right.
  - intros z Hz. apply list_elem_of_fmap in Hz as (w & -> & Hw).
    f_equal. apply Hall, elem_of_cons. by right.
Qed.

(** X15: a feature that takes one and the same value in every entry of the
    bundle, over all models and depth points, has max = min, and its
    normalised tensor in the constructed dataset is NaN in every entry. *)
Theorem constant_feature_normalises_to_nan :
  ∀ (readings : list (result AtmModel)) (d : nat) (ds : KuruczDataset)
    (name : string) (data field : tensor) (x0 : xreal),
    init readings d = Ok ds →
    (name, field) ∈ normalized_features ds →
    dict_get (original ds) name = Ok data →
    (∀ x, x ∈ tflat data → x = x0) →
    (∃ p, norm_params ds !! name = Some p ∧ np_min p = np_max p)
    ∧ ∀ y, y ∈ tflat field → y = NaN.
Proof.
  intros readings d ds name data field x0 Hinit Hin Hget Hconst.
  destruct (init_feature _ _ _ _ _ Hinit Hin)
    as (data' & p & n' & d' & Hget' & Hm & Hfit & Hp & Hnorm).
  rewrite Hget in Hget'. injection Hget' as <-.
  pose proof (tdim_matrix _ _ _ Hm) as Hdim.
  split; [|by eapply constant_feature_nan].
  exists p. split; [done|].
  destruct (fit_params_flat _ _ _ Hdim Hfit) as (x & xs & Hflat & ->).
  cbn [np_min np_max]. f_equal.
  assert (∀ z, z ∈ transform_value (in_log_params name) <$> xs →
               z = transform_value (in_log_params name) x) as Hall.
  { intros z Hz. apply list_elem_of_fmap in Hz as (w & -> & Hw). f_equal.
    rewrite (Hconst w), (Hconst x); [done|..]; rewrite Hflat, elem_of_cons;
      auto. }
  by rewrite foldl_xmin_const, foldl_xmax_const.
Qed.

(** The radiative acceleration of the sample model is 0 at every depth. *)
Lemma constant_feature_normalises_to_nan_witness :
  ∃ ds,
    init [Ok sample_model] 3 = Ok ds
    ∧ (∃ p, norm_params ds !! "ACCRAD"%string = Some p ∧ np_min p = np_max p)
    ∧ ∀ y, y ∈ tflat (ACCRAD ds) → y = NaN.
Proof.
  destruct sample_dataset as (ds & Hinit & _).
  exists ds. split; [exact Hinit|].
  destruct (init_inv _ _ _ Hinit) as (Hprep & _).
  rewrite sample_load in Hprep.
  apply (constant_feature_normalises_to_nan [Ok sample_model] 3 ds
           "ACCRAD"%string (T2 [[Fin 0; Fin 0; Fin 0]]) (ACCRAD ds) (Fin 0)
           Hinit).
  - unfold normalized_features. rewrite !elem_of_cons. tauto.
  - revert Hprep. generalize (original ds). intros orig [= <-]. reflexivity.
  - intros x Hx. cbn in Hx. rewrite !elem_of_cons in Hx.
    rewrite elem_of_nil in Hx. intuition.
Defined.

Lemma T1_inj (v w : list xreal) : T1 v = T1 w → v = w.
Proof.
  unfold T1. intros [= H]. revert w H.
  induction v as [|x v IH]; intros [|y w]; simpl; try done.
  intros [= -> H]. f_equal. by apply IH.
Qed.

Lemma elem_of_concat {A} (x : A) (ls : list (list A)) :
  x ∈ concat ls ↔ ∃ l, x ∈ l ∧ l ∈ ls.
Proof.
  induction ls as [|l ls IH]; simpl.
  - split; [by intros ?%elem_of_nil|]. by intros (l & _ & ?%elem_of_nil).
  - rewrite elem_of_app, IH. split.
    + intros [Hx|(l' & Hx & Hl')].
      * exists l. split; [done|]. apply elem_of_cons. by left.
      * exists l'. split; [done|]. apply elem_of_cons. by right.
    + intros (l' & Hx & [->|Hl']%elem_of_cons); [by left|].
      right. by exists l'.
Qed.

Lemma tindex_row_elem (n d : nat) (t : tensor) (idx : Z) (row : list xreal)
    (x : xreal) :
  matrix n d t → tindex t idx = Ok (T1 row) → x ∈ row → x ∈ tflat t.
Proof.
  intros (m & -> & Hn & _) Hidx Hx.
  unfold T2 in Hidx. cbn [tindex] in Hidx. rewrite py_index_fmap in Hidx.
  destruct (py_index m idx) as [row'|] eqn:Hrow; simpl in Hidx; [|done].
  assert (T1 row' = T1 row) as Heq by congruence.
  apply T1_inj in Heq as ->.
  assert (row ∈ m) as Hin.
  { unfold py_index in Hrow. destruct (_ && _); [|done].
    destruct (m !! _) eqn:Hl; [|done]. injection Hrow as ->.
    by eapply list_elem_of_lookup_2. }
  rewrite tflat_T2. apply elem_of_concat. eauto.
Qed.

(** X16: a stellar parameter with the same value in every loaded model, as
    a dataset of a single model has, or [feh] or [afe] when no model gives
    it, reaches every sample as NaN: in the input features of any valid
    index the column of that parameter is NaN. *)
Theorem shared_stellar_parameter_nan :
  ∀ (readings : list (result AtmModel)) (d : nat) (ds : KuruczDataset)
    (idx : Z),
    init readings d = Ok ds →
    (- Z.of_nat (length (load_models readings)) ≤ idx
     < Z.of_nat (length (load_models readings)))%Z →
    ∃ (a b c e : xreal) (tau : list xreal) (outputs : tensor),
      getitem ds idx = Ok (input_layout a b c e tau, outputs)
      ∧ ∀ name sel x,
          (name, sel) ∈ stellar_fields →
          (∀ m m', m ∈ load_models readings → m' ∈ load_models readings →
                   sel m = sel m') →
          (name, x) ∈ [("teff", a); ("gravity", b); ("feh", c);
                       ("afe", e)]%string →
          x = NaN.
Proof.
  intros readings d ds idx Hinit Hidx.
  destruct (init_assembled _ _ _ Hinit) as (_ & Hd & _ & Hasm & _).
  destruct (getitem_assembled _ _ _ _ Hasm Hd Hidx)
    as (a & b & c & e & tau & rhox & t & p & xne & abross & accrad
        & E1 & E2 & E3 & E4 & _ & _ & _ & _ & _ & _ & _ & _ & Hget).
  exists a, b, c, e, tau, (output_layout d [rhox; t; p; xne; abross; accrad]).
  split; [exact Hget|].
  intros name sel x Hsel Hshared Hx.
  destruct (init_inv _ _ _ Hinit) as (Hprep & _).
  pose proof (prepare_data_stellar _ _ _ Hprep name sel Hsel) as Hcol.
  destruct Hasm as (M1 & M2 & M3 & M4 & _).
  assert (∃ field,
            (name, field) ∈ normalized_features ds ∧ x ∈ tflat field)
    as (field & Hfield & Hxf).
  { rewrite !elem_of_cons in Hx. rewrite elem_of_nil in Hx.
    destruct Hx as [Hx|[Hx|[Hx|[Hx|[]]]]]; injection Hx as -> ->.
    - exists (teff ds). split; [unfold normalized_features;
                                rewrite !elem_of_cons; tauto|].
      eapply tindex_row_elem; [exact M1 | exact E1 |].
      by apply list_elem_of_singleton.
    - exists (gravity ds). split; [unfold normalized_features;
                                   rewrite !elem_of_cons; tauto|].
      eapply tindex_row_elem; [exact M2 | exact E2 |].
      by apply list_elem_of_singleton.
    - exists (feh ds). split; [unfold normalized_features;
                               rewrite !elem_of_cons; tauto|].
      eapply tindex_row_elem; [exact M3 | exact E3 |].
      by apply list_elem_of_singleton.
    - exists (afe ds). split; [unfold normalized_features;
                               rewrite !elem_of_cons; tauto|].
      eapply tindex_row_elem; [exact M4 | exact E4 |].
      by apply list_elem_of_singleton. }
  destruct (init_feature _ _ _ _ _ Hinit Hfield)
    as (data & q & n' & d' & Hdata & Hm & Hfit & Hq & Hnorm).
  rewrite Hcol in Hdata. injection Hdata as <-.
  destruct (load_models readings) as [|m0 ms] eqn:Hload; [simpl in Hidx; lia|].
  apply (constant_feature_nan name _ field q (norm_params ds)
           (Fin (sel m0)) (tdim_matrix _ _ _ Hm) Hfit Hq Hnorm); [|done].
  intros y Hy. rewrite tflat_T2 in Hy.
  apply elem_of_concat in Hy as (row & Hy & Hrow).
  apply list_elem_of_fmap in Hrow as (m & -> & Hmin).
  apply list_elem_of_singleton in Hy as ->. f_equal.
  apply Hshared; [done|]. apply elem_of_cons. by left.
Qed.

(** The only sample of the dataset built from the sample model alone. *)
Lemma shared_stellar_parameter_nan_witness :
  ∃ ds,
    init [Ok sample_model] 3 = Ok ds
    ∧ ∃ (a b c e : xreal) (tau : list xreal) (outputs : tensor),
        getitem ds 0 = Ok (input_layout a b c e tau, outputs)
        ∧ ∀ name sel x,
            (name, sel) ∈ stellar_fields →
            (∀ m m', m ∈ load_models [Ok sample_model] →
                     m' ∈ load_models [Ok sample_model] → sel m = sel m') →
            (name, x) ∈ [("teff", a); ("gravity", b); ("feh", c);
                         ("afe", e)]%string →
            x = NaN.
Proof.
  destruct sample_dataset as (ds & Hinit & _).
  exists ds. split; [exact Hinit|].
  apply (shared_stellar_parameter_nan [Ok sample_model] 3 ds 0 Hinit).
  rewrite sample_load. simpl. lia.
Defined.

(** ** Indexing a dataset *)

Lemma py_index_out_of_range {A} (l : list A) (i : Z) :
  (i < - Z.of_nat (length l) ∨ Z.of_nat (length l) ≤ i)%Z →
  py_index l i = Raise IndexError.
Proof.
  intros Hi. unfold py_index.
  destruct (_ && _) eqn:E; [|done].
  apply andb_true_iff in E as [E1 E2].
  apply Z.leb_le in E1. apply Z.ltb_lt in E2.
  destruct (Z.ltb_spec i 0); lia.
Qed.

Lemma py_index_wrap {A} (l : list A) (i : Z) :
  (- Z.of_nat (length l) ≤ i < 0)%Z →
  py_index l i = py_index l (i + Z.of_nat (length l)).
Proof.
  intros Hi. unfold py_index.
  destruct (Z.ltb_spec i 0) as [_|?]; [|lia].
  destruct (Z.ltb_spec (i + Z.of_nat (length l)) 0) as [?|_]; [lia|].
  by replace (Z.of_nat (length l) + i)%Z with (i + Z.of_nat (length l))%Z
    by lia.
Qed.

Lemma tindex_wrap (n d : nat) (t : tensor) (idx : Z) :
  matrix n d t → (- Z.of_nat n ≤ idx < 0)%Z →
  tindex t idx = tindex t (idx + Z.of_nat n).
Proof.
  intros (m & -> & Hn & _) Hidx. unfold T2. cbn [tindex].
  rewrite (py_index_wrap _ idx); rewrite length_fmap, Hn; [done | lia].
Qed.

(** X17: on a constructed dataset of [N] loaded models, [__getitem__] with
    an index below [-N] or from [N] on raises IndexError. *)
Theorem getitem_out_of_range :
  ∀ (readings : list (result AtmModel)) (d : nat) (ds : KuruczDataset)
    (idx : Z),
    init readings d = Ok ds →
    (idx < - Z.of_nat (length (load_models readings))
     ∨ Z.of_nat (length (load_models readings)) ≤ idx)%Z →
    getitem ds idx = Raise IndexError.
Proof.
  intros readings d ds idx Hinit Hidx.
  destruct (init_assembled _ _ _ Hinit) as (_ & _ & _ & Hasm & _).
  destruct Hasm as (_&_&_&_&_&_&_&_&_&_& (m & Hm & Hn & _)).
  unfold getitem. rewrite Hm. unfold T2. cbn [tindex].
  rewrite py_index_out_of_range; [done|].
  by rewrite length_fmap, Hn.
Qed.

(** Index 1 of the dataset built from the sample model alone. *)
Lemma getitem_out_of_range_witness :
  ∃ ds,
    init [Ok sample_model] 3 = Ok ds ∧ getitem ds 1 = Raise IndexError.
Proof.
  destruct sample_dataset as (ds & Hinit & _).
  exists ds. split; [exact Hinit|].
  apply (getitem_out_of_range [Ok sample_model] 3 ds 1 Hinit).
  rewrite sample_load. simpl. lia.
Defined.

(** X18: on a constructed dataset of [N] loaded models, a negative index
    from [-N] on counts from the end: [__getitem__] returns for [idx] what
    it returns for [idx + N]. *)
Theorem getitem_negative_index :
  ∀ (readings : list (result AtmModel)) (d : nat) (ds : KuruczDataset)
    (idx : Z),
    init readings d = Ok ds →
    (- Z.of_nat (length (load_models readings)) ≤ idx < 0)%Z →
    getitem ds idx
    = getitem ds (idx + Z.of_nat (length (load_models readings))).
Proof.
  intros readings d ds idx Hinit Hidx.
  destruct (init_assembled _ _ _ Hinit) as (_ & _ & _ & Hasm & _).
  destruct Hasm as (M1 & M2 & M3 & M4 & M5 & M6 & M7 & M8 & M9 & M10 & M11).
  unfold getitem.
  by rewrite (tindex_wrap _ _ _ _ M1 Hidx), (tindex_wrap _ _ _ _ M2 Hidx),
    (tindex_wrap _ _ _ _ M3 Hidx), (tindex_wrap _ _ _ _ M4 Hidx),
    (tindex_wrap _ _ _ _ M5 Hidx), (tindex_wrap _ _ _ _ M6 Hidx),
    (tindex_wrap _ _ _ _ M7 Hidx), (tindex_wrap _ _ _ _ M8 Hidx),
    (tindex_wrap _ _ _ _ M9 Hidx), (tindex_wrap _ _ _ _ M10 Hidx),
    (tindex_wrap _ _ _ _ M11 Hidx).
Qed.

(** Index -1 of the dataset built from the sample model alone. *)
Lemma getitem_negative_index_witness :
  ∃ ds,
    init [Ok sample_model] 3 = Ok ds
    ∧ getitem ds (-1)
      = getitem ds (-1 + Z.of_nat (length (load_models [Ok sample_model]))).
Proof.
  destruct sample_dataset as (ds & Hinit & _).
  exists ds. split; [exact Hinit|].
  apply (getitem_negative_index [Ok sample_model] 3 ds (-1) Hinit).
  rewrite sample_load. simpl. lia.
Defined.

(** ** Statistics of a constructed dataset *)

Lemma feature_names_fields (ds : KuruczDataset) (name : string) :
  name ∈ feature_names ↔ ∃ field, (name, field) ∈ normalized_features ds.
Proof.
  unfold feature_names, normalized_features. split.
  - intros Hin.
    repeat (apply elem_of_cons in Hin as [->|Hin];
            [eexists; rewrite !elem_of_cons; eauto 12|]).
    by apply elem_of_nil in Hin.
  - intros (field & Hin).
    repeat (apply elem_of_cons in Hin as [[= -> _]|Hin];
            [rewrite !elem_of_cons; tauto|]).
    by apply elem_of_nil in Hin.
Qed.

Lemma init_scalar_stats (readings : list (result AtmModel)) (d : nat)
    (ds : KuruczDataset) (name : string) :
  init readings d = Ok ds → name ∈ feature_names →
  ∃ mn mx,
    norm_params ds !! name
    = Some (mkNormParams (Sc mn) (Sc mx) (in_log_params name)).
Proof.
  intros Hinit (field & Hfield)%(feature_names_fields ds).
  destruct (init_feature _ _ _ _ _ Hinit Hfield)
    as (data & p & n' & d' & _ & Hm & Hfit & Hp & _).
  destruct (fit_params_flat _ _ _ (tdim_matrix _ _ _ Hm) Hfit)
    as (x & xs & _ & ->).
  eauto.
Qed.

Lemma setup_normalization_dom (orig : list (string * tensor))
    (nps : gmap string NormParams) (name : string) :
  setup_normalization orig = Ok nps →
  is_Some (nps !! name) ↔ name ∈ orig.*1.
Proof.
  unfold setup_normalization.
  assert (∀ acc,
            for_each (λ norm_params '(param_name, data),
                        params ← fit_params param_name data;
                        Ok (<[param_name := params]> norm_params))
                     orig acc = Ok nps →
            is_Some (nps !! name) ↔ is_Some (acc !! name) ∨ name ∈ orig.*1)
    as Hgen.
  { induction orig as [|[k t] rest IH]; intros acc; cbn [for_each].
    - intros [= <-]. simpl. rewrite elem_of_nil. tauto.
    - destruct (fit_params k t) as [q|]; cbn [mbind result_bind]; [|done].
      intros Hrun. rewrite (IH _ Hrun). simpl. rewrite elem_of_cons.
      destruct (decide (name = k)) as [->|Hne].
      + rewrite lookup_insert_eq. split; [|by eauto]. auto.
      + rewrite lookup_insert_ne by done. tauto. }
  intros Hrun. rewrite (Hgen _ Hrun), lookup_empty.
  split; [|by auto]. intros [[? [=]]|?]; done.
Qed.

(** X19: the statistics of a constructed dataset have exactly the eleven
    feature names as keys; every entry holds a 0-dim minimum and maximum,
    and its log flag is set exactly for teff, RHOX, P, XNE, ABROSS, ACCRAD
    and TAU. *)
Theorem norm_params_features :
  ∀ (readings : list (result AtmModel)) (d : nat) (ds : KuruczDataset),
    init readings d = Ok ds →
    (∀ name, is_Some (norm_params ds !! name) ↔ name ∈ feature_names)
    ∧ ∀ name p, norm_params ds !! name = Some p →
        (∃ mn mx, np_min p = Sc mn ∧ np_max p = Sc mx)
        ∧ (log_scale p = true ↔ name ∈ log_params).
Proof.
  intros readings d ds Hinit.
  destruct (init_inv _ _ _ Hinit) as (Hprep & Hsetup & _).
  destruct (prepare_data_content _ _ _ Hprep) as (_ & _ & Hnames & _).
  assert (∀ name, is_Some (norm_params ds !! name) ↔ name ∈ feature_names)
    as Hdom.
  { intros name. by rewrite (setup_normalization_dom _ _ _ Hsetup), Hnames. }
  split; [done|].
  intros name p Hp.
  assert (name ∈ feature_names) as Hname by (apply Hdom; eauto).
  destruct (init_scalar_stats _ _ _ _ Hinit Hname) as (mn & mx & Hq).
  rewrite Hp in Hq. injection Hq as ->. cbn [np_min np_max log_scale].
  split; [eauto|].
  unfold in_log_params. rewrite existsb_exists. split.
  - intros (k & Hk & ->%String.eqb_eq). by apply list_elem_of_In.
  - intros Hin. exists name. split; [by apply list_elem_of_In|].
    apply String.eqb_refl.
Qed.

(** The statistics of the dataset built from the sample model alone. *)
Lemma norm_params_features_witness :
  ∃ ds,
    init [Ok sample_model] 3 = Ok ds
    ∧ (∀ name, is_Some (norm_params ds !! name) ↔ name ∈ feature_names)
    ∧ ∀ name p, norm_params ds !! name = Some p →
        (∃ mn mx, np_min p = Sc mn ∧ np_max p = Sc mx)
        ∧ (log_scale p = true ↔ name ∈ log_params).
Proof.
  destruct sample_dataset as (ds & Hinit & _).
  exists ds. split; [exact Hinit|].
  exact (norm_params_features [Ok sample_model] 3 ds Hinit).
Defined.

(** ** Back to physical units: the inputs *)

Lemma tslice_cols_T2 (m : list (list xreal)) (lo hi : nat) :
  m ≠ [] →
  tslice_cols (T2 m) lo hi
  = Ok (T2 ((λ row : list xreal, take (hi - lo) (drop lo row)) <$> m)).
Proof.
  intros Hm. unfold tslice_cols. rewrite (tdim_T2 _ Hm).
  rewrite decide_False by lia. unfold T2 at 1.
  rewrite (mapM_ok _ (λ t, match t with
                           | Sc x => Sc x
                           | Tn cs => Tn (take (hi - lo) (drop lo cs))
                           end)).
  - simpl. f_equal. unfold T2. f_equal. rewrite <- !list_fmap_compose.
    apply list_fmap_ext. intros _ row _. simpl. unfold T1. f_equal.
    by rewrite fmap_take, fmap_drop.
  - apply Forall_fmap, Forall_forall. by intros row _.
Qed.

(** On a matrix, with 0-dim statistics for the four stellar parameters,
    [inverse_transform_inputs] denormalises the first four columns. *)
Lemma inverse_transform_inputs_T2 (ds : KuruczDataset)
    (m : list (list xreal)) (p1 p2 p3 p4 : NormParams)
    (mn1 mx1 mn2 mx2 mn3 mx3 mn4 mx4 : xreal) :
  m ≠ [] →
  norm_params ds !! "teff"%string = Some p1 →
  np_min p1 = Sc mn1 → np_max p1 = Sc mx1 →
  norm_params ds !! "gravity"%string = Some p2 →
  np_min p2 = Sc mn2 → np_max p2 = Sc mx2 →
  norm_params ds !! "feh"%string = Some p3 →
  np_min p3 = Sc mn3 → np_max p3 = Sc mx3 →
  norm_params ds !! "afe"%string = Some p4 →
  np_min p4 = Sc mn4 → np_max p4 = Sc mx4 →
  let column (p : NormParams) (mn mx : xreal) (k : nat) :=
    T2 ((λ row : list xreal,
           denormalize_value (log_scale p) mn mx <$> take 1 (drop k row))
          <$> m) in
  inverse_transform_inputs ds (T2 m)
  = Ok (<["afe"%string := column p4 mn4 mx4 3%nat]>
          (<["feh"%string := column p3 mn3 mx3 2%nat]>
             (<["gravity"%string := column p2 mn2 mx2 1%nat]>
                {[ "teff"%string := column p1 mn1 mx1 0%nat ]}))).
Proof.
  intros Hm H1 N1 X1 H2 N2 X2 H3 N3 X3 H4 N4 X4 column.
  unfold inverse_transform_inputs. cbv zeta.
  rewrite (tdim_T2 _ Hm). rewrite decide_False by lia.
  rewrite !(tslice_cols_T2 _ _ _ Hm). cbn [mbind result_bind].
  rewrite (denormalize_scalar _ _ _ _ _ _ H1 N1 X1).
  rewrite (denormalize_scalar _ _ _ _ _ _ H2 N2 X2).
  rewrite (denormalize_scalar _ _ _ _ _ _ H3 N3 X3).
  rewrite (denormalize_scalar _ _ _ _ _ _ H4 N4 X4).
  cbn [mbind result_bind]. unfold column.
  by rewrite !tmap_T2, <- !list_fmap_compose.
Qed.

(** X20: [inverse_transform_inputs] reads the first four columns of its
    input only: on a matrix it returns, or raises, what it does on the
    matrix cut to four columns, so the optical-depth column of an input
    sample has no effect. *)
Theorem inverse_transform_inputs_four_columns :
  ∀ (ds : KuruczDataset) (m : list (list xreal)),
    inverse_transform_inputs ds (T2 m)
    = inverse_transform_inputs ds (T2 (take 4 <$> m)).
Proof.
  intros ds m. destruct (decide (m = [])) as [->|Hm]; [done|].
  assert (take 4 <$> m ≠ []) as Hm' by (by destruct m).
  unfold inverse_transform_inputs. cbv zeta.
  rewrite (tdim_T2 _ Hm), (tdim_T2 _ Hm').
  rewrite !(tslice_cols_T2 _ _ _ Hm), !(tslice_cols_T2 _ _ _ Hm').
  rewrite <- !list_fmap_compose.
  assert (∀ lo : nat, (lo < 4)%nat →
            (λ row : list xreal, take (S lo - lo) (drop lo row)) <$> m
            = ((λ row : list xreal, take (S lo - lo) (drop lo row)) ∘ take 4)
                <$> m) as Hcut.
  { intros lo Hlo. apply list_fmap_ext. intros _ row _. simpl.
    replace (S lo - lo)%nat with 1%nat by lia.
    rewrite skipn_firstn_comm, take_take. f_equal. lia. }
  by rewrite <- (Hcut 0%nat), <- (Hcut 1%nat), <- (Hcut 2%nat),
    <- (Hcut 3%nat) by lia.
Qed.

Lemma foldl_xmin_all_fin (xs : list xreal) (a : R) :
  (∀ y, y ∈ xs → ∃ r, y = Fin r) → ∃ b, foldl xmin (Fin a) xs = Fin b.
Proof.
  revert a. induction xs as [|y ys IH]; intros a Hall; simpl; [eauto|].
  destruct (Hall y) as [r ->]; [apply elem_of_cons; by left|].
  simpl. apply IH. intros z Hz. apply Hall, elem_of_cons. by right.
Qed.

Lemma foldl_xmax_all_fin (xs : list xreal) (a : R) :
  (∀ y, y ∈ xs → ∃ r, y = Fin r) → ∃ b, foldl xmax (Fin a) xs = Fin b.
Proof.
  revert a. induction xs as [|y ys IH]; intros a Hall; simpl; [eauto|].
  destruct (Hall y) as [r ->]; [apply elem_of_cons; by left|].
  simpl. apply IH. intros z Hz. apply Hall, elem_of_cons. by right.
Qed.

Lemma concat_singletons {A B} (f : A → B) (l : list A) :
  concat ((λ x, [f x]) <$> l) = f <$> l.
Proof. induction l as [|x l IH]; [done|]. simpl. f_equal. exact IH. Qed.

Lemma transform_value_inj (lg : bool) (v w : R) :
  (lg = true → (- eps < v)%R) → (lg = true → (- eps < w)%R) → v ≠ w →
  ∃ x x', transform_value lg (Fin v) = Fin x
          ∧ transform_value lg (Fin w) = Fin x' ∧ x ≠ x'.
Proof.
  intros Hv Hw Hne.
  destruct (Rtotal_order v w) as [Hlt|[?|Hgt]]; [|done|].
  - destruct (transform_value_increasing lg v w Hv Hlt)
      as (x & x' & Hx & Hx' & Hxx).
    exists x, x'. split; [done|]. split; [done|]. lra.
  - destruct (transform_value_increasing lg w v Hw Hgt)
      as (x' & x & Hx' & Hx & Hxx).
    exists x, x'. split; [done|]. split; [done|]. lra.
Qed.

(** The statistics and the normalised column of a stellar parameter that
    takes two different values among the loaded models. *)
Lemma stellar_feature (readings : list (result AtmModel)) (d : nat)
    (ds : KuruczDataset) (name : string) (sel : AtmModel → R)
    (field : tensor) :
  init readings d = Ok ds →
  (name, sel) ∈ stellar_fields →
  (name, field) ∈ normalized_features ds →
  (in_log_params name = true →
   ∀ m, m ∈ load_models readings → (- eps < sel m)%R) →
  (∃ m m', m ∈ load_models readings ∧ m' ∈ load_models readings
           ∧ sel m ≠ sel m') →
  ∃ mn mx,
    mn ≠ mx
    ∧ norm_params ds !! name
      = Some (mkNormParams (Sc (Fin mn)) (Sc (Fin mx)) (in_log_params name))
    ∧ field
      = T2 ((λ m, [normalize_value (in_log_params name) (Fin mn) (Fin mx)
                     (Fin (sel m))]) <$> load_models readings).
Proof.
  intros Hinit Hsel Hfield Hpos (m1 & m2 & Hm1 & Hm2 & Hne).
  destruct (init_feature _ _ _ _ _ Hinit Hfield)
    as (data & p & n' & d' & Hdata & Hm & Hfit & Hp & Hnorm).
  destruct (init_inv _ _ _ Hinit) as (Hprep & _).
  rewrite (prepare_data_stellar _ _ _ Hprep name sel Hsel) in Hdata.
  injection Hdata as <-.
  destruct (fit_params_flat _ _ _ (tdim_matrix _ _ _ Hm) Hfit)
    as (x & xs & Hflat & ->).
  rewrite tflat_T2, (concat_singletons (λ m, Fin (sel m))) in Hflat.
  set (lg := in_log_params name) in *.
  assert (∀ y, y ∈ transform_value lg x :: (transform_value lg <$> xs) →
               ∃ m, m ∈ load_models readings
                    ∧ y = transform_value lg (Fin (sel m))) as Hfrom.
  { intros y Hy. rewrite <- fmap_cons, <- Hflat in Hy.
    apply list_elem_of_fmap in Hy as (z & -> & Hz).
    apply list_elem_of_fmap in Hz as (m & -> & Hmin). eauto. }
  assert (∀ m, m ∈ load_models readings →
               transform_value lg (Fin (sel m))
               ∈ transform_value lg x :: (transform_value lg <$> xs)) as Hto.
  { intros m Hmin. rewrite <- fmap_cons, <- Hflat.
    apply list_elem_of_fmap. exists (Fin (sel m)). split; [done|].
    apply list_elem_of_fmap. eauto. }
  assert (∀ y, y ∈ transform_value lg x :: (transform_value lg <$> xs) →
               ∃ r, y = Fin r) as Hfin.
  { intros y (m & Hmin & ->)%Hfrom.
    rewrite transform_value_fin; [eauto|]. intros Hlg. by apply Hpos. }
  destruct (Hfin (transform_value lg x)) as [x0 Hx0];
    [apply elem_of_cons; by left|].
  destruct (foldl_xmin_all_fin (transform_value lg <$> xs) x0) as [mn Hmn].
  { intros y Hy. apply Hfin, elem_of_cons. by right. }
  destruct (foldl_xmax_all_fin (transform_value lg <$> xs) x0) as [mx Hmx].
  { intros y Hy. apply Hfin, elem_of_cons. by right. }
  rewrite Hx0, Hmn, Hmx in Hp.
  destruct (fold_bounds _ _ _ _ Hmn Hmx) as (_ & _ & Hbound).
  rewrite <- Hx0 in Hbound.
  exists mn, mx. split; [|split; [done|]].
  - destruct (transform_value_inj lg (sel m1) (sel m2))
      as (r1 & r2 & Hr1 & Hr2 & Hr); [intros; by apply Hpos..|done|].
    destruct (Hbound _ (Hto m1 Hm1)) as (r1' & E1 & B1).
    destruct (Hbound _ (Hto m2 Hm2)) as (r2' & E2 & B2).
    rewrite Hr1 in E1. rewrite Hr2 in E2.
    injection E1 as <-. injection E2 as <-. lra.
  - rewrite (normalize_scalar _ _ _ _ _ _ Hp eq_refl eq_refl) in Hnorm.
    cbn [log_scale] in Hnorm. rewrite tmap_T2, <- list_fmap_compose in Hnorm.
    by injection Hnorm as <-.
Qed.

Lemma fmap_const_replicate {A B} (c : B) (l : list A) :
  (λ _, c) <$> l = replicate (length l) c.
Proof. induction l as [|x l IH]; [done|]. simpl. f_equal. exact IH. Qed.

Lemma input_layout_T2 (a b c e : xreal) (tau : list xreal) :
  input_layout a b c e tau = T2 ((λ x, [a; b; c; e; x]) <$> tau).
Proof. unfold input_layout, T2. by rewrite <- list_fmap_compose. Qed.

(** X21: the input features of a sample, passed to
    [inverse_transform_inputs], give back the stellar parameter of the
    sample's model, once per depth row, whenever that parameter takes two
    different values among the loaded models and, for teff, every loaded
    model has [teff > -1e-30]; exactly, in real arithmetic.  The other
    three parameters need not satisfy this. *)
Theorem inverse_transform_inputs_getitem :
  ∀ (readings : list (result AtmModel)) (d : nat) (ds : KuruczDataset)
    (i : nat) (model : AtmModel) (name : string) (sel : AtmModel → R),
    init readings d = Ok ds →
    load_models readings !! i = Some model →
    (name, sel) ∈ stellar_fields →
    (in_log_params name = true →
     ∀ m, m ∈ load_models readings → (- eps < sel m)%R) →
    (∃ m m', m ∈ load_models readings ∧ m' ∈ load_models readings
             ∧ sel m ≠ sel m') →
    ∃ inputs outputs res,
      getitem ds (Z.of_nat i) = Ok (inputs, outputs)
      ∧ inverse_transform_inputs ds inputs = Ok res
      ∧ res !! name = Some (T2 (replicate d [Fin (sel model)])).
Proof.
  intros readings d ds i model name sel Hinit Hmodel Hsel Hpos Hdiff.
  pose proof (lookup_lt_Some _ _ _ Hmodel) as Hi.
  destruct (init_assembled _ _ _ Hinit) as (_ & Hd & _ & Hasm & _).
  destruct (getitem_assembled _ _ _ (Z.of_nat i) Hasm Hd ltac:(lia))
    as (a & b & c & e & tau & rhox & t & p & xne & abross & accrad
        & E1 & E2 & E3 & E4 & _ & _ & _ & _ & _ & _ & _ & Hlen & Hget).
  assert (length tau = d) as Htau by (by apply Forall_cons in Hlen as [? _]).
  assert ((λ x, [a; b; c; e; x]) <$> tau ≠ []) as Hrows.
  { destruct tau; simpl in *; [lia | done]. }
  destruct (init_scalar_stats _ _ _ "teff" Hinit) as (mn1 & mx1 & P1);
    [unfold feature_names; rewrite !elem_of_cons; tauto|].
  destruct (init_scalar_stats _ _ _ "gravity" Hinit) as (mn2 & mx2 & P2);
    [unfold feature_names; rewrite !elem_of_cons; tauto|].
  destruct (init_scalar_stats _ _ _ "feh" Hinit) as (mn3 & mx3 & P3);
    [unfold feature_names; rewrite !elem_of_cons; tauto|].
  destruct (init_scalar_stats _ _ _ "afe" Hinit) as (mn4 & mx4 & P4);
    [unfold feature_names; rewrite !elem_of_cons; tauto|].
  eexists _, _, _. split; [exact Hget|].
  rewrite input_layout_T2.
  split.
  { exact (inverse_transform_inputs_T2 ds _ _ _ _ _ _ _ _ _ _ _ _ _ Hrows
             P1 eq_refl eq_refl P2 eq_refl eq_refl
             P3 eq_refl eq_refl P4 eq_refl eq_refl). }
  cbv beta zeta. rewrite <- !list_fmap_compose. cbn [log_scale].
  assert (∀ field (x : xreal),
            (name, field) ∈ normalized_features ds →
            tindex field (Z.of_nat i) = Ok (T1 [x]) →
            ∀ mn mx,
              norm_params ds !! name
              = Some (mkNormParams (Sc mn) (Sc mx) (in_log_params name)) →
              denormalize_value (in_log_params name) mn mx x
              = Fin (sel model)) as Hcol.
  { intros field x Hfield Hx mn mx Hq.
    destruct (stellar_feature _ _ _ _ _ _ Hinit Hsel Hfield Hpos Hdiff)
      as (mn' & mx' & Hne & Hq' & ->).
    rewrite Hq in Hq'. injection Hq' as -> ->.
    rewrite (tindex_T2 _ i [normalize_value (in_log_params name) (Fin mn')
                              (Fin mx') (Fin (sel model))]) in Hx
      by (by rewrite list_lookup_fmap, Hmodel).
    assert (T1 [normalize_value (in_log_params name) (Fin mn') (Fin mx')
                  (Fin (sel model))] = T1 [x]) as Heq by congruence.
    apply T1_inj in Heq. injection Heq as <-.
    apply denormalize_normalize_value; [done|].
    intros Hlg. apply Hpos; [done|]. by eapply list_elem_of_lookup_2. }
  rewrite <- Htau, <- (fmap_const_replicate [Fin (sel model)] tau).
  unfold stellar_fields in Hsel. rewrite !elem_of_cons in Hsel.
  rewrite elem_of_nil in Hsel.
  destruct Hsel as [Hs|[Hs|[Hs|[Hs|[]]]]]; injection Hs as -> ->.
  - rewrite !lookup_insert_ne by done. rewrite lookup_singleton_eq.
    do 2 f_equal. apply list_fmap_ext. intros _ y _. simpl. f_equal.
    apply (Hcol (teff ds) a); [|done..].
    unfold normalized_features. rewrite !elem_of_cons. tauto.
  - rewrite !lookup_insert_ne by done. rewrite lookup_insert_eq.
    do 2 f_equal. apply list_fmap_ext. intros _ y _. simpl. f_equal.
    apply (Hcol (gravity ds) b); [|done..].
    unfold normalized_features. rewrite !elem_of_cons. tauto.
  - rewrite !lookup_insert_ne by done. rewrite lookup_insert_eq.
    do 2 f_equal. apply list_fmap_ext. intros _ y _. simpl. f_equal.
    apply (Hcol (feh ds) c); [|done..].
    unfold normalized_features. rewrite !elem_of_cons. tauto.
  - rewrite lookup_insert_eq.
    do 2 f_equal. apply list_fmap_ext. intros _ y _. simpl. f_equal.
    apply (Hcol (afe ds) e); [|done..].
    unfold normalized_features. rewrite !elem_of_cons. tauto.
Qed.

Lemma two_model_load :
  load_models [Ok sample_model; Ok cool_model]
  = [set_TAU [0; 3; 8]%R sample_model; set_TAU [0; 3; 8]%R cool_model].
Proof.
  unfold load_models. cbn [omap list_omap mbind result_bind].
  by rewrite (calculate_tau_example sample_model),
    (calculate_tau_example cool_model).
Qed.

(** The dataset built from the sample model and the cooler model. *)
Lemma two_model_dataset :
  ∃ ds, init [Ok sample_model; Ok cool_model] 3 = Ok ds.
Proof.
  apply init_ok; [lia|by rewrite two_model_load|].
  rewrite two_model_load.
  repeat constructor; simpl; try done; by exists [0; 3; 8]%R.
Qed.

(** The effective temperature of the second of two models, 4000, recovered
    from its sample. *)
Lemma inverse_transform_inputs_getitem_witness :
  ∃ ds,
    init [Ok sample_model; Ok cool_model] 3 = Ok ds
    ∧ ∃ inputs outputs res,
        getitem ds (Z.of_nat 1) = Ok (inputs, outputs)
        ∧ inverse_transform_inputs ds inputs = Ok res
        ∧ res !! "teff"%string
          = Some (T2 (replicate 3
                        [Fin (m_teff (set_TAU [0; 3; 8]%R cool_model))])).
Proof.
  destruct two_model_dataset as (ds & Hinit).
  exists ds. split; [exact Hinit|].
  apply (inverse_transform_inputs_getitem
           [Ok sample_model; Ok cool_model] 3 ds 1
           (set_TAU [0; 3; 8]%R cool_model) "teff"%string m_teff Hinit).
  - rewrite two_model_load. reflexivity.
  - unfold stellar_fields. rewrite !elem_of_cons. tauto.
  - intros _ m Hm. rewrite two_model_load in Hm.
    rewrite !elem_of_cons in Hm. rewrite elem_of_nil in Hm.
    destruct Hm as [->|[->|[]]]; simpl; unfold eps; lra.
  - exists (set_TAU [0; 3; 8]%R sample_model),
      (set_TAU [0; 3; 8]%R cool_model).
    rewrite two_model_load, !elem_of_cons. simpl.
    split; [tauto|]. split; [tauto|]. lra.
Defined.

(** ** Back to physical units: the outputs *)

Lemma mapM_fmap_ok {A B C} (f : B → result C) (h : A → B) (g : A → C)
    (l : list A) :
  Forall (λ x, f (h x) = Ok (g x)) l → mapM f (h <$> l) = Ok (g <$> l).
Proof.
  induction 1 as [|x l Hx _ IH]; [done|].
  rewrite !fmap_cons. cbn [mapM]. rewrite Hx. cbn [mbind result_bind].
  by rewrite IH.
Qed.

Lemma tshape_T3 (b d n : nat) (c : list (list (list xreal))) :
  blocks b d n c → (1 ≤ b)%nat → (1 ≤ d)%nat → (1 ≤ n)%nat →
  tshape (T3 c) = [b; d; n].
Proof.
  intros (Hb & Hall) Hb1 Hd1 Hn1.
  destruct c as [|blk c]; [simpl in Hb; lia|].
  apply Forall_cons in Hall as ((Hd & Hrows) & _).
  destruct blk as [|row blk]; [simpl in Hd; lia|].
  apply Forall_cons in Hrows as (Hn & _).
  destruct row as [|x row]; [simpl in Hn; lia|].
  simpl in *. rewrite !length_fmap. by rewrite Hb, Hd, Hn.
Qed.

Lemma tselect2_T3 (b d n i : nat) (c : list (list (list xreal))) :
  blocks b d n c → (1 ≤ b)%nat → (1 ≤ d)%nat → (i < n)%nat →
  tselect2 (T3 c) i = Ok (T2 (channel i c)).
Proof.
  intros Hc Hb1 Hd1 Hi. unfold tselect2.
  rewrite (tshape_T3 b d n c Hc Hb1 Hd1) by lia.
  rewrite decide_True by done.
  destruct Hc as (_ & Hall). unfold T3.
  rewrite (mapM_fmap_ok _ T2 (λ blk, T1 ((λ row, nth i row NaN) <$> blk))).
  - simpl. unfold T2, channel. by rewrite <- !list_fmap_compose.
  - eapply Forall_impl; [exact Hall|]. intros blk (_ & Hrows). cbv beta.
    unfold T2.
    rewrite (mapM_fmap_ok _ T1 (λ row, Sc (nth i row NaN))).
    + simpl. unfold T1. by rewrite <- !list_fmap_compose.
    + eapply Forall_impl; [exact Hrows|]. intros row Hrow.
      cbv beta in Hrow |- *. unfold T1. cbn [tindex]. apply py_index_nat.
      rewrite list_lookup_fmap.
      destruct (lookup_lt_is_Some_2 row i) as [x Hx]; [lia|].
      rewrite Hx. simpl. by rewrite (nth_lookup_Some _ _ _ _ Hx).
Qed.

(** X22: on a (batch, depth, 7) tensor, with 0-dim statistics for the
    seven output columns as every constructed dataset has,
    [inverse_transform_outputs] returns a mapping in which each of RHOX, T,
    P, XNE, ABROSS, ACCRAD and TAU holds the denormalised channel of its
    position, TAU the seventh, and no other name is present. *)
Theorem inverse_transform_outputs_seven_channels :
  ∀ (self : KuruczDataset) (c : list (list (list xreal))) (batch depth : nat),
    (∀ name, name ∈ output_columns →
       ∃ mn mx lg,
         norm_params self !! name = Some (mkNormParams (Sc mn) (Sc mx) lg)) →
    blocks batch depth 7 c → (1 ≤ batch)%nat → (1 ≤ depth)%nat →
    ∃ res,
      inverse_transform_outputs self (T3 c) = Ok res
      ∧ (∀ i name, output_columns !! i = Some name →
           ∃ denorm,
             denormalize (norm_params self) name (T2 (channel i c))
             = Ok denorm
             ∧ res !! name = Some (Some denorm))
      ∧ ∀ name, is_Some (res !! name) ↔ name ∈ output_columns.
Proof.
  intros self c batch depth Hstats Hc Hb Hd.
  unfold inverse_transform_outputs.
  rewrite (tshape_T3 _ _ _ _ Hc Hb Hd) by lia. cbv zeta.
  change (zip (seq 0 (length output_columns)) output_columns)
    with [(0, "RHOX"); (1, "T"); (2, "P"); (3, "XNE"); (4, "ABROSS");
          (5, "ACCRAD"); (6, "TAU")]%nat%string.
  assert (∀ name, name ∈ output_columns →
            ∃ p mn mx, norm_params self !! name = Some p
                       ∧ np_min p = Sc mn ∧ np_max p = Sc mx) as Hp.
  { intros name (mn & mx & lg & Hq)%Hstats. by eexists _, mn, mx. }
  destruct (Hp "RHOX"%string) as (p0 & mn0 & mx0 & Q0 & N0 & X0);
    [unfold output_columns; rewrite !elem_of_cons; tauto|].
  destruct (Hp "T"%string) as (p1 & mn1 & mx1 & Q1 & N1 & X1);
    [unfold output_columns; rewrite !elem_of_cons; tauto|].
  destruct (Hp "P"%string) as (p2 & mn2 & mx2 & Q2 & N2 & X2);
    [unfold output_columns; rewrite !elem_of_cons; tauto|].
  destruct (Hp "XNE"%string) as (p3 & mn3 & mx3 & Q3 & N3 & X3);
    [unfold output_columns; rewrite !elem_of_cons; tauto|].
  destruct (Hp "ABROSS"%string) as (p4 & mn4 & mx4 & Q4 & N4 & X4);
    [unfold output_columns; rewrite !elem_of_cons; tauto|].
  destruct (Hp "ACCRAD"%string) as (p5 & mn5 & mx5 & Q5 & N5 & X5);
    [unfold output_columns; rewrite !elem_of_cons; tauto|].
  destruct (Hp "TAU"%string) as (p6 & mn6 & mx6 & Q6 & N6 & X6);
    [unfold output_columns; rewrite !elem_of_cons; tauto|].
  cbn [for_each].
  rewrite !(tselect2_T3 _ _ 7 _ _ Hc Hb Hd) by lia.
  cbn [mbind result_bind].
  rewrite (denormalize_scalar _ _ _ _ _ _ Q0 N0 X0).
  rewrite (denormalize_scalar _ _ _ _ _ _ Q1 N1 X1).
  rewrite (denormalize_scalar _ _ _ _ _ _ Q2 N2 X2).
  rewrite (denormalize_scalar _ _ _ _ _ _ Q3 N3 X3).
  rewrite (denormalize_scalar _ _ _ _ _ _ Q4 N4 X4).
  rewrite (denormalize_scalar _ _ _ _ _ _ Q5 N5 X5).
  rewrite (denormalize_scalar _ _ _ _ _ _ Q6 N6 X6).
  cbn [mbind result_bind].
  eexists. split; [done|]. split.
  - intros i name Hi. unfold output_columns in Hi.
    do 7 (destruct i as [|i];
          [injection Hi as <-;
           rewrite ?lookup_insert_ne by done; rewrite lookup_insert_eq;
           eexists; split; [|reflexivity];
           first [ exact (denormalize_scalar _ _ _ _ _ _ Q0 N0 X0)
                 | exact (denormalize_scalar _ _ _ _ _ _ Q1 N1 X1)
                 | exact (denormalize_scalar _ _ _ _ _ _ Q2 N2 X2)
                 | exact (denormalize_scalar _ _ _ _ _ _ Q3 N3 X3)
                 | exact (denormalize_scalar _ _ _ _ _ _ Q4 N4 X4)
                 | exact (denormalize_scalar _ _ _ _ _ _ Q5 N5 X5)
                 | exact (denormalize_scalar _ _ _ _ _ _ Q6 N6 X6) ]|]).
    done.
  - intros name. unfold output_columns.
    rewrite !elem_of_cons, elem_of_nil.
    rewrite !lookup_insert_is_Some.
    cbn [fmap list_fmap list_to_map foldr fst snd curry uncurry].
    rewrite !lookup_insert_is_Some, lookup_empty.
    split.
    + intros H. decompose [and or] H; subst;
        try match goal with H' : is_Some None |- _ => by destruct H' end;
        repeat (first [by left | right]).
    + intros H. decompose [or] H; subst; try done;
        repeat (first [by left | right; split; [done|]]).
Qed.

(** A (1, 1, 7) output tensor and the dataset built from the sample
    model. *)
Lemma inverse_transform_outputs_seven_channels_witness :
  ∃ ds,
    init [Ok sample_model] 3 = Ok ds
    ∧ ∃ res,
        inverse_transform_outputs ds (T3 sample_outputs7) = Ok res
        ∧ (∀ i name, output_columns !! i = Some name →
             ∃ denorm,
               denormalize (norm_params ds) name
                           (T2 (channel i sample_outputs7)) = Ok denorm
               ∧ res !! name = Some (Some denorm))
        ∧ ∀ name, is_Some (res !! name) ↔ name ∈ output_columns.
Proof.
  destruct sample_dataset as (ds & Hinit & _).
  exists ds. split; [exact Hinit|].
  apply (inverse_transform_outputs_seven_channels ds sample_outputs7 1 1).
  - by destruct (init_assembled _ _ _ Hinit) as (_ & _ & _ & _ & Hstats & _).
  - unfold blocks, sample_outputs7. split; [reflexivity|].
    repeat constructor.
  - lia.
  - lia.
Defined.

(** ** Saving and loading *)

Lemma fmap_pair_id {A B} (l : list (A * B)) : (λ '(k, v), (k, v)) <$> l = l.
Proof.
  induction l as [|[k v] l IH]; [done|]. rewrite fmap_cons. by rewrite IH.
Qed.

(** X23: loading what [save_dataset] saved gives an object whose tensors,
    statistics, depth-point count and original bundle are those of the
    saved dataset, and whose list of models is empty, the file being taken
    to return the saved record unchanged. *)
Theorem load_save_dataset :
  ∀ (ds : KuruczDataset) (device : string),
    dataset_of_attrs (load_dataset (save_dataset ds) device)
    = Some (mkDataset (max_depth_points ds) [] (original ds) (norm_params ds)
                      (teff ds) (gravity ds) (feh ds) (afe ds)
                      (RHOX ds) (T ds) (P ds) (XNE ds)
                      (ABROSS ds) (ACCRAD ds) (TAU ds)).
Proof.
  intros ds device.
  unfold load_dataset, save_dataset.
  cbn [sd_data sd_norm_params sd_max_depth_points foldl].
  rewrite fmap_pair_id.
  unfold dataset_of_attrs. cbv zeta.
  repeat (rewrite ?lookup_insert_ne by done; rewrite lookup_insert_eq;
          cbn [mbind option_bind]).
  rewrite ?lookup_insert_ne by done. rewrite lookup_singleton_eq.
  cbn [mbind option_bind].
  repeat (rewrite ?lookup_insert_ne by done; rewrite lookup_insert_eq;
          cbn [mbind option_bind]).
  done.
Qed.

(** ** The normalised tensors *)

(** X24: every normalised tensor of a constructed dataset is its entry of
    the original bundle transformed element by element with the stored
    0-dim statistics of its feature, so it has the shape of that entry:
    row [i] is model [i], column [j] depth point [j]. *)
Theorem normalized_fields_elementwise :
  ∀ (readings : list (result AtmModel)) (d : nat) (ds : KuruczDataset)
    (name : string) (field : tensor),
    init readings d = Ok ds →
    (name, field) ∈ normalized_features ds →
    ∃ data p mn mx,
      dict_get (original ds) name = Ok data
      ∧ norm_params ds !! name = Some p
      ∧ np_min p = Sc mn ∧ np_max p = Sc mx
      ∧ field = tmap (normalize_value (log_scale p) mn mx) data
      ∧ tshape field = tshape data.
Proof.
  intros readings d ds name field Hinit Hfield.
  destruct (init_feature _ _ _ _ _ Hinit Hfield)
    as (data & p & n' & d' & Hdata & Hm & Hfit & Hp & Hnorm).
  destruct (fit_params_flat _ _ _ (tdim_matrix _ _ _ Hm) Hfit)
    as (x & xs & _ & Hpeq).
  assert (∃ mn mx, np_min p = Sc mn ∧ np_max p = Sc mx)
    as (mn & mx & Hmn & Hmx) by (rewrite Hpeq; eauto).
  rewrite (normalize_scalar _ _ _ _ _ _ Hp Hmn Hmx) in Hnorm.
  injection Hnorm as <-.
  exists data, p, mn, mx. by rewrite tshape_tmap.
Qed.

(** The normalised temperatures of the dataset built from the sample
    model. *)
Lemma normalized_fields_elementwise_witness :
  ∃ ds,
    init [Ok sample_model] 3 = Ok ds
    ∧ ∃ data p mn mx,
        dict_get (original ds) "T" = Ok data
        ∧ norm_params ds !! "T"%string = Some p
        ∧ np_min p = Sc mn ∧ np_max p = Sc mx
        ∧ T ds = tmap (normalize_value (log_scale p) mn mx) data
        ∧ tshape (T ds) = tshape data.
Proof.
  destruct sample_dataset as (ds & Hinit & _).
  exists ds. split; [exact Hinit|].
  apply (normalized_fields_elementwise [Ok sample_model] 3 ds "T"%string
           (T ds) Hinit).
  unfold normalized_features. rewrite !elem_of_cons. tauto.
Defined.
